(** * Control core of the WebGL hero scene (src/script.js and the sliced
      fragment shader)

    The development embeds the render loop, the rotation/interaction
    logic, the motion-blur uniform update, the visibility manager and the
    alpha computation of the fragment shader, and proves the properties
    the specification states about them.

    JavaScript and GLSL numbers are embedded as exact rationals [Q]: every
    arithmetic expression of the source is kept as written, rounding of
    IEEE-754 doubles is not represented. Results about numbers are stated
    up to [==] (equality of rationals). *)

From stdpp Require Import gmap.
From Stdlib Require Import QArith Qminmax Qabs Lqa String List.
Import ListNotations.
Open Scope Q_scope.

(** ** Numbers *)

(** [a < b] on JavaScript numbers, as a boolean. *)
Definition Qltb (a b : Q) : bool := negb (Qle_bool b a).

(** ** CONFIG (script.js, lines 15-47) *)

Module CONFIG.
Definition VISIBILITY_THRESHOLD : Q := 0.1.
Definition PAUSE_DELAY : Q := 500.
Definition ENABLE_SHADOWS : bool := true.
Definition ENABLE_MOTION_BLUR : bool := true.
Definition AUTO_ROTATE_SPEED : Q := 0.1.
Definition RESUME_DELAY : Q := 700.
Definition TRANSITION_DURATION : Q := 1200.
End CONFIG.

Record MotionSettings := {
  motionEnabled : bool;   (* motionSettings.enabled *)
  intensity : Q
}.

Definition motionSettings : MotionSettings :=
  {| motionEnabled := CONFIG.ENABLE_MOTION_BLUR; intensity := 5.0 |}.

Record RotationSettings := {
  enabled : bool;
  speed : Q;
  pauseOnInteraction : bool;
  resumeDelay : Q;
  smoothTransition : bool;
  transitionDuration : Q
}.

Definition rotationSettings : RotationSettings :=
  {| enabled := true;
     speed := CONFIG.AUTO_ROTATE_SPEED;
     pauseOnInteraction := true;
     resumeDelay := CONFIG.RESUME_DELAY;
     smoothTransition := true;
     transitionDuration := CONFIG.TRANSITION_DURATION |}.

Definition velocitySmoothing : Q := 0.9.

(** ** The frame clock *)

(** The frame clock is an instance of three.js's [THREE.Clock], whose
    code is not part of src/. Times are read from [performance.now()] in
    milliseconds, deltas are returned in seconds. *)
Module Clock.

(** Modelled from the spec: the state of the frame clock, absent from
    src/: the time of the last reading, the elapsed time and the running
    flag the specification lists, with the [autoStart] flag and start
    time that [THREE.Clock] keeps besides. *)
Record t := {
  autoStart : bool;
  startTime : Q;
  oldTime : Q;
  elapsedTime : Q;
  running : bool
}.

(** Modelled from the spec: [new THREE.Clock()], absent from src/: a
    clock created at start-up, not yet running. *)
Definition create : t :=
  {| autoStart := true; startTime := 0; oldTime := 0;
     elapsedTime := 0; running := false |}.

(** Modelled from the spec: [clock.start()], absent from src/: resets
    the baseline to the current time and sets the clock running. *)
Definition start (now : Q) (c : t) : t :=
  {| autoStart := autoStart c; startTime := now; oldTime := now;
     elapsedTime := 0; running := true |}.

(** Modelled from the spec: [clock.getDelta()], absent from src/: the
    seconds since the last reading, which becomes the new baseline; a
    clock that was never started starts now and reports zero; a stopped
    one reports zero. *)
Definition getDelta (now : Q) (c : t) : Q * t :=
  if autoStart c && negb (running c) then (0, start now c)
  else if running c then
    let diff := (now - oldTime c) / 1000 in
    (diff, {| autoStart := autoStart c; startTime := startTime c;
              oldTime := now; elapsedTime := elapsedTime c + diff;
              running := running c |})
  else (0, c).

(** Modelled from the spec: [clock.stop()], absent from src/: takes a
    last reading and clears the running flag. *)
Definition stop (now : Q) (c : t) : t :=
  let c' := snd (getDelta now c) in
  {| autoStart := false; startTime := startTime c'; oldTime := oldTime c';
     elapsedTime := elapsedTime c'; running := false |}.

End Clock.

(** ** Browser environment *)

(** Calls that leave the program, in the order they are made. *)
Inductive Effect :=
| LoggerInfo (message : string)
| LoggerSuccess (message : string)
| LoggerError (message : string)
| DispatchEvent (name : string)
| ControlsUpdate
| RendererRender
| RequestAnimationFrame (id : positive)
| CancelAnimationFrame (id : positive).

(** The two closures the program hands to [setTimeout]. *)
Inductive TimerCallback :=
| ResumeCallback   (* the arrow function in resumeRotation *)
| PauseCallback.   (* the arrow function in the IntersectionObserver callback *)

Record Timer := {
  deadline : Q;
  callback : TimerCallback
}.

(** Timer and animation-frame handles are positive integers, hence truthy
    in tests such as [if (this.pauseTimeout)] and [if (animationFrameId)]. *)
Record Browser := {
  now : Q;                          (* performance.now(), milliseconds *)
  timers : gmap positive Timer;     (* pending setTimeout callbacks *)
  nextTimerId : positive;
  frames : gset positive;           (* pending requestAnimationFrame callbacks *)
  nextFrameId : positive;
  contextLost : bool;               (* renderer.render throws when set *)
  loaderPending : bool;             (* gltfLoader.load has not called back yet *)
  out : list Effect
}.

Definition set_now (v : Q) (b : Browser) : Browser :=
  Build_Browser v (timers b) (nextTimerId b) (frames b) (nextFrameId b)
    (contextLost b) (loaderPending b) (out b).

Definition set_timers (v : gmap positive Timer) (b : Browser) : Browser :=
  Build_Browser (now b) v (nextTimerId b) (frames b) (nextFrameId b)
    (contextLost b) (loaderPending b) (out b).

Definition set_nextTimerId (v : positive) (b : Browser) : Browser :=
  Build_Browser (now b) (timers b) v (frames b) (nextFrameId b) (contextLost
    b) (loaderPending b) (out b).

Definition set_frames (v : gset positive) (b : Browser) : Browser :=
  Build_Browser (now b) (timers b) (nextTimerId b) v (nextFrameId b)
    (contextLost b) (loaderPending b) (out b).

Definition set_nextFrameId (v : positive) (b : Browser) : Browser :=
  Build_Browser (now b) (timers b) (nextTimerId b) (frames b) v (contextLost
    b) (loaderPending b) (out b).

Definition set_contextLost (v : bool) (b : Browser) : Browser :=
  Build_Browser (now b) (timers b) (nextTimerId b) (frames b) (nextFrameId b)
    v (loaderPending b) (out b).

Definition set_loaderPending (v : bool) (b : Browser) : Browser :=
  Build_Browser (now b) (timers b) (nextTimerId b) (frames b) (nextFrameId b)
    (contextLost b) v (out b).

Definition set_out (v : list Effect) (b : Browser) : Browser :=
  Build_Browser (now b) (timers b) (nextTimerId b) (frames b) (nextFrameId b)
    (contextLost b) (loaderPending b) v.

(** ** Program state *)

Inductive Mode := Webflow | Vite.

Record VisibilityManager := {
  isVisible : bool;
  pauseTimeout : option positive
}.

Record Uniforms := {
  uSliceStart : Q;
  uSliceArc : Q;
  uAngularVelocity : Q
}.

(** The module-level variables of script.js. [model] holds
    [model.rotation.y] once the loader has called back, [None] stands for
    [null]. *)
Record World := {
  browser : Browser;
  mode : Mode;
  visibilityManager : VisibilityManager;
  uniforms : Uniforms;
  model : option Q;
  (* auto-rotation system *)
  autoRotate : bool;
  userInteracting : bool;
  resumeTimeout : option positive;
  rotationSpeedMultiplier : Q;
  transitionStartTime : Q;
  isMouseDown : bool;
  isTouching : bool;
  (* motion blur system *)
  previousRotation : Q;
  smoothedVelocity : Q;
  (* animation loop *)
  clock : Clock.t;
  isRendering : bool;
  animationFrameId : option positive
}.

Definition set_browser (v : Browser) (w : World) : World :=
  Build_World v (mode w) (visibilityManager w) (uniforms w) (model w)
    (autoRotate w) (userInteracting w) (resumeTimeout w)
    (rotationSpeedMultiplier w) (transitionStartTime w) (isMouseDown w)
    (isTouching w) (previousRotation w) (smoothedVelocity w) (clock w)
    (isRendering w) (animationFrameId w).

Definition set_mode (v : Mode) (w : World) : World :=
  Build_World (browser w) v (visibilityManager w) (uniforms w) (model w)
    (autoRotate w) (userInteracting w) (resumeTimeout w)
    (rotationSpeedMultiplier w) (transitionStartTime w) (isMouseDown w)
    (isTouching w) (previousRotation w) (smoothedVelocity w) (clock w)
    (isRendering w) (animationFrameId w).

Definition set_visibilityManager (v : VisibilityManager) (w : World) : World :=
  Build_World (browser w) (mode w) v (uniforms w) (model w) (autoRotate w)
    (userInteracting w) (resumeTimeout w) (rotationSpeedMultiplier w)
    (transitionStartTime w) (isMouseDown w) (isTouching w) (previousRotation
    w) (smoothedVelocity w) (clock w) (isRendering w) (animationFrameId w).

Definition set_uniforms (v : Uniforms) (w : World) : World :=
  Build_World (browser w) (mode w) (visibilityManager w) v (model w)
    (autoRotate w) (userInteracting w) (resumeTimeout w)
    (rotationSpeedMultiplier w) (transitionStartTime w) (isMouseDown w)
    (isTouching w) (previousRotation w) (smoothedVelocity w) (clock w)
    (isRendering w) (animationFrameId w).

Definition set_model (v : option Q) (w : World) : World :=
  Build_World (browser w) (mode w) (visibilityManager w) (uniforms w) v
    (autoRotate w) (userInteracting w) (resumeTimeout w)
    (rotationSpeedMultiplier w) (transitionStartTime w) (isMouseDown w)
    (isTouching w) (previousRotation w) (smoothedVelocity w) (clock w)
    (isRendering w) (animationFrameId w).

Definition set_autoRotate (v : bool) (w : World) : World :=
  Build_World (browser w) (mode w) (visibilityManager w) (uniforms w) (model
    w) v (userInteracting w) (resumeTimeout w) (rotationSpeedMultiplier w)
    (transitionStartTime w) (isMouseDown w) (isTouching w) (previousRotation
    w) (smoothedVelocity w) (clock w) (isRendering w) (animationFrameId w).

Definition set_userInteracting (v : bool) (w : World) : World :=
  Build_World (browser w) (mode w) (visibilityManager w) (uniforms w) (model
    w) (autoRotate w) v (resumeTimeout w) (rotationSpeedMultiplier w)
    (transitionStartTime w) (isMouseDown w) (isTouching w) (previousRotation
    w) (smoothedVelocity w) (clock w) (isRendering w) (animationFrameId w).

Definition set_resumeTimeout (v : option positive) (w : World) : World :=
  Build_World (browser w) (mode w) (visibilityManager w) (uniforms w) (model
    w) (autoRotate w) (userInteracting w) v (rotationSpeedMultiplier w)
    (transitionStartTime w) (isMouseDown w) (isTouching w) (previousRotation
    w) (smoothedVelocity w) (clock w) (isRendering w) (animationFrameId w).

Definition set_rotationSpeedMultiplier (v : Q) (w : World) : World :=
  Build_World (browser w) (mode w) (visibilityManager w) (uniforms w) (model
    w) (autoRotate w) (userInteracting w) (resumeTimeout w) v
    (transitionStartTime w) (isMouseDown w) (isTouching w) (previousRotation
    w) (smoothedVelocity w) (clock w) (isRendering w) (animationFrameId w).

Definition set_transitionStartTime (v : Q) (w : World) : World :=
  Build_World (browser w) (mode w) (visibilityManager w) (uniforms w) (model
    w) (autoRotate w) (userInteracting w) (resumeTimeout w)
    (rotationSpeedMultiplier w) v (isMouseDown w) (isTouching w)
    (previousRotation w) (smoothedVelocity w) (clock w) (isRendering w)
    (animationFrameId w).

Definition set_isMouseDown (v : bool) (w : World) : World :=
  Build_World (browser w) (mode w) (visibilityManager w) (uniforms w) (model
    w) (autoRotate w) (userInteracting w) (resumeTimeout w)
    (rotationSpeedMultiplier w) (transitionStartTime w) v (isTouching w)
    (previousRotation w) (smoothedVelocity w) (clock w) (isRendering w)
    (animationFrameId w).

Definition set_isTouching (v : bool) (w : World) : World :=
  Build_World (browser w) (mode w) (visibilityManager w) (uniforms w) (model
    w) (autoRotate w) (userInteracting w) (resumeTimeout w)
    (rotationSpeedMultiplier w) (transitionStartTime w) (isMouseDown w) v
    (previousRotation w) (smoothedVelocity w) (clock w) (isRendering w)
    (animationFrameId w).

Definition set_previousRotation (v : Q) (w : World) : World :=
  Build_World (browser w) (mode w) (visibilityManager w) (uniforms w) (model
    w) (autoRotate w) (userInteracting w) (resumeTimeout w)
    (rotationSpeedMultiplier w) (transitionStartTime w) (isMouseDown w)
    (isTouching w) v (smoothedVelocity w) (clock w) (isRendering w)
    (animationFrameId w).

Definition set_smoothedVelocity (v : Q) (w : World) : World :=
  Build_World (browser w) (mode w) (visibilityManager w) (uniforms w) (model
    w) (autoRotate w) (userInteracting w) (resumeTimeout w)
    (rotationSpeedMultiplier w) (transitionStartTime w) (isMouseDown w)
    (isTouching w) (previousRotation w) v (clock w) (isRendering w)
    (animationFrameId w).

Definition set_clock (v : Clock.t) (w : World) : World :=
  Build_World (browser w) (mode w) (visibilityManager w) (uniforms w) (model
    w) (autoRotate w) (userInteracting w) (resumeTimeout w)
    (rotationSpeedMultiplier w) (transitionStartTime w) (isMouseDown w)
    (isTouching w) (previousRotation w) (smoothedVelocity w) v (isRendering w)
    (animationFrameId w).

Definition set_isRendering (v : bool) (w : World) : World :=
  Build_World (browser w) (mode w) (visibilityManager w) (uniforms w) (model
    w) (autoRotate w) (userInteracting w) (resumeTimeout w)
    (rotationSpeedMultiplier w) (transitionStartTime w) (isMouseDown w)
    (isTouching w) (previousRotation w) (smoothedVelocity w) (clock w) v
    (animationFrameId w).

Definition set_animationFrameId (v : option positive) (w : World) : World :=
  Build_World (browser w) (mode w) (visibilityManager w) (uniforms w) (model
    w) (autoRotate w) (userInteracting w) (resumeTimeout w)
    (rotationSpeedMultiplier w) (transitionStartTime w) (isMouseDown w)
    (isTouching w) (previousRotation w) (smoothedVelocity w) (clock w)
    (isRendering w) v.

(** ** Completions: a call returns normally or throws *)

Inductive Completion :=
| Normal (w : World)
| Throw (w : World).

Definition world_of (c : Completion) : World :=
  match c with Normal w => w | Throw w => w end.

Definition andThen (c : Completion) (k : World -> Completion) : Completion :=
  match c with
  | Normal w => k w
  | Throw w => Throw w
  end.

Notation "c >>= k" := (andThen c k) (at level 50, left associativity).

(** ** Browser services *)

Definition performance_now (w : World) : Q := now (browser w).

Definition emit (e : Effect) (w : World) : World :=
  set_browser (set_out (out (browser w) ++ [e]) (browser w)) w.

Definition setTimeout (cb : TimerCallback) (delay : Q) (w : World)
  : positive * World :=
  let b := browser w in
  let id := nextTimerId b in
  let tm := {| deadline := now b + delay; callback := cb |} in
  (id, set_browser (set_nextTimerId (Pos.succ id)
                      (set_timers (<[id := tm]> (timers b)) b)) w).

(** [clearTimeout(h)]; a [null] or stale handle cancels nothing. *)
Definition clearTimeout (h : option positive) (w : World) : World :=
  let pending := timers (browser w) in
  set_browser (set_timers (match h with
                           | Some id => delete id pending
                           | None => pending
                           end) (browser w)) w.

Definition requestAnimationFrame (w : World) : positive * World :=
  let b := browser w in
  let id := nextFrameId b in
  (id, emit (RequestAnimationFrame id)
         (set_browser (set_nextFrameId (Pos.succ id)
                         (set_frames ({[id]} ∪ frames b) b)) w)).

Definition cancelAnimationFrame (id : positive) (w : World) : World :=
  emit (CancelAnimationFrame id)
    (set_browser (set_frames (frames (browser w) ∖ {[id]}) (browser w)) w).

(** [renderer.render(scene, camera)]: the call is recorded, and it throws
    when the drawing context is lost. *)
Definition render (w : World) : Completion :=
  let w := emit RendererRender w in
  if contextLost (browser w) then Throw w else Normal w.

(** ** Auto-rotation system (script.js, lines 493-578) *)

Definition easePower2Out (t : Q) : Q := t * (2 - t).

(** The function scheduled by [resumeRotation]. *)
Definition resumeCallback (w : World) : World :=
  if negb (userInteracting w) then
    let w := set_autoRotate true w in
    if smoothTransition rotationSettings then
      set_transitionStartTime (performance_now w)
        (set_rotationSpeedMultiplier 0.0 w)
    else set_rotationSpeedMultiplier 1.0 w
  else w.

Definition resumeRotation (w : World) : World :=
  let w := set_userInteracting false w in
  if pauseOnInteraction rotationSettings && enabled rotationSettings then
    let w := clearTimeout (resumeTimeout w) w in
    let '(id, w) := setTimeout ResumeCallback (resumeDelay rotationSettings) w in
    set_resumeTimeout (Some id) w
  else w.

(** Canvas listeners; the cursor style they also set is not represented. *)
Definition onMouseDown (button : Z) (w : World) : World :=
  if (button =? 0)%Z then set_isMouseDown true w else w.

Definition onMouseUp (w : World) : World := set_isMouseDown false w.

Definition onMouseLeave (w : World) : World :=
  let w := set_isMouseDown false w in
  if userInteracting w then resumeRotation w else w.

Definition onTouchStart (w : World) : World := set_isTouching true w.
Definition onTouchEnd (w : World) : World := set_isTouching false w.
Definition onTouchCancel (w : World) : World := set_isTouching false w.

(** OrbitControls listeners. *)
Definition onControlsStart (w : World) : World :=
  if isMouseDown w || isTouching w then
    let w := set_userInteracting true w in
    let w := if pauseOnInteraction rotationSettings
             then set_rotationSpeedMultiplier 0.0 (set_autoRotate false w)
             else w in
    clearTimeout (resumeTimeout w) w
  else w.

Definition onControlsEnd (w : World) : World :=
  if userInteracting w then resumeRotation w else w.

(** ** Animation loop (script.js, lines 583-634) *)

(** The values the motion-blur block of [tick] reads and writes. *)
Record Blur := {
  blurPrevious : Q;     (* previousRotation *)
  blurSmoothed : Q;     (* smoothedVelocity *)
  blurUniform : Q       (* uniforms.uAngularVelocity.value *)
}.

Definition rawVelocityOf (delta currentRotation previous : Q) : Q :=
  Qabs (currentRotation - previous) / Qmax delta 0.001.

(** Body of [if (motionSettings.enabled) { ... }]. *)
Definition motionBlurBlock (delta currentRotation : Q) (s : Blur) : Blur :=
  let rawVelocity := rawVelocityOf delta currentRotation (blurPrevious s) in
  let smoothed := blurSmoothed s * velocitySmoothing
                  + rawVelocity * (1 - velocitySmoothing) in
  let normalizedVelocity := Qmin (smoothed * intensity motionSettings) 1.0 in
  {| blurPrevious := currentRotation;
     blurSmoothed := smoothed;
     blurUniform :=
       if Qltb 0.01 (Qabs (blurUniform s - normalizedVelocity))
       then normalizedVelocity else blurUniform s |}.

Definition blurOf (w : World) : Blur :=
  {| blurPrevious := previousRotation w;
     blurSmoothed := smoothedVelocity w;
     blurUniform := uAngularVelocity (uniforms w) |}.

Definition set_blur (s : Blur) (w : World) : World :=
  set_previousRotation (blurPrevious s)
    (set_smoothedVelocity (blurSmoothed s)
       (set_uniforms {| uSliceStart := uSliceStart (uniforms w);
                        uSliceArc := uSliceArc (uniforms w);
                        uAngularVelocity := blurUniform s |} w)).

(** "Handle rotation transition" *)
Definition rotationTransition (w : World) : World :=
  if autoRotate w && smoothTransition rotationSettings
     && Qltb (rotationSpeedMultiplier w) 1.0 then
    let transitionElapsed := performance_now w - transitionStartTime w in
    let transitionProgress :=
      Qmin (transitionElapsed / transitionDuration rotationSettings) 1.0 in
    set_rotationSpeedMultiplier (easePower2Out transitionProgress) w
  else w.

(** "Auto-rotate", for a model whose [rotation.y] is [y]. *)
Definition autoRotateStep (delta y : Q) (w : World) : World :=
  if autoRotate w && negb (userInteracting w) && enabled rotationSettings then
    let rotationSpeed := speed rotationSettings * rotationSpeedMultiplier w in
    set_model (Some (y + rotationSpeed * delta)) w
  else w.

(** "Motion blur" *)
Definition motionBlur (delta : Q) (w : World) : World :=
  match model w with
  | Some currentRotation =>
      if motionEnabled motionSettings
      then set_blur (motionBlurBlock delta currentRotation (blurOf w)) w
      else w
  | None => w
  end.

(** The [if (model) { ... }] block. *)
Definition updateModel (delta : Q) (w : World) : World :=
  match model w with
  | Some y => motionBlur delta (autoRotateStep delta y (rotationTransition w))
  | None => w
  end.

(** [const delta = clock.getDelta()] as [tick] evaluates it. *)
Definition tickDelta (w : World) : Q :=
  fst (Clock.getDelta (performance_now w) (clock w)).

Definition tick (w : World) : Completion :=
  if negb (isRendering w) then Normal w
  else
    let delta := tickDelta w in
    let w := set_clock (snd (Clock.getDelta (performance_now w) (clock w))) w in
    let w := updateModel delta w in
    let w := emit ControlsUpdate w in
    render w >>= fun w =>
    let '(id, w) := requestAnimationFrame w in
    Normal (set_animationFrameId (Some id) w).

(** ** Visibility (script.js, lines 146-202 and 637-652) *)

Definition handleVisibilityChange (visible : bool) (w : World) : Completion :=
  if visible && negb (isRendering w) then
    let w := set_isRendering true w in
    let w := set_clock (Clock.start (performance_now w) (clock w)) w in
    let w := emit (LoggerInfo "Rendering resumed") w in
    tick w
  else if negb visible && isRendering w then
    let w := set_isRendering false w in
    let w := match animationFrameId w with
             | Some id => set_animationFrameId None (cancelAnimationFrame id w)
             | None => w
             end in
    let w := set_clock (Clock.stop (performance_now w) (clock w)) w in
    Normal (emit (LoggerInfo "Rendering paused (saving resources)") w)
  else Normal w.

Definition set_vm (isV : bool) (pt : option positive) (w : World) : World :=
  set_visibilityManager {| isVisible := isV; pauseTimeout := pt |} w.

(** [if (this.pauseTimeout) { clearTimeout(...); this.pauseTimeout = null }] *)
Definition clearPauseTimeout (w : World) : World :=
  match pauseTimeout (visibilityManager w) with
  | Some id =>
      set_vm (isVisible (visibilityManager w)) None (clearTimeout (Some id) w)
  | None => w
  end.

(** One iteration of [entries.forEach(entry => ...)]. *)
Definition observeEntry (isIntersecting : bool) (w : World) : Completion :=
  let wasVisible := isVisible (visibilityManager w) in
  let w := set_vm isIntersecting (pauseTimeout (visibilityManager w)) w in
  let w := clearPauseTimeout w in
  if isVisible (visibilityManager w) && negb wasVisible then
    handleVisibilityChange true
      (emit (LoggerInfo "Hero visible - rendering resumed") w)
  else if negb (isVisible (visibilityManager w)) && wasVisible then
    let w := emit (LoggerInfo "Hero invisible - pausing in 500ms") w in
    let '(id, w) := setTimeout PauseCallback CONFIG.PAUSE_DELAY w in
    Normal (set_vm (isVisible (visibilityManager w)) (Some id) w)
  else Normal w.

(** The IntersectionObserver callback; an exception leaves the loop. *)
Fixpoint observerCallback (entries : list bool) (w : World) : Completion :=
  match entries with
  | [] => Normal w
  | entry :: rest => observeEntry entry w >>= observerCallback rest
  end.

(** The function scheduled by the observer callback. *)
Definition pauseCallback (w : World) : Completion :=
  handleVisibilityChange false w.

(** ** Model loading (script.js, lines 311-376) *)

(** Success callback; material assignment, the performance log and the
    canvas class are not represented. *)
Definition onModelLoaded (rotationY : Q) (w : World) : World :=
  let w := set_model (Some rotationY) w in
  let w := emit (LoggerSuccess "3D model loaded") w in
  emit (DispatchEvent "webglReady") w.

Definition onModelError (w : World) : World :=
  let w := emit (LoggerError "Failed to load 3D model") w in
  emit (DispatchEvent "webglError") w.

(** ** Sliced fragment shader (fragment.glsl) *)

(** GLSL built-ins [clamp] and [smoothstep], as the language defines them. *)
Definition clamp (x minVal maxVal : Q) : Q := Qmin (Qmax x minVal) maxVal.

Definition smoothstep (edge0 edge1 x : Q) : Q :=
  let t := clamp ((x - edge0) / (edge1 - edge0)) 0.0 1.0 in
  t * t * (3.0 - 2.0 * t).

(** [main] from the point where [angle] has been wrapped into [0, 2 pi):
    [atan] and [mod] have no rational counterpart, so the wrapped angle is
    an argument. *)
Definition fragmentAlpha (u : Uniforms) (angle : Q) : Q :=
  let motionEpsilon := 0.020 + (uAngularVelocity u * 0.025) in
  let motionEdgeWidth := 0.015 + (uAngularVelocity u * 0.020) in
  let alphaLow :=
    smoothstep motionEpsilon (motionEpsilon + motionEdgeWidth) angle in
  let alphaHigh := smoothstep (uSliceArc u - motionEdgeWidth) (uSliceArc u) angle in
  let alphaLow := alphaLow * alphaLow * (3.0 - 2.0 * alphaLow) in
  let alphaHigh := alphaHigh * alphaHigh * (3.0 - 2.0 * alphaHigh) in
  1.0 - (alphaLow * (1.0 - alphaHigh)).

(** [None] stands for [discard], [Some c] for the [gl_FragColor] written. *)
Definition fragmentMain (u : Uniforms) (angle : Q) : option (Q * Q * Q * Q) :=
  let alpha := fragmentAlpha u angle in
  if Qltb alpha 0.01 then None else Some (1.0, 1.0, 1.0, alpha).

(** ** Start-up and the event loop *)

(** State when the script reaches [tick()] on line 655, at time [t0]. *)
Definition init (m : Mode) (t0 : Q) (lost : bool) : World :=
  {| browser := {| now := t0; timers := ∅; nextTimerId := 1;
                   frames := ∅; nextFrameId := 1; contextLost := lost;
                   loaderPending := true; out := [] |};
     mode := m;
     visibilityManager := {| isVisible := true; pauseTimeout := None |};
     uniforms := {| uSliceStart := 1.75; uSliceArc := 1.25;
                    uAngularVelocity := 0.0 |};
     model := None;
     autoRotate := true;
     userInteracting := false;
     resumeTimeout := None;
     rotationSpeedMultiplier := 1.0;
     transitionStartTime := 0;
     isMouseDown := false;
     isTouching := false;
     previousRotation := 0;
     smoothedVelocity := 0;
     clock := Clock.create;
     isRendering := true;
     animationFrameId := None |}.

(** State after the script has run to its end. *)
Definition boot (m : Mode) (t0 : Q) (lost : bool) : World :=
  world_of (tick (init m t0 lost)).

(** What the browser can deliver to the program. Resizes only touch the
    camera and the renderer size, and the [beforeunload] clean-up ends the
    program; neither is an event here. *)
Inductive Event :=
| MouseDown (button : Z)
| MouseUp
| MouseLeave
| TouchStart
| TouchEnd
| TouchCancel
| ControlsStart
| ControlsEnd
| Intersection (entries : list bool)
| TimerFired (id : positive)
| AnimationFrame (id : positive)
| ModelLoaded (rotationY : Q)
| ModelFailed
| ContextChange (lost : bool).

Definition takeTimer (id : positive) (w : World) : World :=
  set_browser (set_timers (delete id (timers (browser w))) (browser w)) w.

Definition takeFrame (id : positive) (w : World) : World :=
  set_browser (set_frames (frames (browser w) ∖ {[id]}) (browser w)) w.

Definition settleLoader (w : World) : World :=
  set_browser (set_loaderPending false (browser w)) w.

(** Runs the handler of [e]; [None] when the browser cannot deliver [e] in
    [w]: a timer fires only when pending and due, a frame callback only
    when pending, the observer exists only in Webflow mode, the loader
    calls back once. An exception that reaches the browser is dropped. *)
Definition dispatch (e : Event) (w : World) : option Completion :=
  match e with
  | MouseDown button => Some (Normal (onMouseDown button w))
  | MouseUp => Some (Normal (onMouseUp w))
  | MouseLeave => Some (Normal (onMouseLeave w))
  | TouchStart => Some (Normal (onTouchStart w))
  | TouchEnd => Some (Normal (onTouchEnd w))
  | TouchCancel => Some (Normal (onTouchCancel w))
  | ControlsStart => Some (Normal (onControlsStart w))
  | ControlsEnd => Some (Normal (onControlsEnd w))
  | Intersection entries =>
      match mode w with
      | Webflow => Some (observerCallback entries w)
      | Vite => None
      end
  | TimerFired id =>
      match timers (browser w) !! id with
      | Some tm =>
          if Qle_bool (deadline tm) (performance_now w) then
            match callback tm with
            | ResumeCallback => Some (Normal (resumeCallback (takeTimer id w)))
            | PauseCallback => Some (pauseCallback (takeTimer id w))
            end
          else None
      | None => None
      end
  | AnimationFrame id =>
      if decide (id ∈ frames (browser w)) then Some (tick (takeFrame id w))
      else None
  | ModelLoaded rotationY =>
      if loaderPending (browser w)
      then Some (Normal (onModelLoaded rotationY (settleLoader w)))
      else None
  | ModelFailed =>
      if loaderPending (browser w)
      then Some (Normal (onModelError (settleLoader w)))
      else None
  | ContextChange lost =>
      Some (Normal (set_browser (set_contextLost lost (browser w)) w))
  end.

Definition advance (t : Q) (w : World) : World :=
  set_browser (set_now t (browser w)) w.

(** Event [e] delivered at time [t]; time never runs backwards. *)
Definition step (t : Q) (e : Event) (w : World) : option World :=
  if Qle_bool (performance_now w) t
  then world_of <$> dispatch e (advance t w)
  else None.

Fixpoint run (es : list (Q * Event)) (w : World) : option World :=
  match es with
  | [] => Some w
  | (t, e) :: rest =>
      match step t e w with
      | Some w' => run rest w'
      | None => None
      end
  end.

(** States the program can be in after start-up at a time [t0 >= 0]. *)
Definition reachable (w : World) : Prop :=
  exists m t0 lost es, 0 <= t0 /\ run es (boot m t0 lost) = Some w.

(** ** The rotation states of the specification *)

Inductive RotationState :=
| AutoRotating
| Interacting
| ResumeScheduled
| Transitioning.

(** Reading of the state off the program variables: the user is
    interacting; else rotation is switched off until the resume timer
    fires; else the multiplier is still below one; else full speed. *)
Definition rotationState (w : World) : RotationState :=
  if userInteracting w then Interacting
  else if negb (autoRotate w) then ResumeScheduled
  else if Qltb (rotationSpeedMultiplier w) 1.0 then Transitioning
  else AutoRotating.

From Stdlib Require Import Qround.

(** ** Sizes and resizing (script.js, lines 409-413 and 474-486) *)

(** What the size computations read: the container's client size, the
    window's inner size (whole pixels) and the device pixel ratio. *)
Record Viewport := {
  clientWidth : Z;
  clientHeight : Z;
  innerWidth : Z;
  innerHeight : Z;
  devicePixelRatio : Q
}.

(** [a || b] on pixel counts: zero is the only falsy value. *)
Definition orElse (a b : Z) : Z := if (a =? 0)%Z then b else a.

Record Sizes := {
  width : Z;
  height : Z;
  pixelRatio : Q
}.

(** A quotient of pixel counts as JavaScript computes it: dividing by
    zero gives [Infinity] or [NaN]. *)
Inductive Ratio :=
| Finite (q : Q)
| NonFinite.

Definition ratio (w h : Z) : Ratio :=
  if (h =? 0)%Z then NonFinite else Finite (inject_Z w / inject_Z h).

(** [sizes], [camera.aspect] and the size and pixel ratio handed to the
    renderer. *)
Record View := {
  sizes : Sizes;
  aspect : Ratio;
  rendererSize : Z * Z;
  rendererPixelRatio : Q
}.

(** Lines 409-446: the sizes at start-up, the camera and the renderer
    built from them. *)
Definition initialView (v : Viewport) : View :=
  let s := {| width := orElse (clientWidth v) (innerWidth v);
              height := orElse (clientHeight v) (innerHeight v);
              pixelRatio := Qmin (devicePixelRatio v) 2 |} in
  {| sizes := s;
     aspect := ratio (width s) (height s);
     rendererSize := (width s, height s);
     rendererPixelRatio := pixelRatio s |}.

Definition handleResize (m : Mode) (v : Viewport) (view : View) : View :=
  let s :=
    match m with
    | Vite => {| width := innerWidth v; height := innerHeight v;
                 pixelRatio := pixelRatio (sizes view) |}
    | Webflow => {| width := orElse (clientWidth v) (innerWidth v);
                    height := orElse (clientHeight v) (innerHeight v);
                    pixelRatio := pixelRatio (sizes view) |}
    end in
  {| sizes := s;
     aspect := ratio (width s) (height s);
     rendererSize := (width s, height s);
     rendererPixelRatio := rendererPixelRatio view |}.

(** ** Materials of the loaded model (script.js, lines 316-337) *)

(** The material a scene node refers to: the one it came with, or one of
    the two material objects the script creates once and shares. *)
Inductive MaterialRef :=
| LoadedMaterial
| Material            (* [material] *)
| SlicedMaterial.     (* [slicedMaterial] *)

Record Object3D := {
  isMesh : bool;
  name : string;
  childMaterial : MaterialRef;         (* child.material *)
  customDepthMaterial : bool;          (* set to slicedDepthMaterial *)
  vertexNormalsComputed : bool;
  castShadow : bool;
  receiveShadow : bool
}.

(** How often [color.convertSRGBToLinear()] has been applied to the
    colour of each shared material. *)
Record SharedColors := {
  materialConversions : nat;
  slicedMaterialConversions : nat
}.

Definition convertSRGBToLinear (m : MaterialRef) (c : SharedColors)
  : SharedColors :=
  match m with
  | Material =>
      {| materialConversions := S (materialConversions c);
         slicedMaterialConversions := slicedMaterialConversions c |}
  | SlicedMaterial =>
      {| materialConversions := materialConversions c;
         slicedMaterialConversions := S (slicedMaterialConversions c) |}
  | LoadedMaterial => c
  end.

(** The callback passed to [model.traverse]. *)
Definition visitChild (child : Object3D) (c : SharedColors)
  : Object3D * SharedColors :=
  if isMesh child then
    let hull := String.eqb (name child) "outerHull" in
    let m := if hull then SlicedMaterial else Material in
    ({| isMesh := isMesh child;
        name := name child;
        childMaterial := m;
        customDepthMaterial := if hull then true else customDepthMaterial child;
        vertexNormalsComputed := true;
        castShadow := if CONFIG.ENABLE_SHADOWS then true else castShadow child;
        receiveShadow :=
          if CONFIG.ENABLE_SHADOWS then true else receiveShadow child |},
     convertSRGBToLinear m c)
  else (child, c).

(** [model.traverse(callback)] over the nodes in the order it visits them. *)
Fixpoint traverse (nodes : list Object3D) (c : SharedColors)
  : list Object3D * SharedColors :=
  match nodes with
  | [] => ([], c)
  | child :: rest =>
      let '(child', c1) := visitChild child c in
      let '(rest', c2) := traverse rest c1 in
      (child' :: rest', c2)
  end.

(** ** Cursor of the canvas (script.js, lines 527-560) *)

(** [canvas.style.cursor] after the canvas listener of [e] has run. *)
Definition cursorAfter (e : Event) (cursor : string) : string :=
  match e with
  | MouseDown button => if (button =? 0)%Z then "grabbing" else cursor
  | MouseUp | MouseLeave | TouchEnd | TouchCancel => "grab"
  | TouchStart => "grabbing"
  | _ => cursor
  end.

Fixpoint runCursor (es : list (Q * Event)) (cursor : string) : string :=
  match es with
  | [] => cursor
  | (_, e) :: rest => runCursor rest (cursorAfter e cursor)
  end.

(** ** Clean-up (script.js, lines 193-201 and 666-677) *)

Inductive Disposal :=
| ObserverDisconnect
| RendererDispose
| ControlsDispose.

(** [VisibilityManager.destroy()]; the observer exists in Webflow mode. *)
Definition destroy (w : World) : World * list Disposal :=
  (match pauseTimeout (visibilityManager w) with
   | Some id => clearTimeout (Some id) w
   | None => w
   end,
   match mode w with Webflow => [ObserverDisconnect] | Vite => [] end).

(** The [beforeunload] listener. *)
Definition cleanup (w : World) : World * list Disposal :=
  let '(w, disposed) := destroy w in
  let w := match animationFrameId w with
           | Some id => cancelAnimationFrame id w
           | None => w
           end in
  (emit (LoggerInfo "Resources cleaned up") w,
   disposed ++ [RendererDispose; ControlsDispose]).

(** ** Procedural normal map (script.js, lines 243-265) *)

(** Storing a number into a [Uint8ClampedArray]: rounded to the nearest
    integer, ties to even, and clamped to [0, 255]. *)
Definition roundHalfEven (x : Q) : Z :=
  let f := Qfloor x in
  let d := x - inject_Z f in
  if Qltb d 0.5 then f
  else if Qltb 0.5 d then (f + 1)%Z
  else if Z.even f then f else (f + 1)%Z.

Definition toUint8Clamped (x : Q) : Z :=
  roundHalfEven (Qmin (Qmax x 0) 255).

(** One pass of the loop body, given the two values [Math.random()]
    returns in it. *)
Definition noisePixel (random1 random2 : Q) : Z * Z * Z * Z :=
  let noise := random1 * 20 + 128 in
  (toUint8Clamped noise, toUint8Clamped noise,
   toUint8Clamped (128 + random2 * 10), toUint8Clamped 255).

(** The loop over [pixels] pixels; [random k] is the value of the [k]-th
    call of [Math.random()], [calls] the number of calls made so far. *)
Fixpoint noisePixels (pixels : nat) (random : nat -> Q) (calls : nat)
  : list (Z * Z * Z * Z) :=
  match pixels with
  | O => []
  | S rest =>
      noisePixel (random calls) (random (S calls))
      :: noisePixels rest random (S (S calls))
  end.

(** [createMetalNormalMap]: the pixels of the 512 x 512 canvas behind the
    texture. *)
Definition createMetalNormalMap (random : nat -> Q) : list (Z * Z * Z * Z) :=
  noisePixels (512 * 512) random 0.
From Stdlib Require Import PrimFloat.
Set Warnings "-inexact-float".

(** * The motion-blur block in binary64 arithmetic

    JavaScript numbers are IEEE-754 doubles. The world above holds them as
    exact rationals; where the value of a computation to the last bit
    matters, the motion-blur block of [tick] (script.js, lines 583-585
    and 616-627) is embedded a second time, over primitive binary64
    floats, operation for operation. *)

Module Double.

Definition velocitySmoothing : float := 0.9%float.

(** [motionSettings.intensity] *)
Definition intensity : float := 5.0%float.

(** [Math.max] and [Math.min] of two numbers: [NaN] if either is, and
    [-0] counts as smaller than [+0]. *)
Definition Math_max (x y : float) : float :=
  if (PrimFloat.is_nan x || PrimFloat.is_nan y)%bool then PrimFloat.nan
  else if (x <? y)%float then y
  else if (y <? x)%float then x
  else match PrimFloat.classify x with
       | FloatClass.NZero => y
       | _ => x
       end.

Definition Math_min (x y : float) : float :=
  if (PrimFloat.is_nan x || PrimFloat.is_nan y)%bool then PrimFloat.nan
  else if (x <? y)%float then x
  else if (y <? x)%float then y
  else match PrimFloat.classify y with
       | FloatClass.NZero => y
       | _ => x
       end.

Record Blur := {
  blurPrevious : float;     (* previousRotation *)
  blurSmoothed : float;     (* smoothedVelocity *)
  blurUniform : float       (* uniforms.uAngularVelocity.value *)
}.

Definition rawVelocityOf (delta currentRotation previous : float) : float :=
  (PrimFloat.abs (currentRotation - previous) / Math_max delta 0.001)%float.

(** Body of [if (motionSettings.enabled) { ... }]. *)
Definition motionBlurBlock (delta currentRotation : float) (s : Blur) : Blur :=
  let rawVelocity := rawVelocityOf delta currentRotation (blurPrevious s) in
  let smoothed := (blurSmoothed s * velocitySmoothing
                   + rawVelocity * (1 - velocitySmoothing))%float in
  let normalizedVelocity := Math_min (smoothed * intensity)%float 1.0%float in
  {| blurPrevious := currentRotation;
     blurSmoothed := smoothed;
     blurUniform :=
       if (0.01 <? PrimFloat.abs (blurUniform s - normalizedVelocity))%float
       then normalizedVelocity else blurUniform s |}.

(** The values at start-up (lines 583-584 and the uniform's 0.0). *)
Definition blur0 : Blur :=
  {| blurPrevious := 0%float; blurSmoothed := 0%float;
     blurUniform := 0%float |}.

(** The block run over a sequence of frames, each given by its delta and
    the model angle the block reads. *)
Fixpoint blurTrace (frames : list (float * float)) (s : Blur) : list Blur :=
  match frames with
  | [] => []
  | (delta, angle) :: rest =>
      let s' := motionBlurBlock delta angle s in s' :: blurTrace rest s'
  end.

(** Raw velocities the block computes along the same sequence. *)
Fixpoint rawTrace (frames : list (float * float)) (s : Blur) : list float :=
  match frames with
  | [] => []
  | (delta, angle) :: rest =>
      rawVelocityOf delta angle (blurPrevious s)
      :: rawTrace rest (motionBlurBlock delta angle s)
  end.

(** The recurrence in the specification's words,
    [smoothed = smoothed*0.9 + rawVelocity*weight], in binary64; the
    specification's weight is 0.1. *)
Fixpoint specEma (weight s : float) (raws : list float) : list float :=
  match raws with
  | [] => []
  | raw :: rest =>
      let s' := (s * 0.9 + raw * weight)%float in s' :: specEma weight s' rest
  end.

(** The weight the code gives the raw velocity: the double [1 - 0.9]. *)
Definition rawWeight : float := 0.09999999999999998%float.

(** Scenario D: frames one second apart whose raw velocities are
    0, 0, 1, 1, 1, and the smoothed velocities the block computes. *)
Definition scenarioD : list (float * float) :=
  [(1, 0); (1, 0); (1, 1); (1, 2); (1, 3)]%float.

Definition scenarioD_raw : list float := [0; 0; 1; 1; 1]%float.

Definition scenarioD_smoothed : list float :=
  [0; 0; 0.09999999999999998; 0.18999999999999995; 0.2709999999999999]%float.

End Double.

(** ** Predicates used in the statements *)

Definition BlurOk (s : Blur) : Prop :=
  0 <= blurSmoothed s /\ 0 <= blurUniform s <= 1.

(** Invariant of the reachable states, without the link between
    visibility and rendering, which the observer callback breaks and
    restores within one call. *)
Record Core (w : World) : Prop := {
  core_time : 0 <= transitionStartTime w <= performance_now w;
  core_unit : 0 <= rotationSpeedMultiplier w <= 1;
  core_interacting : userInteracting w = true -> autoRotate w = false;
  core_stopped : autoRotate w = false -> rotationSpeedMultiplier w == 0;
  core_resume :
    forall id tm, timers (browser w) !! id = Some tm ->
      callback tm = ResumeCallback ->
      resumeTimeout w = Some id /\ userInteracting w = false
      /\ autoRotate w = false;
  core_pause :
    forall id tm, timers (browser w) !! id = Some tm ->
      callback tm = PauseCallback ->
      pauseTimeout (visibilityManager w) = Some id
      /\ isVisible (visibilityManager w) = false;
  core_frames :
    forall i, i ∈ frames (browser w) ->
      animationFrameId w = Some i /\ isRendering w = true;
  core_clock : Clock.running (clock w) = isRendering w;
  core_blur : BlurOk (blurOf w)
}.

Definition Inv (w : World) : Prop :=
  Core w /\ (isVisible (visibilityManager w) = true -> isRendering w = true).

(** No timer with callback [k] is pending. *)
Definition noTimer (k : TimerCallback) (w : World) : Prop :=
  forall id tm, timers (browser w) !! id = Some tm -> callback tm <> k.

(** Effects by which the render loop is stopped: the pause log line and
    the cancellation of a frame callback. *)
Definition stops (e : Effect) : bool :=
  match e with
  | LoggerInfo message =>
      String.eqb message "Rendering paused (saving resources)"
  | CancelAnimationFrame _ => true
  | _ => false
  end.

(** While no pause timer is due before [D], the loop keeps running and
    the stopping effects emitted so far stay [seen]. *)
Record Quiet (D : Q) (seen : list Effect) (w : World) : Prop := {
  quiet_due :
    forall id tm, timers (browser w) !! id = Some tm ->
      callback tm = PauseCallback -> D <= deadline tm;
  quiet_rendering : isRendering w = true;
  quiet_clock : Clock.running (clock w) = true;
  quiet_out : List.filter stops (out (browser w)) = seen
}.

(** The motion-blur block run over a sequence of frames, each given by
    its delta and the model angle the block reads. *)
Definition blur0 : Blur :=
  {| blurPrevious := 0; blurSmoothed := 0; blurUniform := 0.0 |}.

Fixpoint blurTrace (frames : list (Q * Q)) (s : Blur) : list Blur :=
  match frames with
  | [] => []
  | (delta, angle) :: rest =>
      let s' := motionBlurBlock delta angle s in s' :: blurTrace rest s'
  end.

(** The shading rule as the specification words it. *)
Definition specEase (x : Q) : Q := x * x * (3 - 2 * x).

Definition specAlpha (sliceArc v a : Q) : Q :=
  let epsilon := 0.020 + 0.025 * v in
  let edgeWidth := 0.015 + 0.020 * v in
  let alphaLow := specEase (smoothstep epsilon (epsilon + edgeWidth) a) in
  let alphaHigh := specEase (smoothstep (sliceArc - edgeWidth) sliceArc a) in
  1 - alphaLow * (1 - alphaHigh).

Definition isEvent (e : Effect) : bool :=
  match e with DispatchEvent _ => true | _ => false end.

(** The specification's reading of a failed draw: [tick] returns to its
    caller instead of throwing, schedules no frame, and what it emits
    contains exactly one dispatched event. *)
Definition surfacesDrawFailure (w : World) : Prop :=
  exists w' emitted,
    tick w = Normal w'
    /\ frames (browser w') = frames (browser w)
    /\ out (browser w') = out (browser w) ++ emitted
    /\ length (List.filter isEvent emitted) = 1%nat.

(** The state in which [handleVisibilityChange(true)] calls [tick()]. *)
Definition resumed (w : World) : World :=
  emit (LoggerInfo "Rendering resumed")
    (set_clock (Clock.start (performance_now w) (clock w))
       (set_isRendering true w)).

(** The world reached from a default start-up (Webflow mode, time 0,
    working renderer) by the events [es]; used for concrete instances. *)
Definition after (es : list (Q * Event)) : World :=
  match run es (boot Webflow 0 false) with
  | Some w => w
  | None => boot Webflow 0 false
  end.

(** A resume timer is pending. *)
Definition resumeScheduled (w : World) : Prop :=
  exists id tm,
    resumeTimeout w = Some id /\ timers (browser w) !! id = Some tm
    /\ callback tm = ResumeCallback.

(** Timer handles are never reused, each handle variable names a timer of
    its own kind, and rotation is switched off without an interaction
    only while a resume timer is pending. *)
Record Handles (w : World) : Prop := {
  handles_fresh :
    forall id tm, timers (browser w) !! id = Some tm ->
      (id < nextTimerId (browser w))%positive;
  handles_resume :
    forall id, resumeTimeout w = Some id ->
      (id < nextTimerId (browser w))%positive
      /\ forall tm, timers (browser w) !! id = Some tm ->
           callback tm = ResumeCallback;
  handles_pause :
    forall id, pauseTimeout (visibilityManager w) = Some id ->
      (id < nextTimerId (browser w))%positive
      /\ forall tm, timers (browser w) !! id = Some tm ->
           callback tm = PauseCallback;
  handles_scheduled :
    userInteracting w = false -> autoRotate w = false -> resumeScheduled w
}.

(** The part of the state [Handles] speaks about. *)
Definition handleView (w : World)
  : gmap positive Timer * positive * option positive * option positive
    * bool * bool :=
  (timers (browser w), nextTimerId (browser w), resumeTimeout w,
   pauseTimeout (visibilityManager w), userInteracting w, autoRotate w).

(** ** Predicates used in the further properties *)

(** A pending pause timer finds the loop rendering. *)
Definition PauseArmed (w : World) : Prop :=
  forall id tm, timers (browser w) !! id = Some tm ->
    callback tm = PauseCallback -> isRendering w = true.

(** Rotation is off and no resume timer is due before [D]. *)
Record Resting (D : Q) (w : World) : Prop := {
  resting_off : autoRotate w = false;
  resting_due :
    forall id tm, timers (browser w) !! id = Some tm ->
      callback tm = ResumeCallback -> D <= deadline tm
}.

(** The frame clock was last read in the past. *)
Definition ClockOk (w : World) : Prop :=
  Clock.oldTime (clock w) <= performance_now w.

(** The rotation variables a pause and a restart of the loop leave alone. *)
Definition rotationView (w : World)
  : bool * bool * option positive * Q * bool * bool :=
  (autoRotate w, userInteracting w, resumeTimeout w, transitionStartTime w,
   isMouseDown w, isTouching w).

(** The angles of two model references agree. *)
Definition sameAngle (m1 m2 : option Q) : Prop :=
  match m1, m2 with
  | Some y1, Some y2 => y1 == y2
  | None, None => True
  | _, _ => False
  end.

(** What one tick emits. *)
Definition tickEffects (w : World) : list Effect :=
  [ControlsUpdate; RendererRender]
  ++ (if contextLost (browser w) then []
      else [RequestAnimationFrame (nextFrameId (browser w))]).

(** Effects by which a frame is drawn or requested. *)
Definition draws (e : Effect) : bool :=
  match e with
  | RendererRender | RequestAnimationFrame _ => true
  | _ => false
  end.

(** Meshes that take the shared plain material, and meshes that take the
    shared sliced material. *)
Definition plainMesh (child : Object3D) : bool :=
  isMesh child && negb (String.eqb (name child) "outerHull").

Definition hullMesh (child : Object3D) : bool :=
  isMesh child && String.eqb (name child) "outerHull".

(** No frame callback and no pause timer is pending, and the drawing
    effects emitted so far are [seen]. *)
Record Dead (seen : list Effect) (w : World) : Prop := {
  dead_frames : frames (browser w) = ∅;
  dead_pause : noTimer PauseCallback w;
  dead_out : List.filter draws (out (browser w)) = seen
}.

(** * Properties *)

(** ** Numbers *)

Lemma Qltb_true a b : Qltb a b = true <-> a < b.
Proof.
  unfold Qltb. rewrite negb_true_iff, <- not_true_iff_false, Qle_bool_iff.
  split; [apply Qnot_le_lt | apply Qlt_not_le].
Qed.

Lemma Qltb_false a b : Qltb a b = false <-> b <= a.
Proof. unfold Qltb. rewrite negb_false_iff. apply Qle_bool_iff. Qed.

Lemma easePower2Out_unit t : 0 <= t <= 1 -> 0 <= easePower2Out t <= 1.
Proof. unfold easePower2Out. intros [H0 H1]. split; nra. Qed.

Lemma Qmin_unit x : 0 <= x -> 0 <= Qmin x 1.0 <= 1.
Proof.
  intros Hx. split; [apply Q.min_glb; [exact Hx | lra] | ].
  apply Qle_trans with 1.0; [apply Q.le_min_r | lra].
Qed.

Lemma progress_nonneg elapsed : 0 <= elapsed -> 0 <= elapsed / 1200.
Proof.
  intros H. unfold Qdiv. apply Qmult_le_0_compat; [exact H | ].
  apply Qlt_le_weak, Qinv_lt_0_compat. reflexivity.
Qed.

Lemma Qmax_floor delta : 0 < Qmax delta 0.001.
Proof.
  apply Qlt_le_trans with 0.001; [reflexivity | apply Q.le_max_r].
Qed.

Lemma rawVelocityOf_nonneg delta y p : 0 <= rawVelocityOf delta y p.
Proof.
  unfold rawVelocityOf, Qdiv. apply Qmult_le_0_compat; [apply Qabs_nonneg | ].
  apply Qlt_le_weak, Qinv_lt_0_compat, Qmax_floor.
Qed.

(** ** The motion-blur block keeps its values in range *)

Lemma motionBlurBlock_ok delta y s :
  BlurOk s -> BlurOk (motionBlurBlock delta y s).
Proof.
  intros [Hs Hu]. unfold BlurOk, motionBlurBlock; cbn.
  pose proof (rawVelocityOf_nonneg delta y (blurPrevious s)) as Hr.
  set (r := rawVelocityOf delta y (blurPrevious s)) in *.
  assert (Hsm : 0 <= blurSmoothed s * velocitySmoothing
                     + r * (1 - velocitySmoothing)).
  { unfold velocitySmoothing. nra. }
  split; [exact Hsm | ].
  destruct (Qltb _ _); [ | exact Hu].
  apply Qmin_unit. unfold motionSettings; cbn. nra.
Qed.

(** ** Every handler preserves the invariant *)

Lemma Core_advance t w : performance_now w <= t -> Core w -> Core (advance t w).
Proof.
  intros Ht [[H0 H1] ? ? ? ? ? ? ? ?]. constructor; cbn; try assumption.
  unfold performance_now in *. split; [assumption | lra].
Qed.

Lemma Core_emit e w : Core w -> Core (emit e w).
Proof. intros []. constructor; assumption. Qed.

Lemma Core_rotationTransition w : Core w -> Core (rotationTransition w).
Proof.
  intros H. unfold rotationTransition.
  destruct (autoRotate w) eqn:Ha; cbn; [ | exact H].
  destruct (Qltb _ _); [ | exact H].
  destruct H as [[H0 H1] ? ? ? Hr ? ? ? ?].
  constructor; cbn; try assumption; try congruence.
  - split; assumption.
  - apply easePower2Out_unit, Qmin_unit, progress_nonneg. lra.
Qed.

Lemma Core_autoRotateStep delta y w : Core w -> Core (autoRotateStep delta y w).
Proof.
  intros H. unfold autoRotateStep. case_match; [ | exact H].
  destruct H. constructor; assumption.
Qed.

Lemma Core_motionBlur delta w : Core w -> Core (motionBlur delta w).
Proof.
  intros H. unfold motionBlur. repeat case_match; try exact H.
  destruct H as [? ? ? ? ? ? ? ? Hb]. constructor; try assumption.
  exact (motionBlurBlock_ok delta _ (blurOf w) Hb).
Qed.

Lemma Core_updateModel delta w : Core w -> Core (updateModel delta w).
Proof.
  intros H. unfold updateModel. case_match; [ | exact H].
  apply Core_motionBlur, Core_autoRotateStep, Core_rotationTransition, H.
Qed.

Lemma lookup_cleared (h : option positive) (m : gmap positive Timer) i tm :
  match h with Some id => delete id m | None => m end !! i = Some tm ->
  m !! i = Some tm /\ h <> Some i.
Proof.
  destruct h as [id | ]; [ | intros H; split; [exact H | discriminate]].
  rewrite lookup_delete_Some. intros [Hne H]. split; [exact H | congruence].
Qed.

Lemma updateModel_frame delta w :
  let w' := updateModel delta w in
  browser w' = browser w /\ visibilityManager w' = visibilityManager w
  /\ isRendering w' = isRendering w
  /\ animationFrameId w' = animationFrameId w
  /\ clock w' = clock w /\ userInteracting w' = userInteracting w
  /\ autoRotate w' = autoRotate w.
Proof.
  unfold updateModel, motionBlur, autoRotateStep, rotationTransition.
  repeat case_match; cbn; repeat split; reflexivity.
Qed.

Lemma Clock_getDelta_running now c :
  Clock.running c = true -> Clock.running (snd (Clock.getDelta now c)) = true.
Proof.
  intros H. unfold Clock.getDelta. rewrite H. cbn.
  rewrite andb_false_r. reflexivity.
Qed.

Lemma tick_frame w :
  isRendering (world_of (tick w)) = isRendering w
  /\ visibilityManager (world_of (tick w)) = visibilityManager w.
Proof.
  unfold tick. destruct (isRendering w) eqn:Hr; cbn; [ | auto].
  destruct (updateModel_frame (tickDelta w)
              (set_clock (snd (Clock.getDelta (performance_now w) (clock w))) w))
    as (Hb & Hv & Hi & _).
  unfold render; cbn. rewrite Hb; cbn.
  destruct (contextLost (browser w)); cbn; rewrite Hv, Hi; cbn; auto.
Qed.

Lemma Core_tick w :
  Core w -> frames (browser w) = ∅ -> Core (world_of (tick w)).
Proof.
  intros H Hf. unfold tick. destruct (isRendering w) eqn:Hr; cbn; [ | exact H].
  set (w1 := set_clock _ w).
  assert (H1 : Core w1).
  { destruct H as [? ? ? ? ? ? ? Hc ?]. constructor; try assumption.
    cbn. rewrite Hr. apply Clock_getDelta_running. congruence. }
  pose proof (Core_updateModel (tickDelta w) w1 H1) as H2.
  destruct (updateModel_frame (tickDelta w) w1) as (Hb & _ & Hi & _).
  set (w2 := updateModel (tickDelta w) w1) in *.
  unfold render; cbn. rewrite Hb; cbn.
  destruct (contextLost (browser w)); cbn.
  - apply Core_emit, Core_emit, H2.
  - destruct H2 as [? ? ? ? ? ? ? ? ?].
    constructor; cbn; try assumption. rewrite Hb, Hi; cbn. rewrite Hf, Hr.
    intros i [Hin%elem_of_singleton | Hin%elem_of_empty]%elem_of_union;
      [subst i; auto | contradiction].
Qed.

Lemma Core_resumeLoop w :
  Core w -> Core (world_of (handleVisibilityChange true w)).
Proof.
  intros H. unfold handleVisibilityChange.
  destruct (isRendering w) eqn:Hr; cbn [andb negb]; [exact H | ].
  apply Core_tick; cbn.
  - destruct H as [? ? ? ? ? ? Hf ? ?]. constructor; cbn; try assumption.
    + intros i Hi. destruct (Hf i Hi). split; congruence.
    + reflexivity.
  - destruct H as [? ? ? ? ? ? Hf ? ?].
    apply leibniz_equiv, elem_of_equiv_empty. intros i Hi.
    destruct (Hf i Hi). congruence.
Qed.

Lemma Core_pauseLoop w :
  Core w -> Core (world_of (handleVisibilityChange false w)).
Proof.
  intros H. unfold handleVisibilityChange.
  destruct (isRendering w) eqn:Hr; cbn; [ | exact H].
  destruct H as [? ? ? ? ? ? Hf ? ?].
  destruct (animationFrameId w) as [fid | ] eqn:Hid; cbn;
    (constructor; cbn; try assumption; [ | reflexivity]).
  - intros i Hi. apply elem_of_difference in Hi as [Hi Hne].
    destruct (Hf i Hi) as [Heq _].
    apply not_elem_of_singleton in Hne. congruence.
  - intros i Hi. destruct (Hf i Hi). congruence.
Qed.

Lemma handleVisibilityChange_rendering w :
  isRendering (world_of (handleVisibilityChange true w)) = true
  /\ visibilityManager (world_of (handleVisibilityChange true w))
     = visibilityManager w.
Proof.
  unfold handleVisibilityChange.
  destruct (isRendering w) eqn:Hr; cbn [andb negb]; [auto | ].
  match goal with |- context [tick ?x] => destruct (tick_frame x) as [-> ->] end.
  cbn. auto.
Qed.

Lemma Core_takeTimer id w : Core w -> Core (takeTimer id w).
Proof.
  intros [? ? ? ? Hr Hp ? ? ?]. constructor; cbn; try assumption.
  - intros i tm [_ Hl]%lookup_delete_Some. eauto.
  - intros i tm [_ Hl]%lookup_delete_Some. eauto.
Qed.

Lemma Core_resumeRotation w :
  userInteracting w = true -> Core w -> Core (resumeRotation w).
Proof.
  intros Hu [? ? Hi ? Hr Hp ? ? ?]. pose proof (Hi Hu) as Ha.
  unfold resumeRotation; cbn. constructor; cbn; try assumption; try discriminate.
  - intros i tm [[<- <-] | [Hne Hl]]%lookup_insert_Some Hc; [auto | ].
    apply lookup_cleared in Hl as [Hl Hno].
    destruct (Hr i tm Hl Hc) as [? _]. contradiction.
  - intros i tm [[<- <-] | [Hne Hl]]%lookup_insert_Some Hc; [discriminate | ].
    apply lookup_cleared in Hl as [Hl _]. eauto.
Qed.

Lemma Core_resumeCallback id tm w :
  timers (browser w) !! id = Some tm -> callback tm = ResumeCallback ->
  Core w -> Core (resumeCallback (takeTimer id w)).
Proof.
  intros Hl Hc H. pose proof (Core_takeTimer id w H) as H'.
  destruct H as [_ _ _ _ Hr _ _ _ _].
  destruct (Hr id tm Hl Hc) as (Hid & Hu & _).
  unfold resumeCallback. cbn [userInteracting takeTimer set_browser].
  rewrite Hu. cbn [negb rotationSettings smoothTransition].
  destruct H' as [[H0 H1] ? ? ? _ ? ? ? ?].
  constructor; cbn; try assumption; try discriminate.
  - unfold performance_now in *; cbn in *. split; lra.
  - lra.
  - congruence.
  - intros i tm' [Hne Hl']%lookup_delete_Some Hc'.
    destruct (Hr i tm' Hl' Hc') as [? _]. congruence.
Qed.

Lemma Core_onControlsStart w : Core w -> Core (onControlsStart w).
Proof.
  intros H. unfold onControlsStart.
  destruct (isMouseDown w || isTouching w); [ | exact H].
  destruct H as [? ? ? ? Hr Hp ? ? ?].
  cbn. constructor; cbn; try assumption; try reflexivity.
  - lra.
  - intros i tm [Hl Hno]%lookup_cleared Hc.
    destruct (Hr i tm Hl Hc) as [? _]. contradiction.
  - intros i tm [Hl _]%lookup_cleared Hc. eauto.
Qed.

Lemma Core_onMouseLeave w : Core w -> Core (onMouseLeave w).
Proof.
  intros H. unfold onMouseLeave.
  assert (H' : Core (set_isMouseDown false w))
    by (destruct H; constructor; assumption).
  change (userInteracting (set_isMouseDown false w)) with (userInteracting w).
  destruct (userInteracting w) eqn:Hu; [ | exact H'].
  apply Core_resumeRotation; [exact Hu | exact H'].
Qed.

Lemma Core_onControlsEnd w : Core w -> Core (onControlsEnd w).
Proof.
  intros H. unfold onControlsEnd.
  destruct (userInteracting w) eqn:Hu; [ | exact H].
  apply Core_resumeRotation; assumption.
Qed.

Lemma clearPauseTimeout_frame v w :
  let w' := clearPauseTimeout (set_vm v (pauseTimeout (visibilityManager w)) w) in
  visibilityManager w' = {| isVisible := v; pauseTimeout := None |}
  /\ isRendering w' = isRendering w.
Proof.
  unfold clearPauseTimeout; cbn.
  destruct (pauseTimeout (visibilityManager w)); cbn; auto.
Qed.

Lemma Core_clearPauseTimeout v w :
  Core w ->
  Core (clearPauseTimeout (set_vm v (pauseTimeout (visibilityManager w)) w)).
Proof.
  intros [? ? ? ? Hr Hp ? ? ?]. unfold clearPauseTimeout; cbn.
  destruct (pauseTimeout (visibilityManager w)) as [pid | ] eqn:Hpid;
    constructor; cbn; try assumption.
  - intros i tm [_ Hl]%lookup_delete_Some. eauto.
  - intros i tm [Hne Hl]%lookup_delete_Some Hc.
    destruct (Hp i tm Hl Hc) as [? _]. congruence.
  - intros i tm Hl Hc. destruct (Hp i tm Hl Hc) as [? _]. congruence.
Qed.

Lemma Inv_observeEntry entry w : Inv w -> Inv (world_of (observeEntry entry w)).
Proof.
  intros [H Hv]. unfold observeEntry.
  pose proof (Core_clearPauseTimeout entry w H) as H2.
  destruct (clearPauseTimeout_frame entry w) as [Hvm Hir].
  set (w2 := clearPauseTimeout _) in *. rewrite Hvm. cbn [isVisible].
  destruct entry, (isVisible (visibilityManager w)) eqn:Hwas; cbn [andb negb].
  - cbn. split; [exact H2 | intros _; rewrite Hir; auto].
  - split; [apply Core_resumeLoop, Core_emit, H2 | intros _].
    apply handleVisibilityChange_rendering.
  - cbn. rewrite Hvm. cbn. split; [ | discriminate].
    destruct H2 as [? ? ? ? Hr Hp ? ? ?]. constructor; cbn; try assumption.
    + intros i tm [[<- <-] | [Hne Hl]]%lookup_insert_Some Hc;
        [discriminate | eauto].
    + intros i tm [[<- <-] | [Hne Hl]]%lookup_insert_Some Hc; [auto | ].
      destruct (Hp i tm Hl Hc) as [Hs _]. rewrite Hvm in Hs. discriminate.
  - cbn. split; [exact H2 | rewrite Hvm; discriminate].
Qed.

Lemma Inv_observerCallback entries w :
  Inv w -> Inv (world_of (observerCallback entries w)).
Proof.
  revert w. induction entries as [ | entry rest IH]; intros w H; [exact H | ].
  cbn. pose proof (Inv_observeEntry entry w H) as H1.
  destruct (observeEntry entry w) as [w1 | w1]; cbn in *; auto.
Qed.

Lemma Inv_dispatch e w c :
  Inv w -> dispatch e w = Some c -> Inv (world_of c).
Proof.
  intros [H Hv] He. destruct e; unfold dispatch in He.
  - injection He as <-. unfold onMouseDown. case_match; [ | split; assumption].
    split; [destruct H; constructor; assumption | exact Hv].
  - injection He as <-. split; [destruct H; constructor; assumption | exact Hv].
  - injection He as <-. split; [apply Core_onMouseLeave, H | ].
    unfold onMouseLeave, resumeRotation. case_match; exact Hv.
  - injection He as <-. split; [destruct H; constructor; assumption | exact Hv].
  - injection He as <-. split; [destruct H; constructor; assumption | exact Hv].
  - injection He as <-. split; [destruct H; constructor; assumption | exact Hv].
  - injection He as <-. split; [apply Core_onControlsStart, H | ].
    unfold onControlsStart. case_match; exact Hv.
  - injection He as <-. split; [apply Core_onControlsEnd, H | ].
    unfold onControlsEnd, resumeRotation. case_match; exact Hv.
  - destruct (mode w); [ | discriminate]. injection He as <-.
    apply Inv_observerCallback. split; assumption.
  - destruct (timers (browser w) !! id) as [tm | ] eqn:Hl; [ | discriminate].
    destruct (Qle_bool _ _); [ | discriminate].
    destruct (callback tm) eqn:Hc; injection He as <-.
    + split; [eapply Core_resumeCallback; eassumption | ].
      unfold resumeCallback. case_match; exact Hv.
    + destruct (core_pause w H id tm Hl Hc) as [_ Hhid].
      unfold pauseCallback.
      split; [apply Core_pauseLoop, Core_takeTimer, H | ].
      unfold handleVisibilityChange; cbn.
      case_match; cbn; [ | congruence].
      case_match; cbn; congruence.
  - case_decide as Hin; [ | discriminate]. injection He as <-.
    destruct (core_frames w H id Hin) as [Hid Hr].
    assert (H' : Core (takeFrame id w)).
    { destruct H as [? ? ? ? ? ? Hf ? ?]. constructor; cbn; try assumption.
      intros i [Hi _]%elem_of_difference. auto. }
    split.
    + apply Core_tick; [exact H' | ]. cbn.
      apply leibniz_equiv, elem_of_equiv_empty.
      intros i [Hi Hne%not_elem_of_singleton]%elem_of_difference.
      destruct (core_frames w H i Hi). congruence.
    + destruct (tick_frame (takeFrame id w)) as [-> ->]. exact Hv.
  - destruct (loaderPending (browser w)); [ | discriminate]. injection He as <-.
    split; [destruct H; constructor; assumption | exact Hv].
  - destruct (loaderPending (browser w)); [ | discriminate]. injection He as <-.
    split; [destruct H; constructor; assumption | exact Hv].
  - injection He as <-.
    split; [destruct H; constructor; assumption | exact Hv].
Qed.

Lemma Inv_step t e w w' : Inv w -> step t e w = Some w' -> Inv w'.
Proof.
  intros [H Hv]. unfold step.
  destruct (Qle_bool (performance_now w) t) eqn:Ht; [ | discriminate].
  apply Qle_bool_iff in Ht.
  destruct (dispatch e (advance t w)) as [c | ] eqn:He; [ | discriminate].
  cbn. intros [= <-]. eapply Inv_dispatch; [ | exact He].
  split; [apply Core_advance; assumption | exact Hv].
Qed.

Lemma Inv_run es : forall w w', Inv w -> run es w = Some w' -> Inv w'.
Proof.
  induction es as [ | [t e] rest IH]; intros w w' H; cbn.
  - intros [= <-]. exact H.
  - destruct (step t e w) as [w1 | ] eqn:Hs; [ | discriminate].
    apply IH. eapply Inv_step; eassumption.
Qed.

Lemma Inv_boot m t0 lost : 0 <= t0 -> Inv (boot m t0 lost).
Proof.
  intros Ht. unfold boot, tick, render; cbn.
  destruct lost; cbn; (split; [ | reflexivity]);
    constructor; cbn; try discriminate; try reflexivity.
  all: try (split; [lra | assumption || lra]).
  all: try (unfold BlurOk; cbn; split; [lra | split; lra]).
  intros i [Hi%elem_of_singleton | Hi%elem_of_empty]%elem_of_union;
    [subst i; auto | contradiction].
Qed.

Lemma reachable_Inv w : reachable w -> Inv w.
Proof.
  intros (m & t0 & lost & es & Ht & Hrun).
  eapply Inv_run; [apply Inv_boot, Ht | exact Hrun].
Qed.

(** ** Timer handles *)

Lemma Handles_view w w' : handleView w' = handleView w -> Handles w -> Handles w'.
Proof.
  unfold handleView. intros [= Ht Hn Hr Hp Hu Ha] [Hf Hrs Hps Hs].
  constructor; rewrite ?Ht, ?Hn, ?Hr, ?Hp, ?Hu, ?Ha; try assumption.
  intros H1 H2. destruct (Hs H1 H2) as (id & tm & ? & ? & ?).
  exists id, tm. rewrite Hr, Ht. auto.
Qed.

Lemma updateModel_view delta w : handleView (updateModel delta w) = handleView w.
Proof.
  unfold updateModel, motionBlur, autoRotateStep, rotationTransition.
  repeat case_match; reflexivity.
Qed.

Lemma tick_view w : handleView (world_of (tick w)) = handleView w.
Proof.
  unfold tick. destruct (isRendering w); [ | reflexivity]. cbn.
  set (w1 := set_clock _ w).
  pose proof (updateModel_view (tickDelta w) w1) as Hv.
  destruct (updateModel_frame (tickDelta w) w1) as (Hb & _).
  unfold render; cbn. rewrite Hb; cbn.
  destruct (contextLost (browser w)); cbn; exact Hv.
Qed.

Lemma handleVisibilityChange_view visible w :
  handleView (world_of (handleVisibilityChange visible w)) = handleView w.
Proof.
  unfold handleVisibilityChange.
  destruct visible, (isRendering w); cbn [andb negb]; try reflexivity.
  - rewrite tick_view. reflexivity.
  - cbn. destruct (animationFrameId w); reflexivity.
Qed.

Lemma Handles_resumeRotation w : Handles w -> Handles (resumeRotation w).
Proof.
  intros [Hf Hr Hp Hs]. unfold resumeRotation; cbn.
  constructor; cbn.
  - intros i tm [[<- <-] | [Hne Hl]]%lookup_insert_Some; [lia | ].
    apply lookup_cleared in Hl as [Hl _]. specialize (Hf i tm Hl). lia.
  - intros i [= <-]. split; [lia | ].
    intros tm. rewrite lookup_insert_eq. intros [= <-]. reflexivity.
  - intros i Hi. destruct (Hp i Hi) as [Hlt Hk]. split; [lia | ].
    intros tm [[Heq _] | [_ Hl]]%lookup_insert_Some; [subst i; lia | ].
    apply lookup_cleared in Hl as [Hl _]. eauto.
  - intros _ _. eexists _, _. cbn. split; [reflexivity | ].
    rewrite lookup_insert_eq. split; reflexivity.
Qed.

Lemma Handles_onControlsStart w : Handles w -> Handles (onControlsStart w).
Proof.
  intros H. unfold onControlsStart. case_match; [ | exact H].
  destruct H as [Hf Hr Hp Hs]. cbn. constructor; cbn; try discriminate.
  - intros i tm [Hl _]%lookup_cleared. eauto.
  - intros i Hi. destruct (Hr i Hi) as [Hlt Hk]. split; [exact Hlt | ].
    intros tm [Hl _]%lookup_cleared. eauto.
  - intros i Hi. destruct (Hp i Hi) as [Hlt Hk]. split; [exact Hlt | ].
    intros tm [Hl _]%lookup_cleared. eauto.
Qed.

Lemma Handles_resumeCallback id w :
  Handles w -> Handles (resumeCallback (takeTimer id w)).
Proof.
  intros [Hf Hr Hp Hs]. unfold resumeCallback.
  change (userInteracting (takeTimer id w)) with (userInteracting w).
  assert (Hdel : forall i tm,
             delete id (timers (browser w)) !! i = Some tm ->
             timers (browser w) !! i = Some tm)
    by (intros i tm [_ Hl]%lookup_delete_Some; exact Hl).
  destruct (userInteracting w) eqn:Hu; cbn;
    (constructor; cbn; [eauto | | | congruence]).
  all: intros i Hi;
    first [destruct (Hr i Hi) as [Hlt Hk] | destruct (Hp i Hi) as [Hlt Hk]];
    split; eauto.
Qed.

Lemma Handles_takePause id tm w :
  timers (browser w) !! id = Some tm -> callback tm = PauseCallback ->
  Handles w -> Handles (takeTimer id w).
Proof.
  intros Hl Hc [Hf Hr Hp Hs]. constructor; cbn.
  - intros i tm' [_ Hl']%lookup_delete_Some. eauto.
  - intros i Hi. destruct (Hr i Hi) as [Hlt Hk]. split; [exact Hlt | ].
    intros tm' [_ Hl']%lookup_delete_Some. eauto.
  - intros i Hi. destruct (Hp i Hi) as [Hlt Hk]. split; [exact Hlt | ].
    intros tm' [_ Hl']%lookup_delete_Some. eauto.
  - intros H1 H2. destruct (Hs H1 H2) as (r & tmr & Hrt & Hlr & Hcr).
    exists r, tmr. split; [exact Hrt | split; [ | exact Hcr]].
    apply lookup_delete_Some. split; [ | exact Hlr]. congruence.
Qed.

Lemma Handles_observeEntry entry w :
  Handles w -> Handles (world_of (observeEntry entry w)).
Proof.
  intros H. unfold observeEntry. set (w2 := clearPauseTimeout _).
  assert (H2 : Handles w2
               /\ pauseTimeout (visibilityManager w2) = None).
  { destruct H as [Hf Hr Hp Hs]. subst w2. unfold clearPauseTimeout; cbn.
    destruct (pauseTimeout (visibilityManager w)) as [pid | ] eqn:Hpid;
      cbn; (split; [ | reflexivity]); constructor; cbn;
      try assumption; try discriminate.
    - intros i tm [_ Hl]%lookup_delete_Some. eauto.
    - intros i Hi. destruct (Hr i Hi) as [Hlt Hk]. split; [exact Hlt | ].
      intros tm [_ Hl]%lookup_delete_Some. eauto.
    - intros H1 H2. destruct (Hs H1 H2) as (r & tmr & Hrt & Hlr & Hcr).
      exists r, tmr. split; [exact Hrt | split; [ | exact Hcr]].
      apply lookup_delete_Some. split; [ | exact Hlr].
      intros ->. destruct (Hp r eq_refl) as [_ Hk].
      rewrite (Hk tmr Hlr) in Hcr. discriminate. }
  destruct H2 as [H2 Hnone].
  destruct (isVisible (visibilityManager w2) && negb _).
  - eapply Handles_view; [apply handleVisibilityChange_view | ].
    eapply Handles_view; [ | exact H2]. reflexivity.
  - destruct (negb _ && _); [ | exact H2]. cbn.
    destruct H2 as [Hf Hr Hp Hs]. constructor; cbn.
    + intros i tm [[<- <-] | [Hne Hl]]%lookup_insert_Some; [lia | ].
      specialize (Hf i tm Hl). lia.
    + intros i Hi. destruct (Hr i Hi) as [Hlt Hk]. split; [lia | ].
      intros tm [[Heq _] | [_ Hl]]%lookup_insert_Some; [subst i; lia | eauto].
    + intros i [= <-]. split; [lia | ].
      intros tm. rewrite lookup_insert_eq. intros [= <-]. reflexivity.
    + intros H1 H2'. destruct (Hs H1 H2') as (r & tmr & Hrt & Hlr & Hcr).
      exists r, tmr. split; [exact Hrt | split; [ | exact Hcr]].
      apply lookup_insert_Some. right. split; [ | exact Hlr].
      specialize (Hf r tmr Hlr). lia.
Qed.

Lemma Handles_observerCallback entries : forall w,
  Handles w -> Handles (world_of (observerCallback entries w)).
Proof.
  induction entries as [ | entry rest IH]; intros w H; [exact H | ].
  cbn. pose proof (Handles_observeEntry entry w H) as H1.
  destruct (observeEntry entry w) as [w1 | w1]; cbn in *; auto.
Qed.

Lemma Handles_dispatch e w c :
  Handles w -> dispatch e w = Some c -> Handles (world_of c).
Proof.
  intros H He. destruct e; unfold dispatch in He.
  - injection He as <-. unfold onMouseDown. case_match; [ | exact H].
    eapply Handles_view; [ | exact H]. reflexivity.
  - injection He as <-. eapply Handles_view; [ | exact H]. reflexivity.
  - injection He as <-. unfold onMouseLeave.
    assert (H' : Handles (set_isMouseDown false w))
      by (eapply Handles_view; [ | exact H]; reflexivity).
    case_match; [apply Handles_resumeRotation, H' | exact H'].
  - injection He as <-. eapply Handles_view; [ | exact H]. reflexivity.
  - injection He as <-. eapply Handles_view; [ | exact H]. reflexivity.
  - injection He as <-. eapply Handles_view; [ | exact H]. reflexivity.
  - injection He as <-. apply Handles_onControlsStart, H.
  - injection He as <-. unfold onControlsEnd.
    case_match; [apply Handles_resumeRotation, H | exact H].
  - destruct (mode w); [ | discriminate]. injection He as <-.
    apply Handles_observerCallback, H.
  - destruct (timers (browser w) !! id) as [tm | ] eqn:Hl; [ | discriminate].
    destruct (Qle_bool _ _); [ | discriminate].
    destruct (callback tm) eqn:Hc; injection He as <-.
    + apply Handles_resumeCallback, H.
    + unfold pauseCallback.
      eapply Handles_view; [apply handleVisibilityChange_view | ].
      eapply Handles_takePause; eassumption.
  - case_decide; [ | discriminate]. injection He as <-.
    eapply Handles_view; [apply tick_view | ].
    eapply Handles_view; [ | exact H]. reflexivity.
  - destruct (loaderPending (browser w)); [ | discriminate].
    injection He as <-. eapply Handles_view; [ | exact H]. reflexivity.
  - destruct (loaderPending (browser w)); [ | discriminate].
    injection He as <-. eapply Handles_view; [ | exact H]. reflexivity.
  - injection He as <-. eapply Handles_view; [ | exact H]. reflexivity.
Qed.

Lemma Handles_run es : forall w w', Handles w -> run es w = Some w' -> Handles w'.
Proof.
  induction es as [ | [t e] rest IH]; intros w w' H; cbn.
  - intros [= <-]. exact H.
  - destruct (step t e w) as [w1 | ] eqn:Hs; [ | discriminate].
    apply IH. unfold step in Hs. destruct (Qle_bool _ _); [ | discriminate].
    apply fmap_Some in Hs as (c & Hd & ->).
    eapply Handles_dispatch; [ | exact Hd].
    eapply Handles_view; [ | exact H]. reflexivity.
Qed.

Lemma reachable_Handles w : reachable w -> Handles w.
Proof.
  intros (m & t0 & lost & es & _ & Hrun).
  eapply Handles_run; [ | exact Hrun]. unfold boot.
  eapply Handles_view; [apply tick_view | ].
  constructor; cbn; discriminate.
Qed.

(** The reading of ResumeScheduled is the specification's: in a reachable
    state, rotation is off without an interaction exactly when a resume
    timer is pending, and at most one such timer is pending. *)
Lemma resume_scheduled_iff w :
  reachable w -> (rotationState w = ResumeScheduled <-> resumeScheduled w).
Proof.
  intros Hreach. pose proof (reachable_Inv w Hreach) as [Hc _].
  pose proof (reachable_Handles w Hreach) as Hh. unfold rotationState. split.
  - destruct (userInteracting w) eqn:Hu; [discriminate | ].
    destruct (autoRotate w) eqn:Ha; cbn; [case_match; discriminate | ].
    intros _. apply (handles_scheduled w Hh Hu Ha).
  - intros (id & tm & _ & Hl & Hk).
    destruct (core_resume w Hc id tm Hl Hk) as (_ & -> & ->). reflexivity.
Qed.

Lemma one_resume_timer w id1 tm1 id2 tm2 :
  reachable w ->
  timers (browser w) !! id1 = Some tm1 -> callback tm1 = ResumeCallback ->
  timers (browser w) !! id2 = Some tm2 -> callback tm2 = ResumeCallback ->
  id1 = id2.
Proof.
  intros [Hc _]%reachable_Inv Hl1 Hk1 Hl2 Hk2.
  destruct (core_resume w Hc id1 tm1 Hl1 Hk1) as [H1 _].
  destruct (core_resume w Hc id2 tm2 Hl2 Hk2) as [H2 _]. congruence.
Qed.

(** ** The tick *)

Lemma tick_rendering w :
  isRendering w = true ->
  tick w =
    render (emit ControlsUpdate
              (updateModel (tickDelta w)
                 (set_clock (snd (Clock.getDelta (performance_now w) (clock w))) w)))
    >>= fun w =>
        let '(id, w) := requestAnimationFrame w in
        Normal (set_animationFrameId (Some id) w).
Proof. intros H. unfold tick. rewrite H. reflexivity. Qed.

(** What [tick] does to the motion-blur values: nothing when it returns
    at once or no model is loaded, else one run of the block on the delta
    and the angle of this tick. *)
Lemma tick_blur w :
  blurOf (world_of (tick w)) =
    if isRendering w then
      match model (world_of (tick w)) with
      | Some y' => motionBlurBlock (tickDelta w) y' (blurOf w)
      | None => blurOf w
      end
    else blurOf w.
Proof.
  unfold tick. destruct (isRendering w) eqn:Hr; cbn; [ | reflexivity].
  unfold render, updateModel, motionBlur, autoRotateStep, rotationTransition.
  cbn. repeat case_match; simplify_eq/=; reflexivity.
Qed.

(** ** C3: a failing draw call *)

(** C3, as stated, fails: when the draw call of the very first tick
    throws, [tick] does not return normally, so the failure is thrown to
    the caller and not reported by an event. *)
Lemma draw_failure_not_surfaced :
  ~ surfacesDrawFailure (init Webflow 0 true).
Proof. intros (w' & emitted & Htick & _). discriminate Htick. Qed.

(** C3, amended: if the draw call inside a tick throws, the exception
    leaves [tick] towards its caller; that tick requests no animation
    frame, emits nothing besides the controls update and the single draw
    attempt (no event, no log line, no second draw), and leaves
    [isRendering] set. *)
Theorem draw_failure_stops_loop w :
  isRendering w = true -> contextLost (browser w) = true ->
  exists w',
    tick w = Throw w'
    /\ frames (browser w') = frames (browser w)
    /\ nextFrameId (browser w') = nextFrameId (browser w)
    /\ out (browser w') = out (browser w) ++ [ControlsUpdate; RendererRender]
    /\ animationFrameId w' = animationFrameId w
    /\ isRendering w' = true.
Proof.
  intros Hr Hlost. rewrite (tick_rendering w Hr).
  set (w1 := set_clock _ w).
  destruct (updateModel_frame (tickDelta w) w1) as (Hb & _ & Hi & Hid & _).
  unfold render. cbn. rewrite Hb. cbn. rewrite Hlost. cbn.
  eexists. split; [reflexivity | ]. cbn. rewrite Hb, Hi, Hid. cbn.
  rewrite <- app_assoc. auto.
Qed.

Lemma draw_failure_stops_loop_witness :
  isRendering (init Webflow 0 true) = true
  /\ contextLost (browser (init Webflow 0 true)) = true
  /\ exists w',
       tick (init Webflow 0 true) = Throw w'
       /\ frames (browser w') = frames (browser (init Webflow 0 true))
       /\ nextFrameId (browser w') = nextFrameId (browser (init Webflow 0 true))
       /\ out (browser w')
          = out (browser (init Webflow 0 true)) ++ [ControlsUpdate; RendererRender]
       /\ animationFrameId w' = animationFrameId (init Webflow 0 true)
       /\ isRendering w' = true.
Proof.
  split; [reflexivity | split; [reflexivity | ]].
  apply (draw_failure_stops_loop (init Webflow 0 true)); reflexivity.
Defined.

(** After a frame callback whose draw call throws, no frame callback is
    pending: nothing will run [tick] again until the visibility handler
    restarts the loop. *)
Lemma failed_frame_leaves_no_frame w t id w' :
  reachable w -> contextLost (browser w) = true ->
  step t (AnimationFrame id) w = Some w' ->
  frames (browser w') = ∅.
Proof.
  intros [H _]%reachable_Inv Hlost. unfold step.
  destruct (Qle_bool _ _); [ | discriminate].
  intros (c & Hd & ->)%fmap_Some. unfold dispatch in Hd.
  case_decide as Hin; [ | discriminate]. injection Hd as <-.
  destruct (core_frames w H id Hin) as [Hid Hr].
  destruct (draw_failure_stops_loop (takeFrame id (advance t w)))
    as (w1 & Ht & Hf & _); [exact Hr | exact Hlost | ].
  rewrite Ht. cbn [world_of]. rewrite Hf.
  cbn. apply leibniz_equiv, elem_of_equiv_empty.
  intros i [Hi Hne%not_elem_of_singleton]%elem_of_difference.
  destruct (core_frames w H i Hi). congruence.
Qed.

(** A tick keeps a loaded model loaded. *)
Lemma tick_rotation_advance_model w y :
  isRendering w = true -> model w = Some y ->
  exists y', model (world_of (tick w)) = Some y'.
Proof.
  intros Hr Hm. rewrite (tick_rendering w Hr).
  unfold render, updateModel, motionBlur, autoRotateStep, rotationTransition.
  cbn. rewrite Hm. repeat case_match; simplify_eq/=; eauto.
Qed.

(** ** C4: rotation advance per tick *)

(** C4: in a tick with a loaded model the angle grows by
    [speed * multiplier * delta] in AutoRotating and Transitioning and is
    unchanged in Interacting and ResumeScheduled; in Transitioning the
    multiplier used is [p * (2 - p)] for
    [p = min ((now - transitionStartTime) / transitionDuration) 1]. *)
Theorem tick_rotation_advance w y :
  isRendering w = true -> model w = Some y ->
  let w' := world_of (tick w) in
  let delta := tickDelta w in
  let baseSpeed := speed rotationSettings in
  match rotationState w with
  | AutoRotating =>
      rotationSpeedMultiplier w' = rotationSpeedMultiplier w
      /\ model w' = Some (y + baseSpeed * rotationSpeedMultiplier w * delta)
  | Transitioning =>
      let elapsed := performance_now w - transitionStartTime w in
      let p := Qmin (elapsed / transitionDuration rotationSettings) 1.0 in
      rotationSpeedMultiplier w' = p * (2 - p)
      /\ model w' = Some (y + baseSpeed * (p * (2 - p)) * delta)
  | Interacting | ResumeScheduled => model w' = Some y
  end.
Proof.
  intros Hr Hm. cbn zeta. rewrite (tick_rendering w Hr).
  unfold rotationState, render, updateModel, motionBlur, autoRotateStep,
    rotationTransition.
  destruct (userInteracting w) eqn:Hu, (autoRotate w) eqn:Ha,
    (Qltb (rotationSpeedMultiplier w) 1.0) eqn:Hq,
    (contextLost (browser w)) eqn:Hl;
    repeat (cbn; rewrite ?Hu, ?Ha, ?Hq, ?Hl, ?Hm); auto.
Qed.

Lemma tick_rotation_advance_witness :
  let w := advance 1400
             (after [(10, ModelLoaded 0); (20, MouseDown 0); (21, ControlsStart);
                     (100, ControlsEnd); (800, TimerFired 1)]) in
  isRendering w = true /\ model w = Some 0
  /\ rotationState w = Transitioning
  /\ match rotationState w with
     | AutoRotating =>
         rotationSpeedMultiplier (world_of (tick w)) = rotationSpeedMultiplier w
         /\ model (world_of (tick w))
            = Some (0 + speed rotationSettings * rotationSpeedMultiplier w
                        * tickDelta w)
     | Transitioning =>
         let elapsed := performance_now w - transitionStartTime w in
         let p := Qmin (elapsed / transitionDuration rotationSettings) 1.0 in
         rotationSpeedMultiplier (world_of (tick w)) = p * (2 - p)
         /\ model (world_of (tick w))
            = Some (0 + speed rotationSettings * (p * (2 - p)) * tickDelta w)
     | Interacting | ResumeScheduled => model (world_of (tick w)) = Some 0
     end.
Proof.
  intros w. split; [reflexivity | split; [reflexivity | split; [reflexivity | ]]].
  apply (tick_rotation_advance w 0); reflexivity.
Defined.

(** ** C10: ticks before the model is loaded *)

(** C10, as stated, fails: at start-up with a drawing context that is
    lost, the first tick runs before the model is loaded, updates the
    controls and attempts its one draw, but the draw throws and the tick
    does not reschedule itself: no frame callback is pending afterwards
    and none was requested. *)
Lemma tick_before_model_not_rescheduled :
  let w := init Webflow 0 true in
  let w' := world_of (tick w) in
  isRendering w = true /\ model w = None
  /\ out (browser w') = [ControlsUpdate; RendererRender]
  /\ frames (browser w') = ∅
  /\ animationFrameId w' = None.
Proof. cbn zeta. repeat split; vm_compute; reflexivity. Qed.

(** C10, amended: a tick that runs while [model] is still [null] leaves
    the model, the previous-rotation tracker, the smoothed velocity, the
    uniforms and the speed multiplier untouched; it updates the controls
    and issues one draw; it reschedules itself exactly when the draw
    call returns: then it requests one frame, which is pending
    afterwards, and if the draw throws it requests none. *)
Theorem tick_before_model_ready w :
  isRendering w = true -> model w = None ->
  let w' := world_of (tick w) in
  let id := nextFrameId (browser w) in
  model w' = None
  /\ previousRotation w' = previousRotation w
  /\ smoothedVelocity w' = smoothedVelocity w
  /\ uniforms w' = uniforms w
  /\ rotationSpeedMultiplier w' = rotationSpeedMultiplier w
  /\ out (browser w')
     = out (browser w) ++ [ControlsUpdate; RendererRender]
       ++ (if contextLost (browser w) then [] else [RequestAnimationFrame id])
  /\ (contextLost (browser w) = false ->
      tick w = Normal w' /\ frames (browser w') = {[id]} ∪ frames (browser w)
      /\ animationFrameId w' = Some id).
Proof.
  intros Hr Hm. cbn zeta. rewrite (tick_rendering w Hr).
  unfold render, updateModel. cbn. rewrite Hm. cbn.
  destruct (contextLost (browser w)); cbn;
    rewrite <- ?app_assoc; repeat split; auto; discriminate.
Qed.

Lemma tick_before_model_ready_witness :
  let w := advance 16 (takeFrame 1 (boot Webflow 0 false)) in
  let w' := world_of (tick w) in
  let id := nextFrameId (browser w) in
  isRendering w = true /\ model w = None
  /\ model w' = None
  /\ previousRotation w' = previousRotation w
  /\ smoothedVelocity w' = smoothedVelocity w
  /\ uniforms w' = uniforms w
  /\ rotationSpeedMultiplier w' = rotationSpeedMultiplier w
  /\ out (browser w')
     = out (browser w) ++ [ControlsUpdate; RendererRender]
       ++ (if contextLost (browser w) then [] else [RequestAnimationFrame id])
  /\ (contextLost (browser w) = false ->
      tick w = Normal w' /\ frames (browser w') = {[id]} ∪ frames (browser w)
      /\ animationFrameId w' = Some id).
Proof.
  intros w w' id. split; [reflexivity | split; [reflexivity | ]].
  apply (tick_before_model_ready w); reflexivity.
Defined.

(** Every tick the event loop runs finds [isRendering] set: a pending
    frame callback implies it. *)
Lemma pending_frame_rendering w id :
  reachable w -> id ∈ frames (browser w) -> isRendering w = true.
Proof.
  intros [H _]%reachable_Inv Hin. apply (core_frames w H id Hin).
Qed.

(** ** C5: range of the speed multiplier *)

(** C5: in every reachable state the speed multiplier lies in [0,1], it
    is zero in Interacting and in ResumeScheduled, and so it is nonzero
    only in AutoRotating or Transitioning. *)
Theorem speed_multiplier_invariant w :
  reachable w ->
  0 <= rotationSpeedMultiplier w <= 1
  /\ (rotationState w = Interacting \/ rotationState w = ResumeScheduled ->
      rotationSpeedMultiplier w == 0)
  /\ (~ rotationSpeedMultiplier w == 0 ->
      rotationState w = AutoRotating \/ rotationState w = Transitioning).
Proof.
  intros [[_ Hunit Hi Hs _ _ _ _ _] _]%reachable_Inv.
  split; [exact Hunit | ]. unfold rotationState.
  destruct (userInteracting w) eqn:Hu.
  - split; [intros _; auto | intros Hn; exfalso; auto].
  - destruct (autoRotate w) eqn:Ha; cbn.
    + destruct (Qltb _ _);
        (split; [intros [? | ?]; discriminate | intros _; auto]).
    + split; [intros _; auto | intros Hn; exfalso; auto].
Qed.

Lemma after_reachable es : is_Some (run es (boot Webflow 0 false)) ->
  reachable (after es).
Proof.
  intros [w Hw]. exists Webflow, 0, false, es. split; [discriminate | ].
  unfold after. rewrite Hw. reflexivity.
Qed.

Lemma speed_multiplier_invariant_witness :
  let w := after [(10, ModelLoaded 0); (20, MouseDown 0); (21, ControlsStart);
                  (100, ControlsEnd); (800, TimerFired 1);
                  (1400, AnimationFrame 1)] in
  reachable w
  /\ 0 <= rotationSpeedMultiplier w <= 1
  /\ (rotationState w = Interacting \/ rotationState w = ResumeScheduled ->
      rotationSpeedMultiplier w == 0)
  /\ (~ rotationSpeedMultiplier w == 0 ->
      rotationState w = AutoRotating \/ rotationState w = Transitioning).
Proof.
  intros w.
  assert (H : reachable w) by (apply after_reachable; vm_compute; eauto).
  split; [exact H | apply (speed_multiplier_invariant w H)].
Defined.

(** ** C1: an honored interaction start cancels the resume timer *)

Lemma interacting_noTimer w :
  Core w -> userInteracting w = true -> noTimer ResumeCallback w.
Proof.
  intros H Hu id tm Hl Hc. destruct (core_resume w H id tm Hl Hc) as (_ & ? & _).
  congruence.
Qed.

(** C1: a start signal delivered while the mouse is pressed or a touch is
    active removes the timer whose handle [resumeTimeout] holds, after
    which no resume timer is pending; and in every later state in which
    the interaction is still going on, no resume timer is pending,
    rotation is switched off, and the resume callback, were it to run,
    would change nothing. *)
Theorem start_cancels_resume_timer w t w1 :
  reachable w ->
  isMouseDown w || isTouching w = true ->
  step t ControlsStart w = Some w1 ->
  userInteracting w1 = true
  /\ timers (browser w1)
     = match resumeTimeout w with
       | Some id => delete id (timers (browser w))
       | None => timers (browser w)
       end
  /\ noTimer ResumeCallback w1
  /\ forall es w2,
       run es w1 = Some w2 -> userInteracting w2 = true ->
       noTimer ResumeCallback w2
       /\ autoRotate w2 = false
       /\ rotationState w2 = Interacting
       /\ resumeCallback w2 = w2.
Proof.
  intros Hreach Hpress Hstep.
  pose proof (Inv_step t _ w w1 (reachable_Inv w Hreach) Hstep) as Hinv1.
  unfold step in Hstep. destruct (Qle_bool _ _); [ | discriminate].
  cbn [dispatch fmap option_fmap option_map world_of] in Hstep.
  injection Hstep as <-. unfold onControlsStart in *.
  change (isMouseDown (advance t w)) with (isMouseDown w) in *.
  change (isTouching (advance t w)) with (isTouching w) in *.
  rewrite Hpress in *. cbn in Hinv1 |- *.
  split; [reflexivity | split; [reflexivity | split]].
  - apply interacting_noTimer; [apply Hinv1 | reflexivity].
  - intros es w2 Hrun Hu.
    destruct (Inv_run es _ w2 Hinv1 Hrun) as [H2 _].
    split; [apply interacting_noTimer; assumption | ].
    split; [apply (core_interacting w2 H2 Hu) | ].
    unfold rotationState, resumeCallback. rewrite Hu. auto.
Qed.

Lemma start_cancels_resume_timer_witness :
  let w := after [(10, MouseDown 0); (11, ControlsStart); (100, ControlsEnd)] in
  let w1 := onControlsStart (advance 300 w) in
  reachable w
  /\ isMouseDown w || isTouching w = true
  /\ step 300 ControlsStart w = Some w1
  /\ timers (browser w) !! 1%positive
     = Some {| deadline := 100 + 700; callback := ResumeCallback |}
  /\ userInteracting w1 = true
  /\ timers (browser w1)
     = match resumeTimeout w with
       | Some id => delete id (timers (browser w))
       | None => timers (browser w)
       end
  /\ noTimer ResumeCallback w1
  /\ forall es w2,
       run es w1 = Some w2 -> userInteracting w2 = true ->
       noTimer ResumeCallback w2
       /\ autoRotate w2 = false
       /\ rotationState w2 = Interacting
       /\ resumeCallback w2 = w2.
Proof.
  intros w w1.
  assert (H : reachable w) by (apply after_reachable; vm_compute; eauto).
  split; [exact H | ]. split; [reflexivity | ]. split; [reflexivity | ].
  split; [reflexivity | ].
  apply (start_cancels_resume_timer w 300 w1 H); reflexivity.
Defined.

(** ** C6: the angular-velocity uniform stays in [0,1] *)

Lemma blurTrace_ok frames : forall s,
  BlurOk s -> Forall BlurOk (blurTrace frames s).
Proof.
  induction frames as [ | [delta angle] rest IH]; intros s Hs; cbn.
  - constructor.
  - pose proof (motionBlurBlock_ok delta angle s Hs) as Hs'.
    constructor; [exact Hs' | apply IH, Hs'].
Qed.

(** C6: the uniform starts at 0; after every frame of any sequence of
    deltas and model angles fed to the motion-blur block it lies in
    [0,1]; and it lies in [0,1] in every reachable state. *)
Theorem angular_velocity_uniform_bounded :
  (forall m t0 lost, blurOf (init m t0 lost) = blur0)
  /\ (forall frames : list (Q * Q),
        Forall (fun s => 0 <= blurUniform s <= 1) (blurTrace frames blur0))
  /\ (forall w, reachable w -> 0 <= uAngularVelocity (uniforms w) <= 1).
Proof.
  split; [reflexivity | split].
  - intros frames. eapply Forall_impl; [ | apply (blurTrace_ok frames blur0)].
    + intros s [_ Hu]. exact Hu.
    + unfold BlurOk, blur0; cbn. split; [lra | split; lra].
  - intros w [[_ _ _ _ _ _ _ _ [_ Hu]] _]%reachable_Inv. exact Hu.
Qed.

Lemma angular_velocity_uniform_bounded_witness :
  let w := after [(10, ModelLoaded 0); (16, AnimationFrame 1);
                  (32, AnimationFrame 2); (48, AnimationFrame 3)] in
  reachable w
  /\ uAngularVelocity (uniforms w) == 0.1355
  /\ 0 <= uAngularVelocity (uniforms w) <= 1.
Proof.
  intros w.
  assert (H : reachable w) by (apply after_reachable; vm_compute; eauto).
  split; [exact H | split; [reflexivity | ]].
  apply (proj2 (proj2 angular_velocity_uniform_bounded) w H).
Defined.

(** ** C9: the fragment shader's alpha *)

Lemma smoothstep_comp e0 e0' e1 e1' x :
  e0 == e0' -> e1 == e1' -> smoothstep e0 e1 x == smoothstep e0' e1' x.
Proof.
  intros H0 H1. unfold smoothstep, clamp. rewrite H0, H1. reflexivity.
Qed.

Lemma fragmentAlpha_spec u a :
  fragmentAlpha u a == specAlpha (uSliceArc u) (uAngularVelocity u) a.
Proof.
  unfold fragmentAlpha, specAlpha, specEase.
  set (v := uAngularVelocity u). set (arc := uSliceArc u).
  assert (HL : smoothstep (0.020 + v * 0.025)
                 (0.020 + v * 0.025 + (0.015 + v * 0.020)) a
               == smoothstep (0.020 + 0.025 * v)
                    (0.020 + 0.025 * v + (0.015 + 0.020 * v)) a)
    by (apply smoothstep_comp; ring).
  assert (HH : smoothstep (arc - (0.015 + v * 0.020)) arc a
               == smoothstep (arc - (0.015 + 0.020 * v)) arc a)
    by (apply smoothstep_comp; ring).
  cbn zeta. rewrite HL, HH. ring.
Qed.

(** C9: for a fragment with wrapped angle [a] the shader's alpha is
    [1 - alphaLow * (1 - alphaHigh)], where [alphaLow] and [alphaHigh] are
    the smoothsteps over [epsilon, epsilon + edgeWidth] and
    [sliceArc - edgeWidth, sliceArc] passed through [x * x * (3 - 2 * x)],
    with [epsilon = 0.020 + 0.025 * v] and [edgeWidth = 0.015 + 0.020 * v];
    the fragment is discarded exactly when that alpha is below 0.01 and
    is otherwise written in white with that alpha. *)
Theorem fragment_alpha_rule u a :
  let alpha := specAlpha (uSliceArc u) (uAngularVelocity u) a in
  fragmentAlpha u a == alpha
  /\ match fragmentMain u a with
     | None => alpha < 0.01
     | Some (r, g, b, drawn) =>
         ~ alpha < 0.01 /\ drawn == alpha /\ r == 1 /\ g == 1 /\ b == 1
     end.
Proof.
  intros alpha. pose proof (fragmentAlpha_spec u a) as H. fold alpha in H.
  split; [exact H | ]. unfold fragmentMain.
  destruct (Qltb (fragmentAlpha u a) 0.01) eqn:Hlt.
  - apply Qltb_true in Hlt. rewrite <- H. exact Hlt.
  - apply Qltb_false in Hlt. rewrite <- H.
    split; [apply Qle_not_lt, Hlt | repeat split; reflexivity].
Qed.

(** ** C2: debounced pausing *)

Lemma Quiet_emit D seen e w :
  stops e = false -> Quiet D seen w -> Quiet D seen (emit e w).
Proof.
  intros He [? ? ? Ho]. constructor; cbn; try assumption.
  rewrite List.filter_app. cbn. rewrite He, app_nil_r. exact Ho.
Qed.

Lemma Quiet_advance D seen t w : Quiet D seen w -> Quiet D seen (advance t w).
Proof. intros []. constructor; assumption. Qed.

Lemma Quiet_takeTimer D seen id w :
  Quiet D seen w -> Quiet D seen (takeTimer id w).
Proof.
  intros [Hd ? ? ?]. constructor; cbn; try assumption.
  intros i tm [_ Hl]%lookup_delete_Some. eauto.
Qed.

Lemma Quiet_tick D seen w : Quiet D seen w -> Quiet D seen (world_of (tick w)).
Proof.
  intros [Hd Hr Hc Ho]. rewrite (tick_rendering w Hr).
  set (w1 := set_clock _ w).
  destruct (updateModel_frame (tickDelta w) w1) as (Hb & _ & Hi & _ & Hck & _).
  unfold render; cbn. rewrite Hb; cbn.
  destruct (contextLost (browser w)); cbn;
    (constructor; cbn; rewrite ?Hb, ?Hi, ?Hck; cbn;
     [exact Hd | exact Hr | apply Clock_getDelta_running, Hc | ]).
  - rewrite <- app_assoc, List.filter_app. cbn. rewrite app_nil_r. exact Ho.
  - rewrite <- !app_assoc, List.filter_app. cbn. rewrite app_nil_r. exact Ho.
Qed.

Lemma handleVisibilityChange_running w :
  isRendering w = true -> handleVisibilityChange true w = Normal w.
Proof. intros H. unfold handleVisibilityChange. rewrite H. reflexivity. Qed.

Lemma Quiet_resumeRotation D seen w :
  Quiet D seen w -> Quiet D seen (resumeRotation w).
Proof.
  intros [Hd ? ? ?]. unfold resumeRotation; cbn.
  constructor; cbn; try assumption.
  intros i tm [[<- <-] | [Hne Hl]]%lookup_insert_Some Hc; [discriminate | ].
  apply lookup_cleared in Hl as [Hl _]. eauto.
Qed.

Lemma Quiet_observeEntry D seen entry w :
  D <= performance_now w + CONFIG.PAUSE_DELAY ->
  Quiet D seen w -> Quiet D seen (world_of (observeEntry entry w)).
Proof.
  intros Hnow H. unfold observeEntry.
  set (w2 := clearPauseTimeout _).
  assert (H2 : Quiet D seen w2).
  { destruct H as [Hd ? ? ?]. subst w2. unfold clearPauseTimeout; cbn.
    destruct (pauseTimeout (visibilityManager w)); constructor; cbn;
      try assumption.
    intros i tm [_ Hl]%lookup_delete_Some. eauto. }
  assert (Hn2 : performance_now w2 = performance_now w).
  { subst w2. unfold clearPauseTimeout; cbn.
    destruct (pauseTimeout (visibilityManager w)); reflexivity. }
  destruct (isVisible (visibilityManager w2) && negb _).
  - rewrite handleVisibilityChange_running; [ | apply H2].
    apply Quiet_emit; [reflexivity | exact H2].
  - destruct (negb _ && _); [ | exact H2]. cbn.
    destruct H2 as [Hd ? ? ?]. constructor; cbn; try assumption.
    + intros i tm [[<- <-] | [Hne Hl]]%lookup_insert_Some Hc; [ | eauto].
      cbn. unfold performance_now in *. rewrite Hn2. exact Hnow.
    + rewrite List.filter_app. cbn. rewrite app_nil_r. assumption.
Qed.

(** Handlers do not move the clock of the browser. *)
Lemma tick_now w : performance_now (world_of (tick w)) = performance_now w.
Proof.
  unfold tick. destruct (isRendering w); [ | reflexivity]. cbn.
  set (w1 := set_clock _ w).
  destruct (updateModel_frame (tickDelta w) w1) as (Hb & _).
  unfold render, performance_now; cbn. rewrite Hb; cbn.
  destruct (contextLost (browser w)); cbn; rewrite Hb; reflexivity.
Qed.

Lemma handleVisibilityChange_now visible w :
  performance_now (world_of (handleVisibilityChange visible w))
  = performance_now w.
Proof.
  unfold handleVisibilityChange.
  destruct visible, (isRendering w); cbn [andb negb]; try reflexivity.
  - rewrite tick_now. reflexivity.
  - cbn. destruct (animationFrameId w); reflexivity.
Qed.

Lemma observeEntry_now entry w :
  performance_now (world_of (observeEntry entry w)) = performance_now w.
Proof.
  unfold observeEntry. set (w2 := clearPauseTimeout _).
  assert (Hn2 : performance_now w2 = performance_now w).
  { subst w2. unfold clearPauseTimeout; cbn.
    destruct (pauseTimeout (visibilityManager w)); reflexivity. }
  destruct (isVisible (visibilityManager w2) && negb _).
  - rewrite handleVisibilityChange_now. exact Hn2.
  - destruct (negb _ && _); [ | exact Hn2]. exact Hn2.
Qed.

Lemma observerCallback_now entries : forall w,
  performance_now (world_of (observerCallback entries w)) = performance_now w.
Proof.
  induction entries as [ | entry rest IH]; intros w; [reflexivity | ].
  cbn. pose proof (observeEntry_now entry w) as H.
  destruct (observeEntry entry w) as [w1 | w1]; cbn in *; [ | exact H].
  rewrite IH. exact H.
Qed.

Lemma dispatch_now e w c :
  dispatch e w = Some c -> performance_now (world_of c) = performance_now w.
Proof.
  intros He. destruct e; unfold dispatch in He.
  - injection He as <-. unfold onMouseDown. case_match; reflexivity.
  - injection He as <-. reflexivity.
  - injection He as <-. unfold onMouseLeave, resumeRotation.
    case_match; reflexivity.
  - injection He as <-. reflexivity.
  - injection He as <-. reflexivity.
  - injection He as <-. reflexivity.
  - injection He as <-. unfold onControlsStart. case_match; reflexivity.
  - injection He as <-. unfold onControlsEnd, resumeRotation.
    case_match; reflexivity.
  - destruct (mode w); [ | discriminate]. injection He as <-.
    apply observerCallback_now.
  - destruct (timers (browser w) !! id) as [tm | ]; [ | discriminate].
    destruct (Qle_bool _ _); [ | discriminate].
    destruct (callback tm); injection He as <-.
    + unfold resumeCallback. case_match; reflexivity.
    + unfold pauseCallback. rewrite handleVisibilityChange_now. reflexivity.
  - case_decide; [ | discriminate]. injection He as <-.
    rewrite tick_now. reflexivity.
  - destruct (loaderPending (browser w)); [ | discriminate].
    injection He as <-. reflexivity.
  - destruct (loaderPending (browser w)); [ | discriminate].
    injection He as <-. reflexivity.
  - injection He as <-. reflexivity.
Qed.

Lemma step_now t e w w' :
  step t e w = Some w' -> performance_now w <= t /\ performance_now w' = t.
Proof.
  unfold step. destruct (Qle_bool (performance_now w) t) eqn:Ht;
    [ | discriminate].
  intros (c & Hd & ->)%fmap_Some. split; [apply Qle_bool_iff, Ht | ].
  rewrite (dispatch_now e _ c Hd). reflexivity.
Qed.

Lemma run_app es1 es2 w w' :
  run (es1 ++ es2) w = Some w' <->
  exists wm, run es1 w = Some wm /\ run es2 wm = Some w'.
Proof.
  revert w. induction es1 as [ | [t e] rest IH]; intros w; cbn.
  - split; [eauto | intros (wm & [= <-] & H); exact H].
  - destruct (step t e w) as [w1 | ]; [apply IH | ].
    split; [discriminate | intros (wm & H & _); discriminate].
Qed.

Lemma run_times es : forall w w',
  run es w = Some w' ->
  performance_now w <= performance_now w'
  /\ Forall (fun te => performance_now w <= fst te <= performance_now w') es.
Proof.
  induction es as [ | [t e] rest IH]; intros w w'; cbn.
  - intros [= <-]. split; [apply Qle_refl | constructor].
  - destruct (step t e w) as [w1 | ] eqn:Hs; [ | discriminate].
    intros Hrun. destruct (step_now t e w w1 Hs) as [Ht Hn].
    destruct (IH w1 w' Hrun) as [Hle Hall]. rewrite Hn in Hle, Hall.
    split; [eapply Qle_trans; eassumption | ].
    constructor; [cbn; split; assumption | ].
    eapply Forall_impl; [ | exact Hall]. cbn. intros [t' e'] [? ?]; cbn in *.
    split; [eapply Qle_trans; eassumption | assumption].
Qed.

Lemma Quiet_observerCallback D seen entries : forall w,
  D <= performance_now w + CONFIG.PAUSE_DELAY ->
  Quiet D seen w -> Quiet D seen (world_of (observerCallback entries w)).
Proof.
  induction entries as [ | entry rest IH]; intros w Hnow H; [exact H | ].
  cbn. pose proof (Quiet_observeEntry D seen entry w Hnow H) as H1.
  pose proof (observeEntry_now entry w) as Hn.
  destruct (observeEntry entry w) as [w1 | w1]; cbn in *; [ | exact H1].
  apply IH; [rewrite Hn; exact Hnow | exact H1].
Qed.

(** With no pause timer due before [D], events before [D] keep the loop
    running. *)
Lemma Quiet_dispatch D seen e w c :
  D <= performance_now w + CONFIG.PAUSE_DELAY -> performance_now w < D ->
  Quiet D seen w -> dispatch e w = Some c -> Quiet D seen (world_of c).
Proof.
  intros Hnow Hlt H He. destruct e; unfold dispatch in He.
  - injection He as <-. unfold onMouseDown. case_match; [ | exact H].
    destruct H; constructor; assumption.
  - injection He as <-. destruct H; constructor; assumption.
  - injection He as <-. unfold onMouseLeave.
    assert (H' : Quiet D seen (set_isMouseDown false w))
      by (destruct H; constructor; assumption).
    case_match; [apply Quiet_resumeRotation, H' | exact H'].
  - injection He as <-. destruct H; constructor; assumption.
  - injection He as <-. destruct H; constructor; assumption.
  - injection He as <-. destruct H; constructor; assumption.
  - injection He as <-. unfold onControlsStart. case_match; [ | exact H].
    destruct H as [Hd ? ? ?]. constructor; cbn; try assumption.
    intros i tm [Hl _]%lookup_cleared. eauto.
  - injection He as <-. unfold onControlsEnd.
    case_match; [apply Quiet_resumeRotation, H | exact H].
  - destruct (mode w); [ | discriminate]. injection He as <-.
    apply Quiet_observerCallback; assumption.
  - destruct (timers (browser w) !! id) as [tm | ] eqn:Hl; [ | discriminate].
    destruct (Qle_bool _ _) eqn:Hdue; [ | discriminate].
    apply Qle_bool_iff in Hdue.
    destruct (callback tm) eqn:Hc; injection He as <-.
    + apply Quiet_takeTimer with (id := id) in H.
      unfold resumeCallback. case_match; [ | exact H].
      destruct H; constructor; assumption.
    + exfalso. pose proof (quiet_due D seen w H id tm Hl Hc). lra.
  - case_decide; [ | discriminate]. injection He as <-.
    apply Quiet_tick. destruct H; constructor; assumption.
  - destruct (loaderPending (browser w)); [ | discriminate].
    injection He as <-. cbn.
    apply Quiet_emit; [reflexivity | apply Quiet_emit; [reflexivity | ]].
    destruct H; constructor; assumption.
  - destruct (loaderPending (browser w)); [ | discriminate].
    injection He as <-. cbn.
    apply Quiet_emit; [reflexivity | apply Quiet_emit; [reflexivity | ]].
    destruct H; constructor; assumption.
  - injection He as <-. destruct H; constructor; assumption.
Qed.

Lemma Quiet_step D seen t e w w' :
  D <= t + CONFIG.PAUSE_DELAY -> t < D ->
  Quiet D seen w -> step t e w = Some w' -> Quiet D seen w'.
Proof.
  intros Hnow Hlt H. unfold step. destruct (Qle_bool _ _); [ | discriminate].
  intros (c & Hd & ->)%fmap_Some.
  eapply Quiet_dispatch; [ | | apply Quiet_advance, H | exact Hd]; assumption.
Qed.

Lemma Quiet_run D seen es : forall w w',
  Forall (fun te => D <= fst te + CONFIG.PAUSE_DELAY /\ fst te < D) es ->
  Quiet D seen w -> run es w = Some w' -> Quiet D seen w'.
Proof.
  induction es as [ | [t e] rest IH]; intros w w' Hall H; cbn.
  - intros [= <-]. exact H.
  - destruct (step t e w) as [w1 | ] eqn:Hs; [ | discriminate].
    inversion Hall as [ | ? ? [Hnow Hlt] Hrest]; subst. cbn in *.
    apply IH; [exact Hrest | ]. eapply Quiet_step; eassumption.
Qed.

Lemma observerCallback_visible w :
  isVisible (visibilityManager (world_of (observerCallback [true] w))) = true.
Proof.
  cbn. unfold observeEntry.
  destruct (clearPauseTimeout_frame true w) as [Hvm _].
  set (w2 := clearPauseTimeout _) in *. rewrite Hvm. cbn [isVisible andb negb].
  destruct (negb (isVisible (visibilityManager w))).
  - match goal with |- context [handleVisibilityChange true ?x] =>
      pose proof (handleVisibilityChange_rendering x) as [_ Hv];
      destruct (handleVisibilityChange true x); cbn in *; rewrite Hv
    end; cbn; rewrite Hvm; reflexivity.
  - cbn. rewrite Hvm. reflexivity.
Qed.

(** C2: from a reachable state in which the widget is visible, let the
    intersection signal go hidden at [t0] and come back at [t1], less
    than [PAUSE_DELAY] later, with any events in between. Then in every
    state along the way the loop is rendering and the clock is running,
    neither the pause log line nor a frame cancellation has been emitted,
    and at the end the widget is visible with no pause timer pending. *)
Theorem debounce_never_pauses w t0 es t1 w' :
  reachable w ->
  isVisible (visibilityManager w) = true ->
  t1 < t0 + CONFIG.PAUSE_DELAY ->
  run ((t0, Intersection [false]) :: es ++ [(t1, Intersection [true])]) w
    = Some w' ->
  (forall pre post wi,
      (t0, Intersection [false]) :: es ++ [(t1, Intersection [true])]
        = pre ++ post ->
      run pre w = Some wi ->
      isRendering wi = true /\ Clock.running (clock wi) = true
      /\ List.filter stops (out (browser wi))
         = List.filter stops (out (browser w)))
  /\ isVisible (visibilityManager w') = true
  /\ noTimer PauseCallback w'.
Proof.
  intros Hreach Hvis Hlt Hrun.
  pose proof (reachable_Inv w Hreach) as [Hcore Hrend].
  set (D := t0 + CONFIG.PAUSE_DELAY) in *.
  set (events := (t0, Intersection [false]) :: es ++ [(t1, Intersection [true])])
    in *.
  assert (Hq : Quiet D (List.filter stops (out (browser w))) w).
  { constructor; [ | auto | rewrite (core_clock w Hcore); auto | reflexivity].
    intros id tm Hl Hc. destruct (core_pause w Hcore id tm Hl Hc). congruence. }
  assert (Hlast : performance_now w' = t1 /\ isVisible (visibilityManager w') = true).
  { change events with (((t0, Intersection [false]) :: es)
                          ++ [(t1, Intersection [true])]) in Hrun.
    apply run_app in Hrun as (wm & _ & Hs). cbn in Hs.
    destruct (step t1 (Intersection [true]) wm) as [w1 | ] eqn:Hs1;
      [ | discriminate].
    injection Hs as <-. split; [apply (step_now _ _ _ _ Hs1) | ].
    unfold step in Hs1. destruct (Qle_bool _ _); [ | discriminate].
    apply fmap_Some in Hs1 as (c & Hd & ->). unfold dispatch in Hd.
    destruct (mode (advance t1 wm)); [ | discriminate]. injection Hd as <-.
    apply observerCallback_visible. }
  destruct Hlast as [Hend Hvis'].
  assert (Hall : Forall (fun te => D <= fst te + CONFIG.PAUSE_DELAY /\ fst te < D)
                   events).
  { subst events. cbn in Hrun.
    destruct (step t0 (Intersection [false]) w) as [wa | ] eqn:Hs;
      [ | discriminate].
    destruct (step_now _ _ _ _ Hs) as [_ Hna].
    destruct (run_times _ _ _ Hrun) as [Hle Hrest].
    rewrite Hna, Hend in Hle, Hrest.
    unfold D, CONFIG.PAUSE_DELAY in *.
    constructor; [cbn; split; lra | ].
    eapply Forall_impl; [ | exact Hrest]. cbn. intros [t e] [? ?]; cbn in *.
    split; lra. }
  split; [ | split; [exact Hvis' | ]].
  - intros pre post wi Hsplit Hpre. rewrite Hsplit in Hall.
    apply Forall_app in Hall as [Hpre_all _].
    destruct (Quiet_run D _ pre w wi Hpre_all Hq Hpre) as [_ ? ? ?]. auto.
  - pose proof (Inv_run events w w' (conj Hcore Hrend) Hrun) as [Hcore' _].
    intros id tm Hl Hc. destruct (core_pause w' Hcore' id tm Hl Hc). congruence.
Qed.

Lemma debounce_never_pauses_witness :
  let w := after [] in
  let es := [(1100, AnimationFrame 1); (1200, MouseDown 0)] in
  let events :=
    (1000, Intersection [false]) :: es ++ [(1300, Intersection [true])] in
  let w' := after events in
  reachable w
  /\ isVisible (visibilityManager w) = true
  /\ 1300 < 1000 + CONFIG.PAUSE_DELAY
  /\ run events w = Some w'
  /\ (forall pre post wi,
        events = pre ++ post ->
        run pre w = Some wi ->
        isRendering wi = true /\ Clock.running (clock wi) = true
        /\ List.filter stops (out (browser wi))
           = List.filter stops (out (browser w)))
  /\ isVisible (visibilityManager w') = true
  /\ noTimer PauseCallback w'.
Proof.
  intros w es events w'.
  assert (H : reachable w) by (apply after_reachable; vm_compute; eauto).
  split; [exact H | ]. split; [vm_compute; reflexivity | ].
  split; [vm_compute; reflexivity | ]. split; [vm_compute; reflexivity | ].
  apply (debounce_never_pauses w 1000 es 1300 w' H); vm_compute; reflexivity.
Defined.

(** ** Scenarios of the specification, run on the embedding *)

(** Scenario B: hidden at 0, visible again at 300: nothing stops. *)
Example scenario_B :
  let w := after [(0, Intersection [false]); (300, Intersection [true])] in
  isRendering w = true /\ List.filter stops (out (browser w)) = []
  /\ timers (browser w) = ∅.
Proof. repeat split; vm_compute; reflexivity. Qed.

(** Scenario C: hidden at 0 and still hidden at 500: the pause timer
    fires, the pending frame is cancelled and the pause is logged once. *)
Example scenario_C :
  let w := after [(0, Intersection [false]); (500, TimerFired 1)] in
  isRendering w = false /\ Clock.running (clock w) = false
  /\ frames (browser w) = ∅
  /\ List.filter stops (out (browser w))
     = [CancelAnimationFrame 1;
        LoggerInfo "Rendering paused (saving resources)"].
Proof. repeat split; vm_compute; reflexivity. Qed.

(** The pause timer cannot fire before its deadline. *)
Example pause_timer_not_due :
  run [(0, Intersection [false]); (499, TimerFired 1)] (boot Webflow 0 false)
  = None.
Proof. vm_compute. reflexivity. Qed.

(** Scenario A: start at 0, end at 100, timer at 800, transition until
    2000. *)
Example scenario_A :
  let press := [(0, ModelLoaded 0); (0, MouseDown 0); (0, ControlsStart)] in
  let release := press ++ [(100, ControlsEnd); (100, MouseUp)] in
  let resume := release ++ [(800, TimerFired 1)] in
  rotationState (after press) = Interacting
  /\ rotationState (after release) = ResumeScheduled
  /\ rotationState (after resume) = Transitioning
  /\ rotationSpeedMultiplier (after (resume ++ [(1400, AnimationFrame 1)]))
     == 0.75
  /\ rotationState (after (resume ++ [(2000, AnimationFrame 1)]))
     = AutoRotating
  /\ rotationSpeedMultiplier (after (resume ++ [(2000, AnimationFrame 1)]))
     == 1.
Proof. repeat split; vm_compute; reflexivity. Qed.

(** The shader at rest ([v = 0]): a fragment on the start edge of the
    slice is drawn opaque, one in the middle of the slice is discarded. *)
Example fragment_samples :
  let u := {| uSliceStart := 1.75; uSliceArc := 1.25; uAngularVelocity := 0 |} in
  fragmentMain u 0.5 = None
  /\ exists drawn, fragmentMain u 0 = Some (1.0, 1.0, 1.0, drawn) /\ drawn == 1.
Proof. split; [vm_compute; reflexivity | eexists; split; vm_compute; reflexivity]. Qed.

(** * Further properties of the control core *)

(** ** The render loop *)

Lemma tick_effects w :
  isRendering w = true ->
  out (browser (world_of (tick w))) = out (browser w) ++ tickEffects w
  /\ frames (browser (world_of (tick w)))
     = (if contextLost (browser w) then frames (browser w)
        else {[nextFrameId (browser w)]} ∪ frames (browser w))
  /\ timers (browser (world_of (tick w))) = timers (browser w)
  /\ Clock.running (clock (world_of (tick w)))
     = Clock.running (snd (Clock.getDelta (performance_now w) (clock w))).
Proof.
  intros Hr. rewrite (tick_rendering w Hr). set (w1 := set_clock _ w).
  destruct (updateModel_frame (tickDelta w) w1) as (Hb & _ & _ & _ & Hck & _).
  unfold render, tickEffects; cbn. rewrite Hb; cbn.
  destruct (contextLost (browser w)); cbn; rewrite ?Hb, ?Hck; cbn;
    rewrite <- ?app_assoc; auto.
Qed.

(** X1: in every reachable state at most one frame callback is pending;
    it is the one whose handle [animationFrameId] holds, and the loop is
    rendering. *)
Theorem one_pending_frame w i j :
  reachable w -> i ∈ frames (browser w) -> j ∈ frames (browser w) ->
  i = j /\ animationFrameId w = Some i /\ isRendering w = true.
Proof.
  intros [H _]%reachable_Inv Hi Hj.
  destruct (core_frames w H i Hi) as [Hai Hr].
  destruct (core_frames w H j Hj) as [Haj _].
  split; [congruence | auto].
Qed.

Lemma one_pending_frame_witness :
  let w := after [(16, AnimationFrame 1); (32, AnimationFrame 2)] in
  reachable w /\ 3%positive ∈ frames (browser w)
  /\ 3%positive = 3%positive /\ animationFrameId w = Some 3%positive
  /\ isRendering w = true.
Proof.
  intros w.
  assert (H : reachable w) by (apply after_reachable; vm_compute; eauto).
  assert (Hin : 3%positive ∈ frames (browser w)) by (vm_compute; set_solver).
  split; [exact H | split; [exact Hin | ]].
  apply (one_pending_frame w 3 3 H Hin Hin).
Defined.

(** X2: while the loop is stopped no tick can run: in a reachable state
    with [isRendering] cleared no frame callback is pending, so the
    browser has no animation frame to deliver. *)
Theorem stopped_loop_runs_no_tick w :
  reachable w -> isRendering w = false ->
  frames (browser w) = ∅
  /\ forall t id, step t (AnimationFrame id) w = None.
Proof.
  intros [H _]%reachable_Inv Hr.
  assert (He : frames (browser w) = ∅).
  { apply leibniz_equiv, elem_of_equiv_empty. intros i Hi.
    destruct (core_frames w H i Hi). congruence. }
  split; [exact He | ]. intros t id. unfold step.
  destruct (Qle_bool _ _); [ | reflexivity]. cbn [dispatch].
  case_decide as Hin; [ | reflexivity]. cbn in Hin. rewrite He in Hin.
  apply elem_of_empty in Hin. contradiction.
Qed.

Lemma stopped_loop_runs_no_tick_witness :
  let w := after [(0, Intersection [false]); (500, TimerFired 1)] in
  reachable w /\ isRendering w = false
  /\ frames (browser w) = ∅
  /\ forall t id, step t (AnimationFrame id) w = None.
Proof.
  intros w.
  assert (H : reachable w) by (apply after_reachable; vm_compute; eauto).
  split; [exact H | split; [vm_compute; reflexivity | ]].
  apply (stopped_loop_runs_no_tick w H). vm_compute. reflexivity.
Defined.

(** ** Pausing and restarting *)

Lemma view_timers w w' :
  handleView w' = handleView w -> timers (browser w') = timers (browser w).
Proof. unfold handleView. intros [= Ht _]. exact Ht. Qed.

(** Only the observer callback creates pause timers. *)
Lemma dispatch_pause_timers e w c :
  (forall entries, e <> Intersection entries) ->
  dispatch e w = Some c ->
  forall id tm, timers (browser (world_of c)) !! id = Some tm ->
    callback tm = PauseCallback -> timers (browser w) !! id = Some tm.
Proof.
  intros Hne He id tm. destruct e; unfold dispatch in He.
  - injection He as <-. unfold onMouseDown. case_match; auto.
  - injection He as <-. auto.
  - injection He as <-. unfold onMouseLeave, resumeRotation.
    case_match; cbn; [ | auto].
    intros [[<- <-] | [_ [Hl _]%lookup_cleared]]%lookup_insert_Some Hc;
      [discriminate | exact Hl].
  - injection He as <-. auto.
  - injection He as <-. auto.
  - injection He as <-. auto.
  - injection He as <-. unfold onControlsStart. case_match; cbn; [ | auto].
    intros [Hl _]%lookup_cleared _. exact Hl.
  - injection He as <-. unfold onControlsEnd, resumeRotation.
    case_match; cbn; [ | auto].
    intros [[<- <-] | [_ [Hl _]%lookup_cleared]]%lookup_insert_Some Hc;
      [discriminate | exact Hl].
  - exfalso. eapply Hne. reflexivity.
  - destruct (timers (browser w) !! id0) as [tm0 | ] eqn:Hl0; [ | discriminate].
    destruct (Qle_bool _ _); [ | discriminate].
    destruct (callback tm0); injection He as <-.
    + unfold resumeCallback. case_match; cbn;
        intros [_ Hl]%lookup_delete_Some _; exact Hl.
    + unfold pauseCallback.
      rewrite (view_timers _ _ (handleVisibilityChange_view false _)). cbn.
      intros [_ Hl]%lookup_delete_Some _. exact Hl.
  - case_decide; [ | discriminate]. injection He as <-.
    rewrite (view_timers _ _ (tick_view _)). auto.
  - destruct (loaderPending (browser w)); [ | discriminate].
    injection He as <-. auto.
  - destruct (loaderPending (browser w)); [ | discriminate].
    injection He as <-. auto.
  - injection He as <-. auto.
Qed.

Lemma observeEntry_cleared entry w :
  Inv w ->
  let w2 := clearPauseTimeout
              (set_vm entry (pauseTimeout (visibilityManager w)) w) in
  noTimer PauseCallback w2.
Proof.
  intros [H _] w2 id tm Hl Hc.
  pose proof (Core_clearPauseTimeout entry w H) as H2.
  destruct (clearPauseTimeout_frame entry w) as [Hvm _].
  fold w2 in H2, Hvm.
  destruct (core_pause w2 H2 id tm Hl Hc) as [Hp _].
  rewrite Hvm in Hp. discriminate.
Qed.

Lemma PauseArmed_observeEntry entry w :
  Inv w -> PauseArmed (world_of (observeEntry entry w)).
Proof.
  intros Hinv. pose proof (observeEntry_cleared entry w Hinv) as Hnone.
  destruct (clearPauseTimeout_frame entry w) as [Hvm Hir].
  unfold observeEntry. set (w2 := clearPauseTimeout _) in *.
  rewrite Hvm. cbn [isVisible].
  destruct entry, (isVisible (visibilityManager w)) eqn:Hwas; cbn [andb negb].
  - intros id tm Hl Hc. destruct (Hnone id tm Hl Hc).
  - intros id tm _ _. apply handleVisibilityChange_rendering.
  - intros id tm _ _. change (isRendering w2 = true).
    rewrite Hir. apply Hinv, Hwas.
  - intros id tm Hl Hc. destruct (Hnone id tm Hl Hc).
Qed.

Lemma PauseArmed_observerCallback entries : forall w,
  Inv w -> PauseArmed w -> PauseArmed (world_of (observerCallback entries w)).
Proof.
  induction entries as [ | entry rest IH]; intros w Hinv Ha; [exact Ha | ].
  cbn. pose proof (PauseArmed_observeEntry entry w Hinv) as H1.
  pose proof (Inv_observeEntry entry w Hinv) as Hi1.
  destruct (observeEntry entry w) as [w1 | w1]; cbn in *; auto.
Qed.

Lemma dispatch_rendering e w c :
  (forall entries, e <> Intersection entries) ->
  (forall id, e <> TimerFired id) ->
  dispatch e w = Some c -> isRendering (world_of c) = isRendering w.
Proof.
  intros Hne Hnt He. destruct e; unfold dispatch in He;
    try (injection He as <-).
  - unfold onMouseDown. case_match; reflexivity.
  - reflexivity.
  - unfold onMouseLeave, resumeRotation. case_match; reflexivity.
  - reflexivity.
  - reflexivity.
  - reflexivity.
  - unfold onControlsStart. case_match; reflexivity.
  - unfold onControlsEnd, resumeRotation. case_match; reflexivity.
  - exfalso. eapply Hne. reflexivity.
  - exfalso. eapply Hnt. reflexivity.
  - case_decide; [ | discriminate]. injection He as <-.
    destruct (tick_frame (takeFrame id w)) as [-> _]. reflexivity.
  - destruct (loaderPending (browser w)); [ | discriminate].
    injection He as <-. reflexivity.
  - destruct (loaderPending (browser w)); [ | discriminate].
    injection He as <-. reflexivity.
  - reflexivity.
Qed.

Lemma PauseArmed_dispatch e w c :
  Inv w -> PauseArmed w -> dispatch e w = Some c -> PauseArmed (world_of c).
Proof.
  intros Hinv Ha He.
  destruct e as [b| | | | | | | |entries|tid|fid|y| |lost];
    try (match type of He with
         | dispatch ?E _ = _ =>
             assert (Hn1 : forall entries, E <> Intersection entries)
               by (intros ?; discriminate);
             assert (Hn2 : forall id, E <> TimerFired id)
               by (intros ?; discriminate)
         end;
         intros id tm Hl Hc;
         rewrite (dispatch_rendering _ w c Hn1 Hn2 He);
         eapply Ha; [ | exact Hc];
         eapply (dispatch_pause_timers _ w c Hn1 He); eassumption).
  - unfold dispatch in He. destruct (mode w); [ | discriminate].
    injection He as <-. apply PauseArmed_observerCallback; assumption.
  - pose proof He as He'. unfold dispatch in He.
    destruct (timers (browser w) !! tid) as [tm0 | ] eqn:Hl0; [ | discriminate].
    destruct (Qle_bool _ _); [ | discriminate].
    destruct (callback tm0) eqn:Hc0; injection He as <-.
    + intros id tm Hl Hc.
      assert (Hr : isRendering (resumeCallback (takeTimer tid w)) = isRendering w)
        by (unfold resumeCallback; case_match; reflexivity).
      change (isRendering (resumeCallback (takeTimer tid w)) = true).
      rewrite Hr. eapply Ha; [ | exact Hc].
      eapply (dispatch_pause_timers (TimerFired tid) w _); [ | exact He' | | ];
        [intros ?; discriminate | eassumption | eassumption].
    + intros id tm Hl Hc. exfalso. unfold pauseCallback in Hl.
      rewrite (view_timers _ _ (handleVisibilityChange_view false _)) in Hl.
      cbn in Hl. apply lookup_delete_Some in Hl as [Hne Hl].
      destruct Hinv as [H _].
      destruct (core_pause w H id tm Hl Hc) as [H1 _].
      destruct (core_pause w H tid tm0 Hl0 Hc0) as [H2 _]. congruence.
Qed.

Lemma reachable_PauseArmed w : reachable w -> PauseArmed w.
Proof.
  intros (m & t0 & lost & es & Ht & Hrun).
  assert (H0 : Inv (boot m t0 lost) /\ PauseArmed (boot m t0 lost)).
  { split; [apply Inv_boot, Ht | ]. intros id tm Hl _. exfalso. revert Hl.
    unfold boot. rewrite (view_timers _ _ (tick_view _)). cbn.
    rewrite lookup_empty. discriminate. }
  clear Ht. revert H0 Hrun. generalize (boot m t0 lost).
  induction es as [ | [t e] rest IH]; intros w0 [Hi Ha]; cbn.
  - intros [= <-]. exact Ha.
  - destruct (step t e w0) as [w1 | ] eqn:Hs; [ | discriminate].
    apply IH. split; [eapply Inv_step; eassumption | ].
    unfold step in Hs. destruct (Qle_bool _ _) eqn:Hle; [ | discriminate].
    apply fmap_Some in Hs as (c & Hd & ->).
    eapply PauseArmed_dispatch; [ | | exact Hd].
    + destruct Hi as [Hc Hv]. split; [ | exact Hv].
      apply Core_advance; [apply Qle_bool_iff, Hle | exact Hc].
    + exact Ha.
Qed.

(** X3: when a pause timer fires in a reachable state the loop is
    stopped: [isRendering] and the clock's running flag are cleared, the
    pending frame callback is cancelled so that none remains, no pause
    timer is left, and the pause is logged exactly once. *)
Theorem pause_timer_stops_loop w t id tm w' :
  reachable w ->
  timers (browser w) !! id = Some tm -> callback tm = PauseCallback ->
  step t (TimerFired id) w = Some w' ->
  isRendering w' = false
  /\ Clock.running (clock w') = false
  /\ frames (browser w') = ∅
  /\ animationFrameId w' = None
  /\ noTimer PauseCallback w'
  /\ out (browser w')
     = out (browser w)
       ++ match animationFrameId w with
          | Some frame => [CancelAnimationFrame frame]
          | None => []
          end
       ++ [LoggerInfo "Rendering paused (saving resources)"].
Proof.
  intros Hreach Hl Hc Hstep.
  pose proof (reachable_PauseArmed w Hreach id tm Hl Hc) as Hr.
  pose proof (reachable_Inv w Hreach) as [Hcore _].
  unfold step in Hstep. destruct (Qle_bool _ _); [ | discriminate].
  cbn [dispatch] in Hstep.
  change (timers (browser (advance t w))) with (timers (browser w)) in Hstep.
  rewrite Hl, Hc in Hstep. destruct (Qle_bool _ _); [ | discriminate].
  unfold pauseCallback, handleVisibilityChange in Hstep.
  change (isRendering (takeTimer id (advance t w))) with (isRendering w)
    in Hstep.
  rewrite Hr in Hstep. cbn in Hstep. injection Hstep as <-.
  assert (Hfr : frames (browser w) ⊆ match animationFrameId w with
                                      | Some f => {[f]} | None => ∅ end).
  { intros i Hi. destruct (core_frames w Hcore i Hi) as [-> _].
    apply elem_of_singleton. reflexivity. }
  destruct (animationFrameId w) as [f | ] eqn:Hf; cbn.
  - repeat split; try reflexivity.
    + apply leibniz_equiv, elem_of_equiv_empty. intros i Hi.
      cbn in Hi. apply elem_of_difference in Hi as [Hi Hn].
      apply Hfr in Hi. first [contradiction | apply elem_of_empty in Hi; contradiction].
    + intros i tm' Hl' Hc'. cbn in Hl'.
      apply lookup_delete_Some in Hl' as [Hne Hl'].
      destruct (core_pause w Hcore i tm' Hl' Hc') as [H1 _].
      destruct (core_pause w Hcore id tm Hl Hc) as [H2 _]. congruence.
    + rewrite <- app_assoc. reflexivity.
  - repeat split; try reflexivity; try exact Hf.
    + apply leibniz_equiv, elem_of_equiv_empty. intros i Hi.
      cbn in Hi. apply Hfr, elem_of_empty in Hi. contradiction.
    + intros i tm' Hl' Hc'. cbn in Hl'.
      apply lookup_delete_Some in Hl' as [Hne Hl'].
      destruct (core_pause w Hcore i tm' Hl' Hc') as [H1 _].
      destruct (core_pause w Hcore id tm Hl Hc) as [H2 _]. congruence.
Qed.

Lemma pause_timer_stops_loop_witness :
  let w := after [(0, Intersection [false]); (200, AnimationFrame 1)] in
  let w' := after [(0, Intersection [false]); (200, AnimationFrame 1);
                   (650, TimerFired 1)] in
  reachable w
  /\ timers (browser w) !! 1%positive
     = Some {| deadline := 0 + 500; callback := PauseCallback |}
  /\ step 650 (TimerFired 1) w = Some w'
  /\ isRendering w' = false
  /\ Clock.running (clock w') = false
  /\ frames (browser w') = ∅
  /\ animationFrameId w' = None
  /\ noTimer PauseCallback w'
  /\ out (browser w')
     = out (browser w)
       ++ match animationFrameId w with
          | Some frame => [CancelAnimationFrame frame]
          | None => []
          end
       ++ [LoggerInfo "Rendering paused (saving resources)"].
Proof.
  intros w w'.
  assert (H : reachable w) by (apply after_reachable; vm_compute; eauto).
  split; [exact H | ]. split; [vm_compute; reflexivity | ].
  split; [vm_compute; reflexivity | ].
  apply (pause_timer_stops_loop w 650 1
           {| deadline := 0 + 500; callback := PauseCallback |} w' H);
    vm_compute; reflexivity.
Defined.

Lemma world_of_last c : world_of (c >>= observerCallback []) = world_of c.
Proof. destruct c; reflexivity. Qed.

Lemma clearPauseTimeout_keeps v w :
  let w2 := clearPauseTimeout (set_vm v (pauseTimeout (visibilityManager w)) w) in
  out (browser w2) = out (browser w)
  /\ frames (browser w2) = frames (browser w)
  /\ nextFrameId (browser w2) = nextFrameId (browser w)
  /\ contextLost (browser w2) = contextLost (browser w)
  /\ performance_now w2 = performance_now w
  /\ clock w2 = clock w
  /\ animationFrameId w2 = animationFrameId w.
Proof.
  unfold clearPauseTimeout; cbn.
  destruct (pauseTimeout (visibilityManager w)); cbn; repeat split.
Qed.

(** X4: when the widget becomes visible again while the loop is stopped,
    the loop restarts at once: the flag and the clock are set running,
    both resume lines are logged, one tick runs, and unless its draw call
    throws exactly one frame callback is pending afterwards. *)
Theorem visible_again_restarts_loop w t w' :
  reachable w -> isRendering w = false ->
  step t (Intersection [true]) w = Some w' ->
  isVisible (visibilityManager w') = true
  /\ isRendering w' = true
  /\ Clock.running (clock w') = true
  /\ out (browser w')
     = out (browser w)
       ++ [LoggerInfo "Hero visible - rendering resumed";
           LoggerInfo "Rendering resumed"]
       ++ tickEffects w
  /\ frames (browser w')
     = (if contextLost (browser w) then ∅ else {[nextFrameId (browser w)]}).
Proof.
  intros Hreach Hr Hstep.
  destruct (reachable_Inv w Hreach) as [Hcore Hvis].
  assert (Hwas : isVisible (visibilityManager w) = false).
  { destruct (isVisible (visibilityManager w)); [ | reflexivity].
    rewrite Hvis in Hr; [discriminate | reflexivity]. }
  assert (Hnone : frames (browser w) = ∅).
  { apply leibniz_equiv, elem_of_equiv_empty. intros i Hi.
    destruct (core_frames w Hcore i Hi). congruence. }
  unfold step in Hstep. destruct (Qle_bool _ _); [ | discriminate].
  cbn [dispatch] in Hstep. destruct (mode (advance t w)); [ | discriminate].
  cbn [fmap option_fmap option_map observerCallback] in Hstep.
  injection Hstep as <-. rewrite world_of_last. unfold observeEntry.
  destruct (clearPauseTimeout_frame true (advance t w)) as [Hvm Hir].
  destruct (clearPauseTimeout_keeps true (advance t w))
    as (Ho & Hf & Hn & Hl & Hnow & Hck & _).
  set (w2 := clearPauseTimeout _) in *. rewrite Hvm. cbn [isVisible].
  change (isVisible (visibilityManager (advance t w)))
    with (isVisible (visibilityManager w)).
  rewrite Hwas. cbn [andb negb]. unfold handleVisibilityChange.
  change (isRendering (emit (LoggerInfo "Hero visible - rendering resumed") w2))
    with (isRendering w2).
  change (isRendering (advance t w)) with (isRendering w) in Hir.
  rewrite Hir, Hr. cbn [andb negb].
  match goal with |- context [tick ?x] => set (w3 := x) end.
  assert (Hr3 : isRendering w3 = true) by reflexivity.
  destruct (tick_frame w3) as [Hrt Hvt].
  destruct (tick_effects w3 Hr3) as (Hout & Hfr & _ & Hrun).
  rewrite Hrt, Hvt, Hout, Hfr, Hrun.
  assert (Hvm3 : visibilityManager w3 = visibilityManager w2) by reflexivity.
  rewrite Hvm3, Hvm.
  split; [reflexivity | split; [reflexivity | split]].
  - apply Clock_getDelta_running. reflexivity.
  - unfold tickEffects.
    change (contextLost (browser w3)) with (contextLost (browser w2)).
    change (nextFrameId (browser w3)) with (nextFrameId (browser w2)).
    change (frames (browser w3)) with (frames (browser w2)).
    change (out (browser w3))
      with ((out (browser w2)
             ++ [LoggerInfo "Hero visible - rendering resumed"])
            ++ [LoggerInfo "Rendering resumed"]).
    rewrite Hl, Hn, Hf, Ho. cbn. rewrite Hnone.
    split; [rewrite <- !app_assoc; reflexivity | ].
    destruct (contextLost (browser w)); [reflexivity | ].
    apply leibniz_equiv. apply union_empty_r.
Qed.

Lemma visible_again_restarts_loop_witness :
  let w := after [(0, Intersection [false]); (500, TimerFired 1)] in
  let w' := after [(0, Intersection [false]); (500, TimerFired 1);
                   (90000, Intersection [true])] in
  reachable w /\ isRendering w = false
  /\ step 90000 (Intersection [true]) w = Some w'
  /\ isVisible (visibilityManager w') = true
  /\ isRendering w' = true
  /\ Clock.running (clock w') = true
  /\ out (browser w')
     = out (browser w)
       ++ [LoggerInfo "Hero visible - rendering resumed";
           LoggerInfo "Rendering resumed"]
       ++ tickEffects w
  /\ frames (browser w')
     = (if contextLost (browser w) then ∅ else {[nextFrameId (browser w)]}).
Proof.
  intros w w'.
  assert (H : reachable w) by (apply after_reachable; vm_compute; eauto).
  split; [exact H | ]. split; [vm_compute; reflexivity | ].
  split; [vm_compute; reflexivity | ].
  apply (visible_again_restarts_loop w 90000 w' H); vm_compute; reflexivity.
Defined.

(** X5: a second "not intersecting" entry while the widget is already
    hidden cancels the pending pause timer and schedules no new one, logs
    nothing and leaves the loop as it is: the loop then keeps running
    although the widget is hidden. *)
Theorem repeated_hidden_cancels_pause w t w' :
  reachable w -> isVisible (visibilityManager w) = false ->
  step t (Intersection [false]) w = Some w' ->
  noTimer PauseCallback w'
  /\ visibilityManager w' = {| isVisible := false; pauseTimeout := None |}
  /\ isRendering w' = isRendering w
  /\ out (browser w') = out (browser w)
  /\ frames (browser w') = frames (browser w).
Proof.
  intros Hreach Hwas Hstep.
  destruct (reachable_Inv w Hreach) as [Hcore Hvis].
  unfold step in Hstep. destruct (Qle_bool _ _) eqn:Hle; [ | discriminate].
  apply Qle_bool_iff in Hle.
  cbn [dispatch] in Hstep. destruct (mode (advance t w)); [ | discriminate].
  cbn [fmap option_fmap option_map observerCallback] in Hstep.
  injection Hstep as <-. rewrite world_of_last.
  assert (Hinv : Inv (advance t w))
    by (split; [apply Core_advance; assumption | exact Hvis]).
  pose proof (observeEntry_cleared false (advance t w) Hinv) as Hnone.
  destruct (clearPauseTimeout_frame false (advance t w)) as [Hvm Hir].
  destruct (clearPauseTimeout_keeps false (advance t w))
    as (Ho & Hf & _).
  unfold observeEntry. set (w2 := clearPauseTimeout _) in *.
  rewrite Hvm. cbn [isVisible].
  change (isVisible (visibilityManager (advance t w)))
    with (isVisible (visibilityManager w)).
  rewrite Hwas. cbn [andb negb world_of]. auto.
Qed.

Lemma repeated_hidden_cancels_pause_witness :
  let w := after [(0, Intersection [false])] in
  let w' := after [(0, Intersection [false]); (100, Intersection [false])] in
  reachable w /\ isVisible (visibilityManager w) = false
  /\ step 100 (Intersection [false]) w = Some w'
  /\ is_Some (timers (browser w) !! 1%positive)
  /\ noTimer PauseCallback w'
  /\ visibilityManager w' = {| isVisible := false; pauseTimeout := None |}
  /\ isRendering w' = isRendering w
  /\ out (browser w') = out (browser w)
  /\ frames (browser w') = frames (browser w).
Proof.
  intros w w'.
  assert (H : reachable w) by (apply after_reachable; vm_compute; eauto).
  split; [exact H | ]. split; [vm_compute; reflexivity | ].
  split; [vm_compute; reflexivity | ]. split; [vm_compute; eauto | ].
  apply (repeated_hidden_cancels_pause w 100 w' H); vm_compute; reflexivity.
Defined.

(** X6: in every reachable state at most one timer of each kind is
    pending: two pending timers with the same callback are the same
    timer. *)
Theorem one_timer_per_kind w i a j b :
  reachable w ->
  timers (browser w) !! i = Some a -> timers (browser w) !! j = Some b ->
  callback a = callback b -> i = j.
Proof.
  intros [H _]%reachable_Inv Hi Hj Hk. destruct (callback b) eqn:Hb.
  - destruct (core_resume w H i a Hi Hk) as [H1 _].
    destruct (core_resume w H j b Hj Hb) as [H2 _]. congruence.
  - destruct (core_pause w H i a Hi Hk) as [H1 _].
    destruct (core_pause w H j b Hj Hb) as [H2 _]. congruence.
Qed.

Lemma one_timer_per_kind_witness :
  let w := after [(10, MouseDown 0); (11, ControlsStart); (100, ControlsEnd);
                  (150, ControlsStart); (300, MouseLeave);
                  (400, Intersection [false])] in
  let resume := {| deadline := 300 + 700; callback := ResumeCallback |} in
  reachable w
  /\ timers (browser w) !! 2%positive = Some resume
  /\ timers (browser w) !! 1%positive = None
  /\ 2%positive = 2%positive.
Proof.
  intros w resume.
  assert (H : reachable w) by (apply after_reachable; vm_compute; eauto).
  assert (Hl : timers (browser w) !! 2%positive = Some resume)
    by (vm_compute; reflexivity).
  split; [exact H | ]. split; [exact Hl | ]. split; [vm_compute; reflexivity | ].
  apply (one_timer_per_kind w 2 resume 2 resume H Hl Hl eq_refl).
Defined.

(** ** Rotation across a pause *)

Lemma updateModel_rotationView delta w :
  rotationView (updateModel delta w) = rotationView w.
Proof.
  unfold updateModel, motionBlur, autoRotateStep, rotationTransition.
  repeat case_match; reflexivity.
Qed.

Lemma tick_rotationView w : rotationView (world_of (tick w)) = rotationView w.
Proof.
  unfold tick. destruct (isRendering w); [ | reflexivity]. cbn.
  set (w1 := set_clock _ w).
  pose proof (updateModel_rotationView (tickDelta w) w1) as Hv.
  destruct (updateModel_frame (tickDelta w) w1) as (Hb & _).
  unfold render; cbn. rewrite Hb; cbn.
  destruct (contextLost (browser w)); cbn; exact Hv.
Qed.

(** The angle after a tick: unchanged, or advanced by a multiple of the
    delta. *)
Lemma tick_angle w y :
  isRendering w = true -> model w = Some y ->
  model (world_of (tick w)) = Some y
  \/ exists k, model (world_of (tick w)) = Some (y + k * tickDelta w).
Proof.
  intros Hr Hm. rewrite (tick_rendering w Hr).
  unfold render, updateModel, motionBlur, autoRotateStep, rotationTransition.
  cbn. rewrite Hm.
  repeat case_match; simplify_eq/=; eauto.
Qed.

Lemma tick_no_model w :
  model w = None -> model (world_of (tick w)) = None.
Proof.
  intros Hm. unfold tick. destruct (isRendering w); [ | exact Hm]. cbn.
  unfold render, updateModel. cbn. rewrite Hm. cbn.
  destruct (contextLost (browser w)); cbn; exact Hm.
Qed.

(** X7: pausing the loop and restarting it at any later time [t] leaves
    the rotation flags, the resume handle, the transition start time and
    the pending timers as they were, and the model's angle has not moved:
    the tick run on restart advances it by a zero delta. *)
Theorem pause_resume_keeps_rotation w t :
  isRendering w = true ->
  let w1 := world_of (handleVisibilityChange false w) in
  let w2 := world_of (handleVisibilityChange true (advance t w1)) in
  isRendering w1 = false /\ isRendering w2 = true
  /\ rotationView w2 = rotationView w
  /\ timers (browser w2) = timers (browser w)
  /\ sameAngle (model w2) (model w).
Proof.
  intros Hr w1 w2.
  assert (E1 : w1 = emit (LoggerInfo "Rendering paused (saving resources)")
                      (set_clock
                         (Clock.stop (performance_now w) (clock w))
                         match animationFrameId w with
                         | Some id => set_animationFrameId None
                                        (cancelAnimationFrame id
                                           (set_isRendering false w))
                         | None => set_isRendering false w
                         end)).
  { unfold w1, handleVisibilityChange. rewrite Hr. cbn.
    destruct (animationFrameId w); reflexivity. }
  assert (F1 : isRendering w1 = false /\ rotationView w1 = rotationView w
               /\ timers (browser w1) = timers (browser w)
               /\ model w1 = model w).
  { rewrite E1. destruct (animationFrameId w); cbn; auto. }
  destruct F1 as (Hr1 & Hv1 & Ht1 & Hm1).
  split; [exact Hr1 | ].
  set (w3 := resumed (advance t w1)).
  assert (E2 : handleVisibilityChange true (advance t w1) = tick w3).
  { unfold handleVisibilityChange.
    change (isRendering (advance t w1)) with (isRendering w1).
    rewrite Hr1. reflexivity. }
  unfold w2. rewrite E2.
  assert (Hr3 : isRendering w3 = true) by reflexivity.
  assert (Hd : tickDelta w3 == 0).
  { unfold tickDelta, w3, resumed, Clock.getDelta. cbn.
    rewrite andb_false_r. cbn. field. }
  destruct (tick_frame w3) as [-> _].
  rewrite tick_rotationView, (view_timers _ _ (tick_view w3)).
  split; [reflexivity | ].
  split; [exact Hv1 | split; [exact Ht1 | ]].
  assert (Hm3 : model w3 = model w) by exact Hm1.
  destruct (model w) as [y | ] eqn:Hm.
  - destruct (tick_angle w3 y Hr3 Hm3) as [-> | [k ->]]; cbn.
    + reflexivity.
    + rewrite Hd. ring.
  - rewrite (tick_no_model w3 Hm3). exact I.
Qed.

Lemma pause_resume_keeps_rotation_witness :
  let w := after [(10, ModelLoaded 0); (1016, AnimationFrame 1)] in
  let w1 := world_of (handleVisibilityChange false w) in
  let w2 := world_of (handleVisibilityChange true (advance 90000 w1)) in
  isRendering w = true
  /\ isRendering w1 = false /\ isRendering w2 = true
  /\ rotationView w2 = rotationView w
  /\ timers (browser w2) = timers (browser w)
  /\ sameAngle (model w2) (model w).
Proof.
  intros w w1 w2. split; [vm_compute; reflexivity | ].
  apply (pause_resume_keeps_rotation w 90000). vm_compute. reflexivity.
Defined.

(** ** The resume delay *)

Lemma Resting_view D w w' :
  handleView w' = handleView w -> Resting D w -> Resting D w'.
Proof.
  unfold handleView. intros [= Ht _ _ _ _ Ha] [Hoff Hdue].
  constructor; rewrite ?Ht, ?Ha; assumption.
Qed.

Lemma Resting_resumeRotation D w :
  D <= performance_now w + CONFIG.RESUME_DELAY ->
  Resting D w -> Resting D (resumeRotation w).
Proof.
  intros Hnow [Hoff Hdue]. unfold resumeRotation; cbn.
  constructor; cbn; [exact Hoff | ].
  intros i tm [[<- <-] | [_ [Hl _]%lookup_cleared]]%lookup_insert_Some Hc;
    [exact Hnow | eauto].
Qed.

Lemma Resting_observeEntry D entry w :
  Resting D w -> Resting D (world_of (observeEntry entry w)).
Proof.
  intros H. unfold observeEntry. set (w2 := clearPauseTimeout _).
  assert (H2 : Resting D w2).
  { destruct H as [Hoff Hdue]. subst w2. unfold clearPauseTimeout; cbn.
    destruct (pauseTimeout (visibilityManager w)); constructor; cbn;
      try assumption.
    intros i tm [_ Hl]%lookup_delete_Some. eauto. }
  destruct (isVisible (visibilityManager w2) && negb _).
  - eapply Resting_view; [apply handleVisibilityChange_view | ].
    eapply Resting_view; [ | exact H2]. reflexivity.
  - destruct (negb _ && _); [ | exact H2]. cbn.
    destruct H2 as [Hoff Hdue]. constructor; cbn; [exact Hoff | ].
    intros i tm [[<- <-] | [_ Hl]]%lookup_insert_Some Hc;
      [discriminate | eauto].
Qed.

Lemma Resting_observerCallback D entries : forall w,
  Resting D w -> Resting D (world_of (observerCallback entries w)).
Proof.
  induction entries as [ | entry rest IH]; intros w H; [exact H | ].
  cbn. pose proof (Resting_observeEntry D entry w H) as H1.
  destruct (observeEntry entry w) as [w1 | w1]; cbn in *; auto.
Qed.

Lemma Resting_dispatch D e w c :
  D <= performance_now w + CONFIG.RESUME_DELAY -> performance_now w < D ->
  Resting D w -> dispatch e w = Some c -> Resting D (world_of c).
Proof.
  intros Hnow Hlt H He. destruct e; unfold dispatch in He.
  - injection He as <-. unfold onMouseDown. case_match; [ | exact H].
    eapply Resting_view; [ | exact H]. reflexivity.
  - injection He as <-. eapply Resting_view; [ | exact H]. reflexivity.
  - injection He as <-. unfold onMouseLeave.
    assert (H' : Resting D (set_isMouseDown false w))
      by (eapply Resting_view; [ | exact H]; reflexivity).
    case_match; [apply Resting_resumeRotation; assumption | exact H'].
  - injection He as <-. eapply Resting_view; [ | exact H]. reflexivity.
  - injection He as <-. eapply Resting_view; [ | exact H]. reflexivity.
  - injection He as <-. eapply Resting_view; [ | exact H]. reflexivity.
  - injection He as <-. unfold onControlsStart. case_match; [ | exact H].
    destruct H as [Hoff Hdue]. constructor; cbn; [reflexivity | ].
    intros i tm [Hl _]%lookup_cleared. eauto.
  - injection He as <-. unfold onControlsEnd.
    case_match; [apply Resting_resumeRotation; assumption | exact H].
  - destruct (mode w); [ | discriminate]. injection He as <-.
    apply Resting_observerCallback, H.
  - destruct (timers (browser w) !! id) as [tm | ] eqn:Hl; [ | discriminate].
    destruct (Qle_bool _ _) eqn:Hdue; [ | discriminate].
    apply Qle_bool_iff in Hdue.
    destruct (callback tm) eqn:Hc; injection He as <-.
    + exfalso. pose proof (resting_due D w H id tm Hl Hc). lra.
    + unfold pauseCallback.
      eapply Resting_view; [apply handleVisibilityChange_view | ].
      destruct H as [Hoff Hd]. constructor; cbn; [exact Hoff | ].
      intros i tm' [_ Hl']%lookup_delete_Some. eauto.
  - case_decide; [ | discriminate]. injection He as <-.
    eapply Resting_view; [apply tick_view | ].
    eapply Resting_view; [ | exact H]. reflexivity.
  - destruct (loaderPending (browser w)); [ | discriminate].
    injection He as <-. eapply Resting_view; [ | exact H]. reflexivity.
  - destruct (loaderPending (browser w)); [ | discriminate].
    injection He as <-. eapply Resting_view; [ | exact H]. reflexivity.
  - injection He as <-. eapply Resting_view; [ | exact H]. reflexivity.
Qed.

Lemma Resting_run D es : forall w w',
  Forall (fun te => D <= fst te + CONFIG.RESUME_DELAY /\ fst te < D) es ->
  Resting D w -> run es w = Some w' -> Resting D w'.
Proof.
  induction es as [ | [t e] rest IH]; intros w w' Hall H; cbn.
  - intros [= <-]. exact H.
  - destruct (step t e w) as [w1 | ] eqn:Hs; [ | discriminate].
    inversion Hall as [ | ? ? [Hnow Hlt] Hrest]; subst. cbn in *.
    apply IH; [exact Hrest | ]. unfold step in Hs.
    destruct (Qle_bool _ _); [ | discriminate].
    apply fmap_Some in Hs as (c & Hd & ->).
    eapply Resting_dispatch; [ | | | exact Hd]; try assumption.
    eapply Resting_view; [ | exact H]. reflexivity.
Qed.

(** X8: the resume delay is respected. After an interaction ends at time
    [t] (controls "end", or the mouse leaving the canvas, while
    interacting), whatever happens before [t + RESUME_DELAY], rotation
    stays switched off with a zero multiplier. *)
Theorem resume_delay_respected w t e w1 es w2 :
  reachable w -> userInteracting w = true ->
  e = ControlsEnd \/ e = MouseLeave ->
  step t e w = Some w1 -> run es w1 = Some w2 ->
  Forall (fun te => fst te < t + CONFIG.RESUME_DELAY) es ->
  autoRotate w2 = false
  /\ rotationSpeedMultiplier w2 == 0
  /\ (rotationState w2 = Interacting \/ rotationState w2 = ResumeScheduled).
Proof.
  intros Hreach Hu He Hstep Hrun Hbefore.
  pose proof (reachable_Inv w Hreach) as Hinv.
  pose proof (Inv_step t e w w1 Hinv Hstep) as Hinv1.
  pose proof (Inv_run es w1 w2 Hinv1 Hrun) as [Hcore2 _].
  destruct (step_now t e w w1 Hstep) as [Hle Hnow1].
  destruct Hinv as [Hcore _].
  assert (Hrest : Resting (t + CONFIG.RESUME_DELAY) w1).
  { unfold step in Hstep. destruct (Qle_bool _ _); [ | discriminate].
    assert (Hw1 : w1 = resumeRotation
                         (match e with
                          | MouseLeave => set_isMouseDown false (advance t w)
                          | _ => advance t w
                          end)).
    { destruct He as [-> | ->]; cbn in Hstep; injection Hstep as <-.
      - unfold onControlsEnd.
        change (userInteracting (advance t w)) with (userInteracting w).
        rewrite Hu. reflexivity.
      - unfold onMouseLeave.
        change (userInteracting (set_isMouseDown false (advance t w)))
          with (userInteracting w).
        rewrite Hu. reflexivity. }
    rewrite Hw1. unfold resumeRotation.
    destruct He as [-> | ->]; cbn; (constructor; cbn;
      [apply (core_interacting w Hcore Hu) | ]);
      intros i tm [[<- <-] | [_ [Hl Hno]%lookup_cleared]]%lookup_insert_Some Hc;
      try (cbn; apply Qle_refl);
      destruct (core_resume w Hcore i tm Hl Hc) as [? _]; contradiction. }
  destruct (run_times es w1 w2 Hrun) as [_ Htimes]. rewrite Hnow1 in Htimes.
  assert (Hall : Forall (fun te => t + CONFIG.RESUME_DELAY
                                    <= fst te + CONFIG.RESUME_DELAY
                                  /\ fst te < t + CONFIG.RESUME_DELAY) es).
  { apply Forall_forall. intros te Hin.
    rewrite Forall_forall in Htimes, Hbefore.
    destruct (Htimes te Hin) as [? _]. specialize (Hbefore te Hin).
    split; [lra | exact Hbefore]. }
  destruct (Resting_run _ es w1 w2 Hall Hrest Hrun) as [Hoff _].
  split; [exact Hoff | split; [apply (core_stopped w2 Hcore2 Hoff) | ]].
  unfold rotationState. rewrite Hoff. destruct (userInteracting w2); auto.
Qed.

Lemma resume_delay_respected_witness :
  let w := after [(10, ModelLoaded 0); (20, MouseDown 0); (21, ControlsStart)] in
  let w1 := after [(10, ModelLoaded 0); (20, MouseDown 0); (21, ControlsStart);
                   (100, ControlsEnd)] in
  let es := [(120, MouseUp); (500, AnimationFrame 1); (799, AnimationFrame 2)] in
  let w2 := after [(10, ModelLoaded 0); (20, MouseDown 0); (21, ControlsStart);
                   (100, ControlsEnd); (120, MouseUp); (500, AnimationFrame 1);
                   (799, AnimationFrame 2)] in
  reachable w /\ userInteracting w = true
  /\ step 100 ControlsEnd w = Some w1 /\ run es w1 = Some w2
  /\ autoRotate w2 = false
  /\ rotationSpeedMultiplier w2 == 0
  /\ (rotationState w2 = Interacting \/ rotationState w2 = ResumeScheduled).
Proof.
  intros w w1 es w2.
  assert (H : reachable w) by (apply after_reachable; vm_compute; eauto).
  split; [exact H | ]. split; [vm_compute; reflexivity | ].
  split; [vm_compute; reflexivity | ]. split; [vm_compute; reflexivity | ].
  apply (resume_delay_respected w 100 ControlsEnd w1 es w2 H);
    try (vm_compute; reflexivity); [left; reflexivity | ].
  repeat constructor.
Defined.

(** ** The transition *)

(** X9: when the resume timer fires in a reachable state the transition
    begins: rotation is switched on with multiplier 0, the transition
    start time is the time of firing, and no resume timer is left. *)
Theorem resume_timer_starts_transition w t id tm w' :
  reachable w ->
  timers (browser w) !! id = Some tm -> callback tm = ResumeCallback ->
  step t (TimerFired id) w = Some w' ->
  autoRotate w' = true /\ userInteracting w' = false
  /\ rotationSpeedMultiplier w' = 0.0
  /\ transitionStartTime w' = t
  /\ rotationState w' = Transitioning
  /\ noTimer ResumeCallback w'.
Proof.
  intros Hreach Hl Hc Hstep.
  pose proof (reachable_Inv w Hreach) as [Hcore _].
  destruct (core_resume w Hcore id tm Hl Hc) as (Hid & Hu & _).
  unfold step in Hstep. destruct (Qle_bool _ _); [ | discriminate].
  cbn [dispatch] in Hstep.
  change (timers (browser (advance t w))) with (timers (browser w)) in Hstep.
  rewrite Hl, Hc in Hstep. destruct (Qle_bool _ _); [ | discriminate].
  unfold resumeCallback in Hstep.
  change (userInteracting (takeTimer id (advance t w)))
    with (userInteracting w) in Hstep.
  rewrite Hu in Hstep. cbn in Hstep. injection Hstep as <-.
  unfold rotationState; cbn. rewrite Hu. cbn.
  repeat split.
  intros i tm' Hl' Hc'. cbn in Hl'.
  apply lookup_delete_Some in Hl' as [Hne Hl'].
  destruct (core_resume w Hcore i tm' Hl' Hc') as [? _]. congruence.
Qed.

Lemma resume_timer_starts_transition_witness :
  let w := after [(20, MouseDown 0); (21, ControlsStart); (100, ControlsEnd)] in
  let w' := after [(20, MouseDown 0); (21, ControlsStart); (100, ControlsEnd);
                   (800, TimerFired 1)] in
  let tm := {| deadline := 100 + 700; callback := ResumeCallback |} in
  reachable w /\ timers (browser w) !! 1%positive = Some tm
  /\ step 800 (TimerFired 1) w = Some w'
  /\ autoRotate w' = true /\ userInteracting w' = false
  /\ rotationSpeedMultiplier w' = 0.0
  /\ transitionStartTime w' = 800
  /\ rotationState w' = Transitioning
  /\ noTimer ResumeCallback w'.
Proof.
  intros w w' tm.
  assert (H : reachable w) by (apply after_reachable; vm_compute; eauto).
  split; [exact H | ]. split; [vm_compute; reflexivity | ].
  split; [vm_compute; reflexivity | ].
  apply (resume_timer_starts_transition w 800 1 tm w' H);
    vm_compute; reflexivity.
Defined.

Lemma easePower2Out_below_one p : p < 1 -> easePower2Out p < 1.
Proof. unfold easePower2Out. intros H. nra. Qed.

Lemma Qmin_one_lt x : x < 1 -> Qmin x 1.0 < 1.
Proof.
  intros H. apply Qle_lt_trans with x; [apply Q.le_min_l | exact H].
Qed.

Lemma Qmin_one_ge x : 1 <= x -> Qmin x 1.0 == 1.
Proof.
  intros H. rewrite Q.min_r; [reflexivity | ].
  apply Qle_trans with 1; [lra | exact H].
Qed.

Lemma progress_lt elapsed : elapsed < 1200 <-> elapsed / 1200 < 1.
Proof.
  split; intros H.
  - apply Qlt_shift_div_r; [reflexivity | lra].
  - apply Qnot_le_lt. intros Hle. apply (Qlt_not_le _ _ H).
    apply Qle_shift_div_l; [reflexivity | lra].
Qed.

(** X10: a tick run in Transitioning with a loaded model ends the
    transition once its duration has elapsed: if [TRANSITION_DURATION] or
    more has passed since the transition start the multiplier becomes 1
    and the state AutoRotating; while at least a microsecond of the
    duration is still missing the multiplier stays below 1 and the state
    Transitioning. Closer to the duration than that, whether the eased
    value still compares below 1 depends on the rounding of the
    arithmetic, and nothing is stated. *)
Theorem transition_ends_at_duration w y :
  isRendering w = true -> model w = Some y ->
  rotationState w = Transitioning ->
  let w' := world_of (tick w) in
  let elapsed := performance_now w - transitionStartTime w in
  (CONFIG.TRANSITION_DURATION <= elapsed ->
   rotationSpeedMultiplier w' == 1 /\ rotationState w' = AutoRotating)
  /\ (elapsed <= CONFIG.TRANSITION_DURATION - 0.001 ->
      rotationSpeedMultiplier w' < 1 /\ rotationState w' = Transitioning).
Proof.
  intros Hr Hm Hst w' elapsed.
  unfold rotationState in Hst.
  destruct (userInteracting w) eqn:Hu; [discriminate | ].
  destruct (autoRotate w) eqn:Ha; cbn in Hst; [ | discriminate].
  destruct (Qltb (rotationSpeedMultiplier w) 1.0) eqn:Hq; [ | discriminate].
  assert (Hmult : rotationSpeedMultiplier w'
                  = easePower2Out (Qmin (elapsed / CONFIG.TRANSITION_DURATION) 1.0)).
  { unfold w'. rewrite (tick_rendering w Hr).
    unfold render, updateModel, motionBlur, autoRotateStep, rotationTransition.
    cbn. rewrite Hm.
    destruct (contextLost (browser w)) eqn:Hl;
      repeat (cbn; rewrite ?Hu, ?Ha, ?Hq, ?Hl, ?Hm); reflexivity. }
  assert (Hview : rotationView w' = rotationView w) by apply tick_rotationView.
  unfold rotationView in Hview. injection Hview as Ha' Hu' _ _ _ _.
  unfold rotationState. rewrite Hu', Ha', Hu, Ha, Hmult. cbn [negb].
  unfold CONFIG.TRANSITION_DURATION in *. split; intros He.
  - assert (Hone : easePower2Out (Qmin (elapsed / 1200) 1.0) == 1).
    { unfold easePower2Out. rewrite Qmin_one_ge; [ring | ].
      apply Qle_shift_div_l; [reflexivity | lra]. }
    split; [exact Hone | ].
    destruct (Qltb (easePower2Out (Qmin (elapsed / 1200) 1.0)) 1.0) eqn:Hq';
      [ | reflexivity].
    apply Qltb_true in Hq'. rewrite Hone in Hq'. lra.
  - assert (He' : elapsed < 1200) by lra.
    assert (Hlt : easePower2Out (Qmin (elapsed / 1200) 1.0) < 1).
    { apply easePower2Out_below_one, Qmin_one_lt, progress_lt, He'. }
    split; [exact Hlt | ].
    destruct (Qltb (easePower2Out (Qmin (elapsed / 1200) 1.0)) 1.0) eqn:Hq';
      [reflexivity | ].
    apply Qltb_false in Hq'. lra.
Qed.

Lemma transition_ends_at_duration_witness :
  let w := advance 2000
             (after [(10, ModelLoaded 0); (20, MouseDown 0); (21, ControlsStart);
                     (100, ControlsEnd); (800, TimerFired 1)]) in
  let w' := world_of (tick w) in
  let elapsed := performance_now w - transitionStartTime w in
  isRendering w = true /\ model w = Some 0
  /\ rotationState w = Transitioning
  /\ (CONFIG.TRANSITION_DURATION <= elapsed ->
      rotationSpeedMultiplier w' == 1 /\ rotationState w' = AutoRotating)
  /\ (elapsed <= CONFIG.TRANSITION_DURATION - 0.001 ->
      rotationSpeedMultiplier w' < 1 /\ rotationState w' = Transitioning).
Proof.
  intros w w' elapsed.
  split; [vm_compute; reflexivity | ]. split; [vm_compute; reflexivity | ].
  split; [vm_compute; reflexivity | ].
  apply (transition_ends_at_duration w 0); vm_compute; reflexivity.
Defined.

(** X11: the easing curve starts at 0, ends at 1, lies on or above the
    identity on [0,1] and is monotone up to 1; hence the multiplier that
    the transition step computes never decreases as time passes. *)
Theorem transition_multiplier_monotone :
  easePower2Out 0 == 0 /\ easePower2Out 1 == 1
  /\ (forall p, 0 <= p <= 1 -> p <= easePower2Out p)
  /\ (forall p q, p <= q -> q <= 1 -> easePower2Out p <= easePower2Out q)
  /\ (forall w t,
        performance_now w <= t ->
        rotationSpeedMultiplier (rotationTransition w)
        <= rotationSpeedMultiplier (rotationTransition (advance t w))).
Proof.
  assert (Hmono : forall p q, p <= q -> q <= 1 ->
                    easePower2Out p <= easePower2Out q).
  { intros p q Hpq Hq. unfold easePower2Out. nra. }
  split; [unfold easePower2Out; ring | ].
  split; [unfold easePower2Out; ring | ].
  split; [intros p [H0 H1]; unfold easePower2Out; nra | ].
  split; [exact Hmono | ].
  intros w t Ht. unfold rotationTransition.
  change (autoRotate (advance t w)) with (autoRotate w).
  change (rotationSpeedMultiplier (advance t w))
    with (rotationSpeedMultiplier w).
  destruct (autoRotate w && smoothTransition rotationSettings
            && Qltb (rotationSpeedMultiplier w) 1.0); [ | apply Qle_refl].
  cbn. apply Hmono.
  - apply Q.min_le_compat_r. unfold Qdiv.
    apply Qmult_le_compat_r; [unfold performance_now in *; lra | ].
    apply Qlt_le_weak, Qinv_lt_0_compat. reflexivity.
  - apply Qle_trans with 1.0; [apply Q.le_min_r | lra].
Qed.

Lemma transition_multiplier_monotone_witness :
  let w := advance 1000
             (after [(10, ModelLoaded 0); (20, MouseDown 0); (21, ControlsStart);
                     (100, ControlsEnd); (800, TimerFired 1)]) in
  performance_now w <= 1400
  /\ rotationSpeedMultiplier (rotationTransition w)
     <= rotationSpeedMultiplier (rotationTransition (advance 1400 w)).
Proof.
  intros w.
  assert (H : performance_now w <= 1400) by (vm_compute; discriminate).
  split; [exact H | ].
  apply (proj2 (proj2 (proj2 (proj2 transition_multiplier_monotone))) w 1400 H).
Defined.

(** ** The motion-blur uniform *)

(** X12: write suppression never lets the uniform drift: after the
    motion-blur block, the uniform is within 0.01 of the normalized
    velocity [min (smoothed * intensity) 1] just computed. *)
Theorem uniform_tracks_normalized delta angle s :
  let s' := motionBlurBlock delta angle s in
  Qabs (blurUniform s'
        - Qmin (blurSmoothed s' * intensity motionSettings) 1.0) <= 0.01.
Proof.
  cbn zeta. unfold motionBlurBlock. cbn [blurUniform blurSmoothed].
  set (n := Qmin _ 1.0).
  destruct (Qltb 0.01 (Qabs (blurUniform s - n))) eqn:Hq.
  - apply Qabs_Qle_condition. split; lra.
  - apply Qltb_false in Hq. exact Hq.
Qed.

(** ** Deltas and velocities in operation *)

Lemma ClockOk_getDelta w :
  ClockOk w ->
  0 <= tickDelta w
  /\ Clock.oldTime (snd (Clock.getDelta (performance_now w) (clock w)))
     <= performance_now w.
Proof.
  unfold ClockOk, tickDelta, Clock.getDelta. intros H.
  destruct (Clock.autoStart (clock w) && negb (Clock.running (clock w)));
    cbn; [split; lra | ].
  destruct (Clock.running (clock w)); cbn; [ | split; [lra | exact H]].
  split; [ | lra]. unfold Qdiv. apply Qmult_le_0_compat; [lra | ].
  apply Qlt_le_weak, Qinv_lt_0_compat. reflexivity.
Qed.

Lemma ClockOk_tick w : ClockOk w -> ClockOk (world_of (tick w)).
Proof.
  intros H. unfold ClockOk. rewrite tick_now.
  unfold tick. destruct (isRendering w); [ | exact H]. cbn.
  set (w1 := set_clock _ w).
  destruct (updateModel_frame (tickDelta w) w1) as (Hb & _ & _ & _ & Hck & _).
  unfold render; cbn. rewrite Hb; cbn.
  destruct (contextLost (browser w)); cbn; rewrite Hck; cbn;
    apply ClockOk_getDelta, H.
Qed.

Lemma ClockOk_handleVisibilityChange visible w :
  ClockOk w -> ClockOk (world_of (handleVisibilityChange visible w)).
Proof.
  intros H. unfold handleVisibilityChange.
  destruct visible, (isRendering w); cbn [andb negb]; try exact H.
  - apply ClockOk_tick. unfold ClockOk. cbn. apply Qle_refl.
  - unfold ClockOk, Clock.stop. cbn.
    assert (E : forall x, performance_now x = performance_now w ->
                  clock x = clock w ->
                  Clock.oldTime (snd (Clock.getDelta (performance_now x) (clock x)))
                  <= performance_now w).
    { intros x -> ->. apply ClockOk_getDelta, H. }
    destruct (animationFrameId w); cbn; apply (E w); reflexivity.
Qed.

Lemma ClockOk_observeEntry entry w :
  ClockOk w -> ClockOk (world_of (observeEntry entry w)).
Proof.
  intros H. unfold observeEntry.
  destruct (clearPauseTimeout_keeps entry w) as (_ & _ & _ & _ & Hn & Hck & _).
  set (w2 := clearPauseTimeout _) in *.
  assert (H2 : ClockOk w2) by (unfold ClockOk; rewrite Hn, Hck; exact H).
  destruct (isVisible (visibilityManager w2) && negb _).
  - apply ClockOk_handleVisibilityChange. exact H2.
  - destruct (negb _ && _); exact H2.
Qed.

Lemma ClockOk_observerCallback entries : forall w,
  ClockOk w -> ClockOk (world_of (observerCallback entries w)).
Proof.
  induction entries as [ | entry rest IH]; intros w H; [exact H | ].
  cbn. pose proof (ClockOk_observeEntry entry w H) as H1.
  destruct (observeEntry entry w) as [w1 | w1]; cbn in *; auto.
Qed.

Lemma ClockOk_dispatch e w c :
  ClockOk w -> dispatch e w = Some c -> ClockOk (world_of c).
Proof.
  intros H He. destruct e; unfold dispatch in He.
  - injection He as <-. unfold onMouseDown. case_match; exact H.
  - injection He as <-. exact H.
  - injection He as <-. unfold onMouseLeave, resumeRotation.
    case_match; exact H.
  - injection He as <-. exact H.
  - injection He as <-. exact H.
  - injection He as <-. exact H.
  - injection He as <-. unfold onControlsStart. case_match; exact H.
  - injection He as <-. unfold onControlsEnd, resumeRotation.
    case_match; exact H.
  - destruct (mode w); [ | discriminate]. injection He as <-.
    apply ClockOk_observerCallback, H.
  - destruct (timers (browser w) !! id) as [tm | ]; [ | discriminate].
    destruct (Qle_bool _ _); [ | discriminate].
    destruct (callback tm); injection He as <-.
    + unfold resumeCallback. case_match; exact H.
    + apply ClockOk_handleVisibilityChange. exact H.
  - case_decide; [ | discriminate]. injection He as <-.
    apply ClockOk_tick. exact H.
  - destruct (loaderPending (browser w)); [ | discriminate].
    injection He as <-. exact H.
  - destruct (loaderPending (browser w)); [ | discriminate].
    injection He as <-. exact H.
  - injection He as <-. exact H.
Qed.

Lemma reachable_ClockOk w : reachable w -> ClockOk w.
Proof.
  intros (m & t0 & lost & es & Ht & Hrun).
  assert (H0 : ClockOk (boot m t0 lost)).
  { apply ClockOk_tick. exact Ht. }
  clear Ht. revert H0 Hrun. generalize (boot m t0 lost).
  induction es as [ | [t e] rest IH]; intros w0 H0; cbn.
  - intros [= <-]. exact H0.
  - destruct (step t e w0) as [w1 | ] eqn:Hs; [ | discriminate].
    apply IH. unfold step in Hs.
    destruct (Qle_bool _ _) eqn:Hle; [ | discriminate].
    apply Qle_bool_iff in Hle.
    apply fmap_Some in Hs as (c & Hd & ->).
    eapply ClockOk_dispatch; [ | exact Hd].
    unfold ClockOk in *. cbn. unfold performance_now in *. lra.
Qed.

(** X13: the delta of a tick is never negative, in any reachable state. *)
Theorem tick_delta_nonneg w : reachable w -> 0 <= tickDelta w.
Proof. intros H. apply ClockOk_getDelta, reachable_ClockOk, H. Qed.

Lemma tick_delta_nonneg_witness :
  let w := after [(10, ModelLoaded 0); (16, AnimationFrame 1);
                  (1016, MouseUp)] in
  reachable w /\ tickDelta w == 1 /\ 0 <= tickDelta w.
Proof.
  intros w.
  assert (H : reachable w) by (apply after_reachable; vm_compute; eauto).
  split; [exact H | split; [vm_compute; reflexivity | ]].
  apply (tick_delta_nonneg w H).
Defined.

(** ** The fragment shader *)

Lemma clamp_unit x : 0 <= clamp x 0.0 1.0 <= 1.
Proof.
  unfold clamp. split.
  - apply Q.min_glb; [ | lra]. apply Qle_trans with 0.0; [lra | ].
    apply Q.le_max_r.
  - apply Qle_trans with 1.0; [apply Q.le_min_r | lra].
Qed.

Lemma hermite_unit t : 0 <= t <= 1 -> 0 <= t * t * (3.0 - 2.0 * t) <= 1.
Proof.
  intros [H0 H1].
  assert (Hsq : 0 <= t * t) by (apply Qmult_le_0_compat; assumption).
  assert (Hlow : 0 <= t * t * (3.0 - 2.0 * t))
    by (apply Qmult_le_0_compat; [exact Hsq | lra]).
  assert (Hhigh : 0 <= (1 - t) * (1 - t) * (1 + 2 * t)).
  { apply Qmult_le_0_compat; [apply Qmult_le_0_compat; lra | lra]. }
  split; [exact Hlow | ].
  assert (E : 1 - t * t * (3.0 - 2.0 * t) == (1 - t) * (1 - t) * (1 + 2 * t))
    by ring.
  rewrite <- E in Hhigh. lra.
Qed.

Lemma smoothstep_unit e0 e1 x : 0 <= smoothstep e0 e1 x <= 1.
Proof. unfold smoothstep. apply hermite_unit, clamp_unit. Qed.

Lemma smoothstep_above e0 e1 x : e0 < e1 -> e1 <= x -> smoothstep e0 e1 x == 1.
Proof.
  intros He Hx. unfold smoothstep, clamp.
  assert (H1 : 1 <= (x - e0) / (e1 - e0))
    by (apply Qle_shift_div_l; lra).
  rewrite (Q.max_l _ 0.0) by lra. rewrite Q.min_r by lra. ring.
Qed.

Lemma smoothstep_below e0 e1 x : e0 < e1 -> x <= e0 -> smoothstep e0 e1 x == 0.
Proof.
  intros He Hx. unfold smoothstep, clamp.
  assert (H1 : (x - e0) / (e1 - e0) <= 0).
  { apply Qle_shift_div_r; lra. }
  rewrite (Q.max_r _ 0.0) by lra. rewrite Q.min_l by lra. ring.
Qed.

(** X15: whenever the edge width [0.015 + uAngularVelocity * 0.020] is
    positive, so that both [smoothstep] calls have their edges in order
    (in particular for every value in [0,1], the only ones the program
    writes to the uniform), the alpha the shader computes lies in [0,1],
    for every angle and every slice arc. *)
Theorem fragment_alpha_range u a :
  0 < 0.015 + uAngularVelocity u * 0.020 ->
  0 <= fragmentAlpha u a <= 1.
Proof.
  intros _. unfold fragmentAlpha.
  set (lo := smoothstep _ _ a).
  set (hi := smoothstep (uSliceArc u - _) _ a).
  pose proof (smoothstep_unit (0.020 + uAngularVelocity u * 0.025)
                (0.020 + uAngularVelocity u * 0.025
                 + (0.015 + uAngularVelocity u * 0.020)) a) as Hlo.
  pose proof (smoothstep_unit
                (uSliceArc u - (0.015 + uAngularVelocity u * 0.020))
                (uSliceArc u) a) as Hhi.
  fold lo in Hlo. fold hi in Hhi.
  pose proof (hermite_unit lo Hlo) as [Hl0 Hl1].
  pose proof (hermite_unit hi Hhi) as [Hh0 Hh1].
  cbn zeta.
  set (L := lo * lo * (3.0 - 2.0 * lo)) in *.
  set (H := hi * hi * (3.0 - 2.0 * hi)) in *.
  split; nra.
Qed.

Lemma fragment_alpha_range_witness :
  let u := {| uSliceStart := 1.75; uSliceArc := 1.25;
              uAngularVelocity := 0.5 |} in
  0 < 0.015 + uAngularVelocity u * 0.020
  /\ 0 <= fragmentAlpha u 0.04 <= 1.
Proof.
  intros u. split; [reflexivity | ].
  apply (fragment_alpha_range u 0.04). reflexivity.
Defined.

(** X16: for a uniform in [0,1] the shader cuts a window out of the arc:
    fragments up to [epsilon] and from [sliceArc] on are drawn opaque,
    fragments between [epsilon + edgeWidth] and [sliceArc - edgeWidth] are
    discarded. *)
Theorem fragment_window u a :
  0 <= uAngularVelocity u <= 1 ->
  let epsilon := 0.020 + uAngularVelocity u * 0.025 in
  let edgeWidth := 0.015 + uAngularVelocity u * 0.020 in
  (a <= epsilon \/ uSliceArc u <= a ->
   exists drawn, fragmentMain u a = Some (1.0, 1.0, 1.0, drawn) /\ drawn == 1)
  /\ (epsilon + edgeWidth <= a <= uSliceArc u - edgeWidth ->
      fragmentMain u a = None).
Proof.
  intros [Hv0 Hv1] epsilon edgeWidth.
  assert (Hedge : 0 < edgeWidth) by (unfold edgeWidth; lra).
  assert (Halpha : forall lo hi,
             smoothstep epsilon (epsilon + edgeWidth) a == lo ->
             smoothstep (uSliceArc u - edgeWidth) (uSliceArc u) a == hi ->
             fragmentAlpha u a
             == 1 - lo * lo * (3 - 2 * lo) * (1 - hi * hi * (3 - 2 * hi))).
  { intros lo hi Hlo Hhi. unfold fragmentAlpha. fold epsilon edgeWidth.
    cbn zeta. rewrite Hlo, Hhi. ring. }
  split.
  - intros Hout. unfold fragmentMain.
    assert (Hone : fragmentAlpha u a == 1).
    { destruct Hout as [Hlow | Hhigh].
      - pose proof (smoothstep_unit (uSliceArc u - edgeWidth) (uSliceArc u) a).
        rewrite (Halpha 0 (smoothstep (uSliceArc u - edgeWidth) (uSliceArc u) a));
          [ring | | reflexivity].
        apply smoothstep_below; lra.
      - rewrite (Halpha (smoothstep epsilon (epsilon + edgeWidth) a) 1);
          [ring | reflexivity | ].
        apply smoothstep_above; lra. }
    destruct (Qltb (fragmentAlpha u a) 0.01) eqn:Hq.
    + apply Qltb_true in Hq. rewrite Hone in Hq. lra.
    + eexists. split; [reflexivity | exact Hone].
  - intros [Hlow Hhigh]. unfold fragmentMain.
    assert (Hzero : fragmentAlpha u a == 0).
    { rewrite (Halpha 1 0); [ring | | ].
      - apply smoothstep_above; lra.
      - apply smoothstep_below; lra. }
    destruct (Qltb (fragmentAlpha u a) 0.01) eqn:Hq; [reflexivity | ].
    apply Qltb_false in Hq. rewrite Hzero in Hq. lra.
Qed.

Lemma fragment_window_witness :
  let u := {| uSliceStart := 1.75; uSliceArc := 1.25; uAngularVelocity := 0.5 |} in
  let epsilon := 0.020 + uAngularVelocity u * 0.025 in
  let edgeWidth := 0.015 + uAngularVelocity u * 0.020 in
  0 <= uAngularVelocity u <= 1
  /\ (2 <= epsilon \/ uSliceArc u <= 2 ->
      exists drawn, fragmentMain u 2 = Some (1.0, 1.0, 1.0, drawn) /\ drawn == 1)
  /\ (epsilon + edgeWidth <= 2 <= uSliceArc u - edgeWidth ->
      fragmentMain u 2 = None).
Proof.
  intros u epsilon edgeWidth.
  assert (H : 0 <= uAngularVelocity u <= 1) by (split; discriminate).
  split; [exact H | ]. apply (fragment_window u 2 H).
Defined.

(** ** Vite mode *)

Lemma tick_mode w : mode (world_of (tick w)) = mode w.
Proof.
  unfold tick. destruct (isRendering w); [ | reflexivity]. cbn.
  unfold render, updateModel, motionBlur, autoRotateStep, rotationTransition.
  cbn. repeat case_match; reflexivity.
Qed.

Lemma dispatch_mode e w c :
  (forall entries, e <> Intersection entries) ->
  dispatch e w = Some c -> mode (world_of c) = mode w.
Proof.
  intros Hne He. destruct e; unfold dispatch in He;
    try (injection He as <-).
  - unfold onMouseDown. case_match; reflexivity.
  - reflexivity.
  - unfold onMouseLeave, resumeRotation. case_match; reflexivity.
  - reflexivity.
  - reflexivity.
  - reflexivity.
  - unfold onControlsStart. case_match; reflexivity.
  - unfold onControlsEnd, resumeRotation. case_match; reflexivity.
  - exfalso. eapply Hne. reflexivity.
  - destruct (timers (browser w) !! id) as [tm | ]; [ | discriminate].
    destruct (Qle_bool _ _); [ | discriminate].
    destruct (callback tm); injection He as <-.
    + unfold resumeCallback. case_match; reflexivity.
    + unfold pauseCallback, handleVisibilityChange. cbn.
      repeat case_match; reflexivity.
  - case_decide; [ | discriminate]. injection He as <-.
    rewrite tick_mode. reflexivity.
  - destruct (loaderPending (browser w)); [ | discriminate].
    injection He as <-. reflexivity.
  - destruct (loaderPending (browser w)); [ | discriminate].
    injection He as <-. reflexivity.
  - reflexivity.
Qed.

(** X17: in Vite mode the visibility manager is never armed: whatever
    events arrive after start-up, none of them is an intersection entry,
    no pause timer is ever pending, the loop keeps rendering with the
    clock running, and neither the pause log line nor a frame
    cancellation is ever emitted. *)
Theorem vite_never_pauses t0 lost es w :
  run es (boot Vite t0 lost) = Some w ->
  Forall (fun te => forall entries, snd te <> Intersection entries) es
  /\ mode w = Vite
  /\ noTimer PauseCallback w
  /\ isRendering w = true
  /\ Clock.running (clock w) = true
  /\ List.filter stops (out (browser w)) = [].
Proof.
  assert (H0 : mode (boot Vite t0 lost) = Vite
               /\ noTimer PauseCallback (boot Vite t0 lost)
               /\ Quiet 0 [] (boot Vite t0 lost)).
  { unfold boot. rewrite tick_mode. split; [reflexivity | ].
    assert (Hn : noTimer PauseCallback (world_of (tick (init Vite t0 lost)))).
    { intros id tm Hl. rewrite (view_timers _ _ (tick_view _)) in Hl.
      cbn in Hl. rewrite lookup_empty in Hl. discriminate. }
    split; [exact Hn | ].
    destruct (tick_effects (init Vite t0 lost) eq_refl) as (Ho & _ & _ & Hc).
    destruct (tick_frame (init Vite t0 lost)) as [Hr _].
    constructor.
    - intros id tm Hl Hc'. destruct (Hn id tm Hl Hc').
    - rewrite Hr. reflexivity.
    - rewrite Hc. reflexivity.
    - rewrite Ho. unfold tickEffects. cbn. destruct lost; reflexivity. }
  revert H0. generalize (boot Vite t0 lost).
  induction es as [ | [t e] rest IH]; intros w0 (Hm & Hn & Hq); cbn.
  - intros [= <-]. split; [constructor | ]. split; [exact Hm | ].
    split; [exact Hn | ]. destruct Hq. auto.
  - destruct (step t e w0) as [w1 | ] eqn:Hs; [ | discriminate].
    intros Hrun. unfold step in Hs.
    destruct (Qle_bool _ _); [ | discriminate].
    apply fmap_Some in Hs as (c & Hd & ->).
    assert (Hne : forall entries, e <> Intersection entries).
    { intros entries ->. cbn in Hd. rewrite Hm in Hd. discriminate. }
    assert (Hn1 : noTimer PauseCallback (world_of c)).
    { intros id tm Hl Hc. apply (Hn id tm); [ | exact Hc].
      apply (dispatch_pause_timers e (advance t w0) c Hne Hd id tm Hl Hc). }
    assert (Hq1 : Quiet 0 [] (world_of c)).
    { assert (Hq' : Quiet (t + CONFIG.PAUSE_DELAY) [] (world_of c)).
      { eapply Quiet_dispatch; [ | | | exact Hd].
        - apply Qle_refl.
        - unfold CONFIG.PAUSE_DELAY, performance_now. cbn. lra.
        - destruct Hq as [_ ? ? ?]. constructor; try assumption.
          intros id tm Hl Hc. destruct (Hn id tm Hl Hc). }
      destruct Hq' as [_ ? ? ?]. constructor; try assumption.
      intros id tm Hl Hc. destruct (Hn1 id tm Hl Hc). }
    destruct (IH (world_of c)) as (Hall & Hrest); [ | exact Hrun | ].
    + split; [ | split; assumption].
      rewrite (dispatch_mode e _ c Hne Hd). exact Hm.
    + split; [constructor; [exact Hne | exact Hall] | exact Hrest].
Qed.

Lemma vite_never_pauses_witness :
  let es := [(16, AnimationFrame 1); (20, MouseDown 0); (21, ControlsStart);
             (100, ControlsEnd); (800, TimerFired 1)] in
  let w := match run es (boot Vite 0 false) with
           | Some w => w
           | None => boot Vite 0 false
           end in
  run es (boot Vite 0 false) = Some w
  /\ Forall (fun te => forall entries, snd te <> Intersection entries) es
  /\ mode w = Vite
  /\ noTimer PauseCallback w
  /\ isRendering w = true
  /\ Clock.running (clock w) = true
  /\ List.filter stops (out (browser w)) = [].
Proof.
  intros es w.
  assert (H : run es (boot Vite 0 false) = Some w) by (vm_compute; reflexivity).
  split; [exact H | ]. apply (vite_never_pauses 0 false es w H).
Defined.

(** * Further code of script.js *)

(** ** Sizes and resizing *)

Lemma orElse_positive a b : (0 <= a)%Z -> (0 < b)%Z -> (0 < orElse a b)%Z.
Proof.
  intros Ha Hb. unfold orElse. destruct (a =? 0)%Z eqn:E; [exact Hb | ].
  apply Z.eqb_neq in E. lia.
Qed.

Lemma ratio_positive w h :
  (0 < w)%Z -> (0 < h)%Z ->
  exists q, ratio w h = Finite q /\ 0 < q /\ q == inject_Z w / inject_Z h.
Proof.
  intros Hw Hh. unfold ratio. destruct (h =? 0)%Z eqn:E.
  - apply Z.eqb_eq in E. lia.
  - eexists. split; [reflexivity | split; [ | reflexivity]].
    assert (H1 : inject_Z 0 < inject_Z w)
      by (unfold Qlt; cbn; rewrite !Z.mul_1_r; exact Hw).
    assert (H2 : inject_Z 0 < inject_Z h)
      by (unfold Qlt; cbn; rewrite !Z.mul_1_r; exact Hh).
    change (inject_Z 0) with 0 in H1, H2.
    apply Qlt_shift_div_l; [exact H2 | lra].
Qed.

(** X18: a resize never yields a degenerate view when the window has a
    positive size: whatever the mode, and even if the container is
    collapsed to zero width or height (the window's size is then used),
    the new width and height are positive, the camera aspect is their
    finite positive quotient, and the renderer is given the same size. *)
Theorem handleResize_never_degenerate m v view :
  (0 < innerWidth v)%Z -> (0 < innerHeight v)%Z ->
  (0 <= clientWidth v)%Z -> (0 <= clientHeight v)%Z ->
  let view' := handleResize m v view in
  (0 < width (sizes view'))%Z /\ (0 < height (sizes view'))%Z
  /\ rendererSize view' = (width (sizes view'), height (sizes view'))
  /\ (m = Webflow -> clientWidth v = 0%Z ->
      width (sizes view') = innerWidth v)
  /\ (m = Webflow -> clientHeight v = 0%Z ->
      height (sizes view') = innerHeight v)
  /\ exists q,
       aspect view' = Finite q /\ 0 < q
       /\ q == inject_Z (width (sizes view')) / inject_Z (height (sizes view')).
Proof.
  intros Hiw Hih Hcw Hch view'.
  assert (Hw : (0 < width (sizes view'))%Z).
  { unfold view', handleResize. destruct m; cbn;
      [apply orElse_positive; assumption | exact Hiw]. }
  assert (Hh : (0 < height (sizes view'))%Z).
  { unfold view', handleResize. destruct m; cbn;
      [apply orElse_positive; assumption | exact Hih]. }
  split; [exact Hw | split; [exact Hh | split; [reflexivity | ]]].
  split; [intros -> E; unfold view', handleResize, orElse; cbn;
          rewrite E; reflexivity | ].
  split; [intros -> E; unfold view', handleResize, orElse; cbn;
          rewrite E; reflexivity | ].
  apply ratio_positive; assumption.
Qed.

Lemma handleResize_never_degenerate_witness :
  let v := {| clientWidth := 0; clientHeight := 600; innerWidth := 1280;
              innerHeight := 720; devicePixelRatio := 3 |} in
  let view' := handleResize Webflow v (initialView v) in
  (0 < innerWidth v)%Z /\ (0 < innerHeight v)%Z
  /\ (0 <= clientWidth v)%Z /\ (0 <= clientHeight v)%Z
  /\ (0 < width (sizes view'))%Z /\ (0 < height (sizes view'))%Z
  /\ rendererSize view' = (width (sizes view'), height (sizes view'))
  /\ (Webflow = Webflow -> clientWidth v = 0%Z ->
      width (sizes view') = innerWidth v)
  /\ (Webflow = Webflow -> clientHeight v = 0%Z ->
      height (sizes view') = innerHeight v)
  /\ exists q,
       aspect view' = Finite q /\ 0 < q
       /\ q == inject_Z (width (sizes view')) / inject_Z (height (sizes view')).
Proof.
  intros v view'.
  split; [reflexivity | ]. split; [reflexivity | ].
  split; [discriminate | ]. split; [discriminate | ].
  apply (handleResize_never_degenerate Webflow v (initialView v));
    [reflexivity | reflexivity | discriminate | discriminate].
Defined.

(** X19: in Webflow mode a resize under an unchanged viewport reproduces
    the view built at start-up; in Vite mode it replaces the container's
    client size, which start-up prefers, by the window's inner size; and
    in both modes the pixel ratio stays the one capped at 2 at start-up. *)
Theorem resize_after_startup v :
  handleResize Webflow v (initialView v) = initialView v
  /\ (width (sizes (handleResize Vite v (initialView v))),
      height (sizes (handleResize Vite v (initialView v))))
     = (innerWidth v, innerHeight v)
  /\ (forall m vs,
        let view := fold_left (fun s v' => handleResize m v' s) vs (initialView v) in
        rendererPixelRatio view = Qmin (devicePixelRatio v) 2
        /\ pixelRatio (sizes view) = Qmin (devicePixelRatio v) 2
        /\ rendererPixelRatio view <= 2).
Proof.
  split; [reflexivity | split; [reflexivity | ]].
  intros m vs.
  assert (H : forall s,
             rendererPixelRatio s = Qmin (devicePixelRatio v) 2 ->
             pixelRatio (sizes s) = Qmin (devicePixelRatio v) 2 ->
             let view := fold_left (fun s v' => handleResize m v' s) vs s in
             rendererPixelRatio view = Qmin (devicePixelRatio v) 2
             /\ pixelRatio (sizes view) = Qmin (devicePixelRatio v) 2).
  { induction vs as [ | v' rest IH]; intros s H1 H2; cbn; [auto | ].
    apply IH; unfold handleResize; destruct m; cbn; assumption. }
  destruct (H (initialView v) eq_refl eq_refl) as [H1 H2].
  cbn zeta. rewrite H1, H2. repeat split. apply Q.le_min_r.
Qed.

(** ** Materials of the loaded model *)

Lemma traverse_cons child rest c :
  traverse (child :: rest) c
  = (fst (visitChild child c)
       :: fst (traverse rest (snd (visitChild child c))),
     snd (traverse rest (snd (visitChild child c)))).
Proof.
  cbn. destruct (visitChild child c) as [child' c1]. cbn.
  destruct (traverse rest c1); reflexivity.
Qed.

(** X21: the two materials are shared objects, and the callback converts
    the colour of a mesh's material once per mesh: after the traversal
    each shared colour has been converted as many times as there are
    meshes using it, not once. *)
Theorem shared_color_converted_per_mesh nodes c :
  materialConversions (snd (traverse nodes c))
  = (materialConversions c + length (List.filter plainMesh nodes))%nat
  /\ slicedMaterialConversions (snd (traverse nodes c))
     = (slicedMaterialConversions c + length (List.filter hullMesh nodes))%nat.
Proof.
  revert c. induction nodes as [ | child rest IH]; intros c.
  - cbn. split; lia.
  - rewrite traverse_cons. cbn [snd List.filter].
    destruct (IH (snd (visitChild child c))) as [-> ->].
    unfold visitChild, plainMesh, hullMesh.
    destruct (isMesh child); cbn; [ | split; reflexivity].
    destruct (String.eqb (name child) "outerHull"); cbn; split; lia.
Qed.

(** ** The cursor of the canvas *)

Lemma rotationView_press w w' :
  rotationView w' = rotationView w ->
  isMouseDown w' = isMouseDown w /\ isTouching w' = isTouching w.
Proof. unfold rotationView. intros [= _ _ _ _ Hm Ht]. auto. Qed.

Lemma handleVisibilityChange_rotationView visible w :
  rotationView (world_of (handleVisibilityChange visible w)) = rotationView w.
Proof.
  unfold handleVisibilityChange.
  destruct visible, (isRendering w); cbn [andb negb]; try reflexivity.
  - rewrite tick_rotationView. reflexivity.
  - cbn. destruct (animationFrameId w); reflexivity.
Qed.

Lemma observeEntry_rotationView entry w :
  rotationView (world_of (observeEntry entry w)) = rotationView w.
Proof.
  unfold observeEntry. set (w1 := clearPauseTimeout _).
  assert (H : rotationView w1 = rotationView w).
  { unfold w1, clearPauseTimeout; cbn.
    destruct (pauseTimeout (visibilityManager w)); reflexivity. }
  destruct (isVisible (visibilityManager w1)
            && negb (isVisible (visibilityManager w)));
    [rewrite handleVisibilityChange_rotationView; exact H | ].
  destruct (negb (isVisible (visibilityManager w1))
            && isVisible (visibilityManager w)); exact H.
Qed.

Lemma observerCallback_rotationView entries w :
  rotationView (world_of (observerCallback entries w)) = rotationView w.
Proof.
  revert w. induction entries as [ | entry rest IH]; intros w; [reflexivity | ].
  cbn. pose proof (observeEntry_rotationView entry w) as H.
  destruct (observeEntry entry w) as [w1 | w1]; cbn in *;
    [rewrite IH; exact H | exact H].
Qed.

Open Scope string_scope.

(** Handlers that leave the cursor alone leave the press flags alone. *)
Lemma dispatch_press e w c :
  (forall cursor, cursorAfter e cursor = cursor) ->
  dispatch e w = Some c ->
  isMouseDown (world_of c) = isMouseDown w
  /\ isTouching (world_of c) = isTouching w.
Proof.
  intros Hn He. destruct e; unfold dispatch in He;
    try (specialize (Hn "grabbing"); discriminate Hn);
    try (specialize (Hn "grab"); discriminate Hn).
  - cbn in Hn. injection He as <-. unfold onMouseDown.
    destruct (button =? 0)%Z; [specialize (Hn "grab"); discriminate Hn | auto].
  - injection He as <-. unfold onControlsStart.
    repeat case_match; cbn; auto.
  - injection He as <-. unfold onControlsEnd, resumeRotation, setTimeout.
    repeat case_match; cbn; auto.
  - destruct (mode w); [ | discriminate]. injection He as <-.
    apply rotationView_press, observerCallback_rotationView.
  - destruct (timers (browser w) !! id) as [tm | ]; [ | discriminate].
    destruct (Qle_bool (deadline tm) (performance_now w)); [ | discriminate].
    destruct (callback tm); injection He as <-.
    + unfold resumeCallback. repeat case_match; cbn; auto.
    + apply rotationView_press. unfold pauseCallback.
      rewrite handleVisibilityChange_rotationView. reflexivity.
  - destruct (decide (id ∈ frames (browser w))); [ | discriminate].
    injection He as <-. apply rotationView_press.
    rewrite tick_rotationView. reflexivity.
  - destruct (loaderPending (browser w)); [ | discriminate].
    injection He as <-. cbn. auto.
  - destruct (loaderPending (browser w)); [ | discriminate].
    injection He as <-. cbn. auto.
  - injection He as <-. cbn. auto.
Qed.

Lemma cursor_step t e w w1 cursor :
  (cursor = "grabbing" -> isMouseDown w || isTouching w = true) ->
  step t e w = Some w1 ->
  cursorAfter e cursor = "grabbing" ->
  isMouseDown w1 || isTouching w1 = true.
Proof.
  intros H Hs Hc. unfold step in Hs.
  destruct (Qle_bool (performance_now w) t); [ | discriminate].
  apply fmap_Some in Hs as (c & He & ->).
  assert (Hneutral : (forall cur, cursorAfter e cur = cur) ->
                     isMouseDown (world_of c) || isTouching (world_of c) = true).
  { intros Hn. destruct (dispatch_press e (advance t w) c Hn He) as [-> ->].
    rewrite Hn in Hc. exact (H Hc). }
  destruct e; try (apply Hneutral; intros cur; reflexivity);
    cbn in He; injection He as <-; cbn in Hc; try discriminate Hc.
  - unfold onMouseDown. destruct (button =? 0)%Z; [reflexivity | exact (H Hc)].
  - cbn. apply orb_true_r.
Qed.

Lemma cursor_run es w w' cursor :
  (cursor = "grabbing" -> isMouseDown w || isTouching w = true) ->
  run es w = Some w' ->
  runCursor es cursor = "grabbing" ->
  isMouseDown w' || isTouching w' = true.
Proof.
  revert w cursor. induction es as [ | [t e] rest IH]; intros w cursor H Hrun Hc.
  - injection Hrun as <-. exact (H Hc).
  - cbn in Hrun, Hc. destruct (step t e w) as [w1 | ] eqn:Hs; [ | discriminate].
    apply (IH w1 (cursorAfter e cursor)); [ | exact Hrun | exact Hc].
    intros Hg. exact (cursor_step t e w w1 cursor H Hs Hg).
Qed.

(** X22: the canvas shows the "grabbing" cursor only while a press is
    held: along any run of events from start-up, if the cursor style
    ends up "grabbing" (it is not at first) then the mouse button or a
    touch is down, so OrbitControls' start is taken as a user
    interaction. *)
Theorem grabbing_cursor_means_pressed m t0 lost es w cursor0 :
  cursor0 <> "grabbing" ->
  run es (boot m t0 lost) = Some w ->
  runCursor es cursor0 = "grabbing" ->
  isMouseDown w || isTouching w = true.
Proof.
  intros H0 Hrun Hc.
  apply (cursor_run es (boot m t0 lost) w cursor0); [ | exact Hrun | exact Hc].
  intros E. contradiction.
Qed.

Lemma grabbing_cursor_means_pressed_witness :
  let es := [(10, ModelLoaded 0); (20, MouseDown 0); (21, ControlsStart);
             (30, TouchStart); (40, MouseUp); (41, TouchStart)] in
  "" <> "grabbing"
  /\ run es (boot Webflow 0 false) = Some (after es)
  /\ runCursor es "" = "grabbing"
  /\ isMouseDown (after es) || isTouching (after es) = true.
Proof.
  intros es.
  assert (H0 : "" <> "grabbing") by discriminate.
  assert (H1 : run es (boot Webflow 0 false) = Some (after es))
    by (vm_compute; reflexivity).
  assert (H2 : runCursor es "" = "grabbing") by (vm_compute; reflexivity).
  split; [exact H0 | split; [exact H1 | split; [exact H2 | ]]].
  exact (grabbing_cursor_means_pressed Webflow 0 false es (after es) ""
           H0 H1 H2).
Defined.

Close Scope string_scope.

(** ** Clean-up on unload *)

Lemma Dead_emit seen e w :
  draws e = false -> Dead seen w -> Dead seen (emit e w).
Proof.
  intros He [Hf Hp Ho]. constructor; cbn; [exact Hf | exact Hp | ].
  rewrite List.filter_app. cbn. rewrite He, app_nil_r. exact Ho.
Qed.

Lemma cleanup_Dead w :
  Core w -> Dead (List.filter draws (out (browser w))) (fst (cleanup w)).
Proof.
  intros H. pose proof (core_pause w H) as Hp.
  pose proof (core_frames w H) as Hf.
  unfold cleanup, destroy. cbn.
  apply Dead_emit; [reflexivity | ].
  assert (Hno : noTimer PauseCallback
                  match pauseTimeout (visibilityManager w) with
                  | Some id => clearTimeout (Some id) w
                  | None => w
                  end).
  { intros j tm Hl Hc. destruct (pauseTimeout (visibilityManager w)) eqn:Hpt.
    - cbn in Hl. apply lookup_delete_Some in Hl as [Hne Hl].
      destruct (Hp j tm Hl Hc) as [E _]. congruence.
    - destruct (Hp j tm Hl Hc) as [E _]. congruence. }
  set (w1 := match pauseTimeout (visibilityManager w) with
             | Some id => clearTimeout (Some id) w
             | None => w
             end) in *.
  assert (E1 : frames (browser w1) = frames (browser w)
               /\ out (browser w1) = out (browser w)
               /\ animationFrameId w1 = animationFrameId w).
  { unfold w1. destruct (pauseTimeout (visibilityManager w)); cbn; auto. }
  destruct E1 as (Ef & Eo & Ea). rewrite Ea.
  destruct (animationFrameId w) as [i | ] eqn:Ha.
  - apply Dead_emit; [reflexivity | ]. constructor; cbn.
    + rewrite Ef. apply elem_of_equiv_empty_L.
      intros j [Hj Hne]%elem_of_difference. destruct (Hf j Hj) as [E _].
      apply Hne, elem_of_singleton. congruence.
    + exact Hno.
    + rewrite Eo. reflexivity.
  - constructor.
    + rewrite Ef. apply elem_of_equiv_empty_L. intros j Hj.
      destruct (Hf j Hj) as [E _]. congruence.
    + exact Hno.
    + rewrite Eo. reflexivity.
Qed.

Lemma Dead_dispatch seen e w c :
  (forall entries, e <> Intersection entries) ->
  Dead seen w -> dispatch e w = Some c -> Dead seen (world_of c).
Proof.
  intros Hne H He.
  assert (Hp : noTimer PauseCallback (world_of c)).
  { intros id tm Hl Hc.
    exact (dead_pause seen w H id tm
             (dispatch_pause_timers e w c Hne He id tm Hl Hc) Hc). }
  destruct H as [Hf Hno Ho].
  assert (Hkeep : frames (browser (world_of c)) = frames (browser w) ->
                  out (browser (world_of c)) = out (browser w) ->
                  Dead seen (world_of c)).
  { intros E1 E2. constructor; [rewrite E1; exact Hf | exact Hp | ].
    rewrite E2. exact Ho. }
  destruct e; unfold dispatch in He.
  - injection He as <-. apply Hkeep; unfold onMouseDown; case_match; reflexivity.
  - injection He as <-. apply Hkeep; reflexivity.
  - injection He as <-.
    apply Hkeep; unfold onMouseLeave, resumeRotation, setTimeout; repeat case_match;
      reflexivity.
  - injection He as <-. apply Hkeep; reflexivity.
  - injection He as <-. apply Hkeep; reflexivity.
  - injection He as <-. apply Hkeep; reflexivity.
  - injection He as <-.
    apply Hkeep; unfold onControlsStart; repeat case_match; reflexivity.
  - injection He as <-.
    apply Hkeep; unfold onControlsEnd, resumeRotation, setTimeout; repeat case_match;
      reflexivity.
  - exfalso. exact (Hne entries eq_refl).
  - destruct (timers (browser w) !! id) as [tm | ] eqn:Hl; [ | discriminate].
    destruct (Qle_bool (deadline tm) (performance_now w)); [ | discriminate].
    destruct (callback tm) eqn:Hc;
      [ | exfalso; exact (Hno id tm Hl Hc)].
    injection He as <-.
    apply Hkeep; unfold resumeCallback; repeat case_match; reflexivity.
  - destruct (decide (id ∈ frames (browser w))) as [Hin | ]; [ | discriminate].
    rewrite Hf in Hin. exfalso. exact (not_elem_of_empty id Hin).
  - destruct (loaderPending (browser w)); [ | discriminate].
    injection He as <-. unfold onModelLoaded.
    repeat (apply Dead_emit; [reflexivity | ]).
    constructor; assumption.
  - destruct (loaderPending (browser w)); [ | discriminate].
    injection He as <-. unfold onModelError.
    repeat (apply Dead_emit; [reflexivity | ]).
    constructor; assumption.
  - injection He as <-. apply Hkeep; reflexivity.
Qed.

Lemma Dead_run seen es w w' :
  Forall (fun te => forall entries, snd te <> Intersection entries) es ->
  Dead seen w -> run es w = Some w' -> Dead seen w'.
Proof.
  revert w. induction es as [ | [t e] rest IH]; intros w Hes H Hrun.
  - injection Hrun as <-. exact H.
  - apply Forall_cons_1 in Hes as [He Hrest]. cbn in He, Hrun.
    destruct (step t e w) as [w1 | ] eqn:Hs; [ | discriminate].
    apply (IH w1 Hrest); [ | exact Hrun].
    unfold step in Hs.
    destruct (Qle_bool (performance_now w) t); [ | discriminate].
    apply fmap_Some in Hs as (c & Hd & ->).
    apply (Dead_dispatch seen e (advance t w) c He); [ | exact Hd].
    destruct H as [Hf Hp Ho]. constructor; assumption.
Qed.

(** X23: the unload handler ends the loop for good although it leaves
    [isRendering] set: right after it no frame callback and no pause
    timer is pending, and whatever events follow (the disconnected
    observer delivers none), no frame is drawn or requested any more; a
    pending resume timer is not cancelled and may still fire. *)
Theorem cleanup_ends_drawing w es w' :
  reachable w ->
  Forall (fun te => forall entries, snd te <> Intersection entries) es ->
  run es (fst (cleanup w)) = Some w' ->
  frames (browser (fst (cleanup w))) = ∅
  /\ noTimer PauseCallback (fst (cleanup w))
  /\ isRendering (fst (cleanup w)) = isRendering w
  /\ (forall id tm, timers (browser w) !! id = Some tm ->
        callback tm = ResumeCallback ->
        timers (browser (fst (cleanup w))) !! id = Some tm)
  /\ frames (browser w') = ∅
  /\ List.filter draws (out (browser w'))
     = List.filter draws (out (browser w)).
Proof.
  intros Hreach Hes Hrun.
  destruct (reachable_Inv w Hreach) as [Hcore _].
  pose proof (cleanup_Dead w Hcore) as Hd.
  pose proof (Dead_run _ es _ w' Hes Hd Hrun) as Hd'.
  split; [exact (dead_frames _ _ Hd) | ].
  split; [exact (dead_pause _ _ Hd) | ].
  split; [unfold cleanup, destroy; cbn;
          destruct (pauseTimeout (visibilityManager w)); cbn;
          destruct (animationFrameId w); reflexivity | ].
  split; [ | split; [exact (dead_frames _ _ Hd') | exact (dead_out _ _ Hd')]].
  intros id tm Hl Hc. unfold cleanup, destroy; cbn.
  destruct (pauseTimeout (visibilityManager w)) as [p | ] eqn:Hpt; cbn.
  - assert (Hne : p <> id).
    { intros ->.
      destruct (handles_pause w (reachable_Handles w Hreach) id Hpt) as [_ Hk].
      rewrite (Hk tm Hl) in Hc. discriminate. }
    destruct (animationFrameId w); cbn;
      (apply lookup_delete_Some; split; [exact Hne | exact Hl]).
  - destruct (animationFrameId w); cbn; exact Hl.
Qed.

Lemma cleanup_ends_drawing_witness :
  let w := after [(10, ModelLoaded 0); (20, MouseDown 0); (21, ControlsStart);
                  (30, MouseUp); (31, ControlsEnd);
                  (40, Intersection [false])] in
  let es' := [(50, MouseDown 0); (2031, TimerFired 1); (2040, ContextChange true)] in
  reachable w
  /\ Forall (fun te => forall entries, snd te <> Intersection entries) es'
  /\ run es' (fst (cleanup w)) = Some (default w (run es' (fst (cleanup w))))
  /\ frames (browser (fst (cleanup w))) = ∅
  /\ noTimer PauseCallback (fst (cleanup w))
  /\ isRendering (fst (cleanup w)) = isRendering w
  /\ (forall id tm, timers (browser w) !! id = Some tm ->
        callback tm = ResumeCallback ->
        timers (browser (fst (cleanup w))) !! id = Some tm)
  /\ frames (browser (default w (run es' (fst (cleanup w))))) = ∅
  /\ List.filter draws (out (browser (default w (run es' (fst (cleanup w))))))
     = List.filter draws (out (browser w)).
Proof.
  intros w es'.
  assert (H : reachable w) by (apply after_reachable; vm_compute; eauto).
  assert (Hes : Forall (fun te => forall entries,
                          snd te <> Intersection entries) es')
    by (repeat constructor; discriminate).
  assert (Hrun : run es' (fst (cleanup w))
                 = Some (default w (run es' (fst (cleanup w)))))
    by (vm_compute; reflexivity).
  split; [exact H | ].
  split; [exact Hes | split; [exact Hrun | ]].
  exact (cleanup_ends_drawing w es' _ H Hes Hrun).
Defined.

(** ** The procedural normal map *)

Lemma roundHalfEven_bounds a b x :
  inject_Z a <= x <= inject_Z b -> (a <= roundHalfEven x <= b)%Z.
Proof.
  intros [Ha Hb]. unfold roundHalfEven.
  assert (Hf : inject_Z (Qfloor x) <= x) by apply Qfloor_le.
  assert (Hlo : (a <= Qfloor x)%Z).
  { rewrite <- (Qfloor_Z a). apply Qfloor_resp_le. exact Ha. }
  assert (Hhi : (Qfloor x <= b)%Z).
  { rewrite Zle_Qle. lra. }
  assert (Hup : 0.5 <= x - inject_Z (Qfloor x) -> (Qfloor x + 1 <= b)%Z).
  { intros Hd. assert (Hlt : inject_Z (Qfloor x) < inject_Z b) by lra.
    rewrite <- Zlt_Qlt in Hlt. lia. }
  destruct (Qltb (x - inject_Z (Qfloor x)) 0.5) eqn:E1; [lia | ].
  apply Qltb_false in E1.
  destruct (Qltb 0.5 (x - inject_Z (Qfloor x))); [specialize (Hup E1); lia | ].
  destruct (Z.even (Qfloor x)); [lia | specialize (Hup E1); lia].
Qed.

Lemma toUint8Clamped_bounds a b x :
  (0 <= a)%Z -> (b <= 255)%Z ->
  inject_Z a <= x <= inject_Z b -> (a <= toUint8Clamped x <= b)%Z.
Proof.
  intros Ha Hb [Hl Hu]. unfold toUint8Clamped. apply roundHalfEven_bounds.
  assert (H0 : inject_Z 0 <= inject_Z a) by (rewrite <- Zle_Qle; exact Ha).
  assert (H255 : inject_Z b <= inject_Z 255) by (rewrite <- Zle_Qle; exact Hb).
  change (inject_Z 0) with 0 in H0. change (inject_Z 255) with 255 in H255.
  split.
  - apply Q.min_glb; [ | lra].
    apply Qle_trans with x; [exact Hl | apply Q.le_max_l].
  - apply Qle_trans with (Qmax x 0); [apply Q.le_min_l | ].
    apply Q.max_lub; lra.
Qed.

Lemma noisePixels_length pixels random calls :
  length (noisePixels pixels random calls) = pixels.
Proof.
  revert calls. induction pixels as [ | rest IH]; intros calls;
    [reflexivity | ]. cbn [noisePixels length]. rewrite IH. reflexivity.
Qed.

Lemma noisePixels_nth pixels random calls k :
  (k < pixels)%nat ->
  noisePixels pixels random calls !! k
  = Some (noisePixel (random (calls + 2 * k)%nat)
            (random (S (calls + 2 * k)))).
Proof.
  revert calls k. induction pixels as [ | rest IH]; intros calls k Hk; [lia | ].
  destruct k as [ | k]; cbn [noisePixels].
  - cbn. rewrite Nat.add_0_r. reflexivity.
  - cbn [lookup list_lookup]. rewrite IH by lia.
    replace (S (S calls) + 2 * k)%nat with (calls + 2 * S k)%nat by lia.
    reflexivity.
Qed.

(** X24: whatever [Math.random()] returns (values in [0, 1)), the normal
    map has one pixel per canvas cell, pixel [k] is built from the
    calls [2k] and [2k+1] of the generator, and every pixel is stored
    with equal red and green between 128 and 148, blue between 128 and
    138 and alpha 255: the bytes written never leave the range of a
    [Uint8ClampedArray], so nothing is clipped. *)
Theorem normal_map_pixels (random : nat -> Q) :
  (forall k, 0 <= random k /\ random k < 1) ->
  length (createMetalNormalMap random) = (512 * 512)%nat
  /\ forall k, (k < 512 * 512)%nat ->
       exists r b,
         createMetalNormalMap random !! k = Some (r, r, b, 255%Z)
         /\ r = toUint8Clamped (random (2 * k)%nat * 20 + 128)
         /\ b = toUint8Clamped (128 + random (S (2 * k)) * 10)
         /\ (128 <= r <= 148)%Z /\ (128 <= b <= 138)%Z.
Proof.
  intros Hrandom. unfold createMetalNormalMap.
  split; [apply noisePixels_length | ].
  intros k Hk. rewrite (noisePixels_nth _ random 0 k Hk).
  change (0 + 2 * k)%nat with (2 * k)%nat.
  destruct (Hrandom (2 * k)%nat) as [H1 H2].
  destruct (Hrandom (S (2 * k))) as [H3 H4].
  eexists _, _. split; [reflexivity | ].
  split; [reflexivity | split; [reflexivity | ]].
  split; (apply toUint8Clamped_bounds; [lia | lia | ]).
  - change (inject_Z 128) with 128. change (inject_Z 148) with 148.
    split; lra.
  - change (inject_Z 128) with 128. change (inject_Z 138) with 138.
    split; lra.
Qed.

Lemma normal_map_pixels_witness :
  let random := fun k : nat => if Nat.even k then 0 else 999 # 1000 in
  (forall k, 0 <= random k /\ random k < 1)
  /\ length (createMetalNormalMap random) = (512 * 512)%nat
  /\ forall k, (k < 512 * 512)%nat ->
       exists r b,
         createMetalNormalMap random !! k = Some (r, r, b, 255%Z)
         /\ r = toUint8Clamped (random (2 * k)%nat * 20 + 128)
         /\ b = toUint8Clamped (128 + random (S (2 * k)) * 10)
         /\ (128 <= r <= 148)%Z /\ (128 <= b <= 138)%Z.
Proof.
  intros random.
  assert (H : forall k, 0 <= random k /\ random k < 1).
  { intros k. unfold random. destruct (Nat.even k); split;
      first [discriminate | reflexivity]. }
  split; [exact H | exact (normal_map_pixels random H)].
Defined.

(** * Smoothed velocity, to the last bit *)

Lemma Double_blurTrace_specEma frames : forall s,
  map Double.blurSmoothed (Double.blurTrace frames s)
  = Double.specEma Double.rawWeight (Double.blurSmoothed s)
      (Double.rawTrace frames s).
Proof.
  induction frames as [ | [delta angle] rest IH]; intros s; [reflexivity | ].
  cbn [Double.blurTrace Double.rawTrace Double.specEma map].
  rewrite IH. reflexivity.
Qed.

(** C7, as stated, fails in the arithmetic of the program: in binary64
    the code's weight [1 - 0.9] is not 0.1, and on Scenario D the
    smoothed velocities the block computes are not those of the
    recurrence [smoothed*0.9 + raw*0.1]; they differ from the third
    value on (0.09999999999999998 against 0.1). *)
Lemma smoothed_velocity_not_exact :
  map Double.blurSmoothed (Double.blurTrace Double.scenarioD Double.blur0)
  <> Double.specEma 0.1%float 0%float Double.scenarioD_raw.
Proof.
  intros H.
  apply (f_equal (fun l => PrimFloat.eqb (nth 2 l 0%float) 0.1%float)) in H.
  vm_compute in H. discriminate H.
Qed.

(** C7, amended: in a tick with a loaded model the raw velocity is
    [|angle - previousRotation| / max delta 0.001] for the angle the
    model has after the rotation step, and the smoothed velocity, which
    starts at 0, becomes [smoothed * 0.9 + raw * (1 - 0.9)]; evaluated in
    binary64 the weight [1 - 0.9] is 0.09999999999999998, along any
    sequence of frames the smoothed values are those of the recurrence
    [s * 0.9 + raw * 0.09999999999999998] applied to the raw values, and
    for frames with raw velocities 0, 0, 1, 1, 1 they are 0, 0,
    0.09999999999999998, 0.18999999999999995, 0.2709999999999999. *)
Theorem smoothed_velocity_recurrence :
  (forall w y,
     isRendering w = true -> model w = Some y ->
     let w' := world_of (tick w) in
     exists y',
       model w' = Some y' /\ previousRotation w' = y'
       /\ let raw := Qabs (y' - previousRotation w) / Qmax (tickDelta w) 0.001 in
          smoothedVelocity w'
          = smoothedVelocity w * velocitySmoothing
            + raw * (1 - velocitySmoothing))
  /\ (forall m t0 lost, smoothedVelocity (init m t0 lost) = 0)
  /\ Double.blurSmoothed Double.blur0 = 0%float
  /\ (1 - Double.velocitySmoothing)%float = Double.rawWeight
  /\ (forall delta angle s,
        Double.blurSmoothed (Double.motionBlurBlock delta angle s)
        = (Double.blurSmoothed s * 0.9
           + Double.rawVelocityOf delta angle (Double.blurPrevious s)
             * Double.rawWeight)%float)
  /\ (forall frames s,
        map Double.blurSmoothed (Double.blurTrace frames s)
        = Double.specEma Double.rawWeight (Double.blurSmoothed s)
            (Double.rawTrace frames s))
  /\ Double.rawTrace Double.scenarioD Double.blur0 = Double.scenarioD_raw
  /\ map Double.blurSmoothed (Double.blurTrace Double.scenarioD Double.blur0)
     = Double.scenarioD_smoothed.
Proof.
  split; [ | split; [reflexivity | split; [reflexivity | ]]].
  - intros w y Hr Hm w'.
    pose proof (tick_blur w) as Hb. rewrite Hr in Hb. fold w' in Hb.
    destruct (tick_rotation_advance_model w y Hr Hm) as [y' Hy].
    fold w' in Hy. rewrite Hy in Hb. exists y'.
    split; [exact Hy | ].
    assert (Hp : previousRotation w' = blurPrevious (blurOf w')) by reflexivity.
    assert (Hs : smoothedVelocity w' = blurSmoothed (blurOf w')) by reflexivity.
    rewrite Hp, Hs, Hb. split; reflexivity.
  - split; [vm_compute; reflexivity | ].
    split; [intros delta angle s; reflexivity | ].
    split; [exact Double_blurTrace_specEma | ].
    split; vm_compute; reflexivity.
Qed.

Lemma smoothed_velocity_recurrence_witness :
  let w := after [(10, ModelLoaded 0)] in
  let w' := world_of (tick (advance 2016 w)) in
  isRendering (advance 2016 w) = true /\ model (advance 2016 w) = Some 0
  /\ exists y',
       model w' = Some y' /\ previousRotation w' = y'
       /\ let raw := Qabs (y' - previousRotation (advance 2016 w))
                     / Qmax (tickDelta (advance 2016 w)) 0.001 in
          smoothedVelocity w'
          = smoothedVelocity (advance 2016 w) * velocitySmoothing
            + raw * (1 - velocitySmoothing).
Proof.
  intros w w'.
  split; [vm_compute; reflexivity | split; [vm_compute; reflexivity | ]].
  apply (proj1 smoothed_velocity_recurrence (advance 2016 w) 0);
    vm_compute; reflexivity.
Defined.

(** * The delta after a restart *)




